(** * StoryboardTo3D: the scene parameters resolved by [UStoryboardPythonBridge]

    A shallow embedding of [Source/StoryboardTo3D/Private/StoryboardPythonBridge.cpp]
    and of the engine types it computes with.

    - Module [Engine]: the Unreal Engine core types the bridge uses
      ([FString] comparison, [float] and [double] arithmetic, [FVector],
      [FRotator], [FLinearColor], [FString::Printf]).
    - Module [Bridge]: [FStoryboardPanel] and the functions of
      [UStoryboardPythonBridge], over an explicit editor state.
    - Module [AssetRegistry]: the asset search of the bridge.
    - Module [Style]: [FStoryboardTo3DStyle] of
      [Source/StoryboardTo3D/Private/StoryboardTo3DStyle.cpp].
    - Then the properties of the resolver, one section per topic, and the
      properties of the scene as a whole, of the search and of the style. *)

From Stdlib Require Import ZArith NArith List String Ascii Bool Lia Permutation.
From Stdlib Require Import Floats.SpecFloat.
From Stdlib Require Import DecimalString.
From Stdlib Require DecimalFacts DecimalPos DecimalZ.
Import ListNotations.

Local Open Scope string_scope.
Local Open Scope Z_scope.

(* ===================================================================== *)
(** * Engine types                                                        *)
(* ===================================================================== *)

Module Engine.

(** ** Strings

    An [FString] is modelled by its code units.  The bridge compares an
    [FString] with a [TEXT("...")] literal through
    [operator==] of an [FString] and a [const TCHAR] pointer, which the
    engine implements as [FPlatformString::Stricmp(Lhs.operator*(), Rhs) == 0]:
    a comparison of the two NUL-terminated buffers that ignores the case of
    ASCII letters. *)

Definition TCHAR := ascii.
Definition FString := string.
Definition FName := string.

(** [TEXT("...")] *)
Definition TEXT (Literal : string) : FString := Literal.

(** [TChar<CharType>::ToUnsigned] *)
Definition ToUnsigned (C : TCHAR) : Z := Z.of_N (N_of_ascii C).

(** The unit read at the head of a buffer; after the last character comes
    the NUL terminator. *)
Definition Peek (Buffer : string) : Z :=
  match Buffer with
  | EmptyString => 0
  | String C _ => ToUnsigned C
  end.

(** [String++] *)
Definition Advance (Buffer : string) : string :=
  match Buffer with
  | EmptyString => EmptyString
  | String _ Rest => Rest
  end.

(** [BothAscii(U1, U2)]: [((U1 | U2) & 0xffffff80) == 0] *)
Definition BothAscii (U1 U2 : Z) : bool := Z.lor U1 U2 <? 128.

(** The table [LowerAscii]: 'A'..'Z' go to 'a'..'z', every other ASCII
    code to itself. *)
Definition LowerAscii (U : Z) : Z :=
  if (65 <=? U) && (U <=? 90) then U + 32 else U.

(** [FGenericPlatformStricmp::Stricmp], the loop of [StricmpImpl]:
<<
    while (true) {
        C1 = String1[0]; String1++;  C2 = String2[0]; String2++;
        if (U1 == U2) { if (U1) continue; return 0; }
        else if (BothAscii(U1, U2)) {
            if (int32 Diff = LowerAscii[U1] - LowerAscii[U2]) return Diff;
        }
        else return U1 - U2;
    }
>>
*)
Fixpoint Stricmp (String1 String2 : string) {struct String1} : Z :=
  let U1 := Peek String1 in
  let U2 := Peek String2 in
  let Continue :=
    match String1 with
    | EmptyString => 0
    | String _ Rest1 => Stricmp Rest1 (Advance String2)
    end in
  if U1 =? U2 then
    if U1 =? 0 then 0 else Continue
  else if BothAscii U1 U2 then
    let Diff := LowerAscii U1 - LowerAscii U2 in
    if Diff =? 0 then Continue else Diff
  else U1 - U2.

(** [operator==] with an [FString] on the left and a literal on the right. *)
Definition FString_eq (Lhs : FString) (Rhs : string) : bool :=
  Stricmp Lhs Rhs =? 0.

Declare Scope fstring_scope.
Delimit Scope fstring_scope with fstring.
Infix "==" := FString_eq (at level 70, no associativity) : fstring_scope.

(** [operator+] of a literal and an [FString]. *)
Definition FString_append (A B : FString) : FString := (A ++ B)%string.

(** *** Reference notions for comparing strings

    [c_str] is what the comparison reads of a buffer: the units before the
    first NUL.  [FoldCase] folds the ASCII capitals. *)

Definition IsNul (C : TCHAR) : bool := ToUnsigned C =? 0.

Fixpoint c_str (S : string) : string :=
  match S with
  | EmptyString => EmptyString
  | String C Rest => if IsNul C then EmptyString else String C (c_str Rest)
  end.

Definition FoldChar (C : TCHAR) : TCHAR :=
  ascii_of_N (Z.to_N (LowerAscii (ToUnsigned C))).

Fixpoint FoldCase (S : string) : string :=
  match S with
  | EmptyString => EmptyString
  | String C Rest => String (FoldChar C) (FoldCase Rest)
  end.

(** Equality up to the case of ASCII letters, as a predicate on strings. *)
Definition EqualsIgnoreCase (A B : string) : bool :=
  String.eqb (FoldCase (c_str A)) (FoldCase (c_str B)).

(** What a comparison reads at the head of a buffer: the terminator, or a
    unit that is not NUL. *)
Inductive HeadView (S : string) : Prop :=
| AtEnd :
    Peek S = 0 -> FoldCase (c_str S) = EmptyString -> HeadView S
| AtUnit (C : TCHAR) (Rest : string) :
    S = String C Rest -> ToUnsigned C <> 0 ->
    FoldCase (c_str S) = String (FoldChar C) (FoldCase (c_str Rest)) ->
    HeadView S.

(** ** Numbers

    [int32] values are integers of the range below. *)

Definition Int32 (z : Z) : Prop := - 2 ^ 31 <= z < 2 ^ 31.

(** *** Integer-valued [float] and [double]

    Every coordinate the bridge computes is built from [int32] values and
    whole-number literals with [*], [+] and [-]: it is a whole number.  Such
    a [float] or [double] is modelled by the integer it holds, and each
    IEEE-754 operation by the exact operation followed by rounding to the
    nearest representable value, ties to the even significand.  The
    magnitudes stay far below the overflow threshold of either format, so
    rounding only drops low-order bits.  Values are compared as numbers:
    the two zeros are one.  An expression of type [float] is evaluated in
    binary32, without a wider intermediate format, as the compilers of the
    editor's platforms do. *)

(** Significand widths of binary32 and binary64. *)
Definition FloatPrec : Z := 24.
Definition DoublePrec : Z := 53.

(** Round [z] to [prec] significant bits, to nearest, ties to even. *)
Definition RoundNearestEven (prec : Z) (z : Z) : Z :=
  let a := Z.abs z in
  let e := Z.max 0 (Z.log2 a + 1 - prec) in
  let q := Z.shiftr a e in
  let r := a - Z.shiftl q e in
  let q' :=
    match 2 * r ?= 2 ^ e with
    | Lt => q
    | Eq => if Z.even q then q else q + 1
    | Gt => q + 1
    end in
  Z.sgn z * Z.shiftl q' e.

Definition RoundToFloat : Z -> Z := RoundNearestEven FloatPrec.
Definition RoundToDouble : Z -> Z := RoundNearestEven DoublePrec.

(** [(float)i] for an [int32] [i]. *)
Definition IntToFloat (i : Z) : Z := RoundToFloat i.

(** [a * b] and [a - b] on [float]. *)
Definition FloatMul (a b : Z) : Z := RoundToFloat (a * b).
Definition FloatSub (a b : Z) : Z := RoundToFloat (a - b).

(** [a + b] and [a - b] on [double]. *)
Definition DoubleAdd (a b : Z) : Z := RoundToDouble (a + b).
Definition DoubleSub (a b : Z) : Z := RoundToDouble (a - b).

(** *** Fractional [float]

    Light intensity and colour take fractional values; they are modelled
    with the standard library's specification of IEEE-754 arithmetic at the
    binary32 format. *)

Definition float := spec_float.
Definition FloatEmax : Z := 128.

(** A whole-number literal, and a decimal literal [n/d] (written [0.4f] for
    4/10): the nearest binary32 value. *)
Definition FloatOfZ (z : Z) : float :=
  binary_normalize FloatPrec FloatEmax z 0 false.
Definition FloatLiteral (n d : Z) : float :=
  SFdiv FloatPrec FloatEmax (FloatOfZ n) (FloatOfZ d).

(** [a * b] and [a - b] on [float]. *)
Definition FMul (a b : float) : float := SFmul FloatPrec FloatEmax a b.
Definition FSub (a b : float) : float := SFsub FloatPrec FloatEmax a b.

(** The integer held by a binary32 value that is a whole number. *)
Definition IntegerValue (f : float) : Z :=
  match f with
  | S754_finite s m e => cond_Zopp s (Z.shiftl (Zpos m) e)
  | _ => 0
  end.

(** *** The integer model against the binary32 and binary64 formats

    [RoundShift M n] drops the [n] low bits of the significand [M], rounding
    to nearest, ties to even.  [Scaled m e a] says that [m] at the binary
    exponent [e] writes the integer [a].  [Holds prec emax x V] says that
    the float [x] of the format ([prec], [emax]) is a zero or a normalised
    finite number and that its value is the integer [V]. *)

Definition RoundShift (M n : Z) : Z :=
  let q := M / 2 ^ n in
  match 2 * (M mod 2 ^ n) ?= 2 ^ n with
  | Lt => q
  | Eq => if Z.even q then q else q + 1
  | Gt => q + 1
  end.

Definition Scaled (m e a : Z) : Prop :=
  exists k, 0 <= k /\ 0 <= e + k /\ m * 2 ^ (e + k) = a * 2 ^ k.

Definition Holds (prec emax : Z) (x : spec_float) (V : Z) : Prop :=
  match x with
  | S754_zero _ => V = 0
  | S754_finite s m e =>
      Zpos (digits2_pos m) = prec /\ e <= emax - prec /\
      V <> 0 /\ s = (V <? 0) /\ Scaled (Zpos m) e (Z.abs V)
  | _ => False
  end.

(** The same predicate at the two formats of the bridge, and the IEEE-754
    operations the coordinates go through: an [int32] or a [float] widened
    to [double] (an [FVector] component), [+] and [-] on [double], and unary
    [-] on [float]. *)
Definition DoubleEmax : Z := 1024.
Definition HoldsFloat : float -> Z -> Prop := Holds FloatPrec FloatEmax.
Definition HoldsDouble : float -> Z -> Prop := Holds DoublePrec DoubleEmax.

Definition DoubleOfZ (z : Z) : float :=
  binary_normalize DoublePrec DoubleEmax z 0 false.
Definition DAdd (a b : float) : float := SFadd DoublePrec DoubleEmax a b.
Definition DSub (a b : float) : float := SFsub DoublePrec DoubleEmax a b.
Definition FNeg (a : float) : float := SFopp a.
Definition FloatToDouble (x : float) : float :=
  match x with
  | S754_finite s m e =>
      binary_normalize DoublePrec DoubleEmax (cond_Zopp s (Zpos m)) e false
  | _ => x
  end.

(** ** Vectors, rotations and colours *)

(** [FVector]: three [double] components, all whole numbers here. *)
Record FVector := MakeVector { X : Z; Y : Z; Z_ : Z }.

(** [operator+] and [operator-] on [FVector], component by component. *)
Definition FVector_add (A B : FVector) : FVector :=
  MakeVector (DoubleAdd (X A) (X B)) (DoubleAdd (Y A) (Y B)) (DoubleAdd (Z_ A) (Z_ B)).
Definition FVector_sub (A B : FVector) : FVector :=
  MakeVector (DoubleSub (X A) (X B)) (DoubleSub (Y A) (Y B)) (DoubleSub (Z_ A) (Z_ B)).

(** [FRotator].  [FVector::Rotation()] yields the orientation that points
    along the vector; its yaw and pitch are arc tangents of the components
    and are kept symbolic. *)
Inductive FRotator :=
| ZeroRotator
| Rotation (Direction : FVector).

(** [FLinearColor(R, G, B)] has alpha 1. *)
Record FLinearColor := MakeColor { R : float; G : float; B : float; A : float }.
Definition LinearColor (r g b : float) : FLinearColor := MakeColor r g b (FloatOfZ 1).
Definition White : FLinearColor := MakeColor (FloatOfZ 1) (FloatOfZ 1) (FloatOfZ 1) (FloatOfZ 1).

(** ** Formatting

    [%02d] of [FString::Printf]: the decimal digits of the argument, a
    leading minus sign for a negative one, padded with zeros on the left
    (after the sign) to a width of at least two. *)
Definition Printf_d (z : Z) : string := NilZero.string_of_int (Z.to_int z).

Definition Printf_02d (z : Z) : string :=
  let Digits := Printf_d z in
  if (String.length Digits <? 2)%nat then ("0" ++ Digits)%string else Digits.

End Engine.

(* ===================================================================== *)
(** * The bridge                                                          *)
(* ===================================================================== *)

Module Bridge.
Import Engine.
Local Open Scope fstring_scope.

(** ** Data model ([StoryboardPythonBridge.h]) *)

Record FStoryboardPanel := MakePanel {
  ImagePath : FString;
  Index : Z;                  (* int32 *)
  ShotType : FString;
  NumCharacters : Z;          (* int32 *)
  Objects : list FString;
  Mood : FString;
  TimeOfDay : FString
}.

(** ** The editor the bridge talks to

    The actors of the editor world, in the order they were spawned.  What
    an actor is decides the properties the bridge writes on it. *)

Inductive ActorKind :=
| FromObject (AssetPath : FString)
    (* spawned by [UEditorLevelLibrary::SpawnActorFromObject] *)
| CineCameraActor (CurrentFocalLength : option float)
    (* [None]: the focal length was not written *)
| PointLight (Intensity : float) (LightColor : FLinearColor).

Record AActor := MakeActor {
  Kind : ActorKind;
  Location : FVector;
  ActorRotation : FRotator;
  Tags : list FName
}.

Definition UWorld := list AActor.

(** The class asked of [SpawnActor]. *)
Inductive UClass := StaticClass_Object | StaticClass_CineCamera | StaticClass_PointLight.

(** What the host answers.  None of it is decided by the bridge.  The
    answers are those of one call of a bridge function: the editor runs the
    call to completion on its own thread, so a question asked twice within
    the call gets the same answer.  The [UE_LOG] lines write to the log
    only and are left out of the world state. *)
Record EditorHost := MakeHost {
  HasWorld : bool;
    (* [GEditor->GetEditorWorldContext().World()] is not null *)
  LoadAsset : FString -> bool;
    (* [UEditorAssetLibrary::LoadAsset] finds the asset *)
  SpawnActor : UClass -> FVector -> FRotator -> bool;
    (* the spawn call returns an actor *)
  HasCineCameraComponent : bool;
    (* [GetCineCameraComponent()] is not null *)
  NewObject : FString -> bool
    (* [NewObject<ULevelSequence>] returns an object *)
}.

(** ** Values computed by [CreateSceneFromPanel] *)

(** [FVector SceneCenter = FVector(Panel.Index * 2000.0f, 0, 0);] *)
Definition SceneCenter (Panel : FStoryboardPanel) : FVector :=
  MakeVector (FloatMul (IntToFloat (Index Panel)) 2000) 0 0.

(** [i * 150.0f - (Panel.NumCharacters - 1) * 75.0f].  The loop guard
    [i < Panel.NumCharacters] with [i >= 0] keeps [NumCharacters - 1] from
    overflowing. *)
Definition CharOffset (NumCharacters i : Z) : Z :=
  FloatSub (FloatMul (IntToFloat i) 150)
           (FloatMul (IntToFloat (NumCharacters - 1)) 75).

(** [SceneCenter + FVector(0, i * 150.0f - ..., 0)] *)
Definition CharLocation (Panel : FStoryboardPanel) (i : Z) : FVector :=
  FVector_add (SceneCenter Panel)
              (MakeVector 0 (CharOffset (NumCharacters Panel) i) 0).

(** The values [i] takes in [for (int32 i = 0; i < Count; i++)]. *)
Definition LoopIndices (Count : Z) : list Z :=
  map Z.of_nat (seq 0 (Z.to_nat Count)).

(** [SceneCenter + FVector(RandX, RandY, 0)] *)
Definition ObjectLocation (Panel : FStoryboardPanel) (RandX RandY : Z) : FVector :=
  FVector_add (SceneCenter Panel) (MakeVector RandX RandY 0).

(** <<
    float CameraDistance = 500.0f;
    if (Panel.ShotType == TEXT("close"))      CameraDistance = 200.0f;
    else if (Panel.ShotType == TEXT("wide"))  CameraDistance = 1000.0f;
>> *)
Definition CameraDistance (ShotType : FString) : Z :=
  if ShotType == TEXT "close" then 200
  else if ShotType == TEXT "wide" then 1000
  else 500.

(** [SceneCenter + FVector(-CameraDistance, 0, 160)] *)
Definition CameraLocation (Panel : FStoryboardPanel) : FVector :=
  FVector_add (SceneCenter Panel)
              (MakeVector (- CameraDistance (ShotType Panel)) 0 160).

(** [(SceneCenter - CameraLocation).Rotation()] *)
Definition CameraRotation (Panel : FStoryboardPanel) : FRotator :=
  Rotation (FVector_sub (SceneCenter Panel) (CameraLocation Panel)).

(** The focal length [CreateSceneFromPanel] passes: [50.0f]. *)
Definition SceneFocalLength : float := FloatOfZ 50.

(** ** Values computed by [SetupLighting] *)

(** <<
    FLinearColor LightColor = FLinearColor::White;
    float Intensity = 3.0f;
    if (TimeOfDay == TEXT("night")) { ... 0.4f, 0.5f, 0.7f ... 1.0f }
    else if (TimeOfDay == TEXT("dawn") || TimeOfDay == TEXT("dusk"))
                                    { ... 1.0f, 0.6f, 0.3f ... 2.0f }
>> *)
Definition TimeOfDayLight (TimeOfDay : FString) : FLinearColor * float :=
  if TimeOfDay == TEXT "night" then
    (LinearColor (FloatLiteral 4 10) (FloatLiteral 5 10) (FloatLiteral 7 10), FloatOfZ 1)
  else if (TimeOfDay == TEXT "dawn") || (TimeOfDay == TEXT "dusk") then
    (LinearColor (FloatOfZ 1) (FloatLiteral 6 10) (FloatLiteral 3 10), FloatOfZ 2)
  else
    (White, FloatOfZ 3).

(** <<
    if (Mood == TEXT("dark") || Mood == TEXT("moody"))          Intensity *= 0.5f;
    else if (Mood == TEXT("bright") || Mood == TEXT("cheerful")) Intensity *= 1.5f;
>> *)
Definition ApplyMood (Mood : FString) (Intensity : float) : float :=
  if (Mood == TEXT "dark") || (Mood == TEXT "moody") then
    FMul Intensity (FloatLiteral 5 10)
  else if (Mood == TEXT "bright") || (Mood == TEXT "cheerful") then
    FMul Intensity (FloatLiteral 15 10)
  else
    Intensity.

(** [LightColor] and [Intensity] as they stand before the light is made. *)
Definition ResolveLighting (Mood TimeOfDay : FString) : FLinearColor * float :=
  let '(LightColor, Intensity) := TimeOfDayLight TimeOfDay in
  (LightColor, ApplyMood Mood Intensity).

(** [FVector KeyLightLocation = FVector(-500, -500, 500);] *)
Definition KeyLightLocation : FVector := MakeVector (-500) (-500) 500.

(** ** Operations on the editor world *)

(** [PlaceActorInScene]: nothing is placed when the asset does not load or
    the spawn fails. *)
Definition PlaceActorInScene (Host : EditorHost) (AssetPath : FString)
    (Location : FVector) (Rotation : FRotator) (World : UWorld) : UWorld :=
  if negb (LoadAsset Host AssetPath) then World
  else if SpawnActor Host StaticClass_Object Location Rotation then
    (World ++ [MakeActor (FromObject AssetPath) Location Rotation
                         [TEXT "StoryboardGenerated"]])%list
  else World.

(** [CreateCamera]: returns the camera actor, or null. *)
Definition CreateCamera (Host : EditorHost) (Location : FVector)
    (Rotation : FRotator) (FocalLength : float) (World : UWorld)
    : option AActor * UWorld :=
  if negb (HasWorld Host) then (None, World)
  else if SpawnActor Host StaticClass_CineCamera Location Rotation then
    let CameraActor :=
      MakeActor
        (CineCameraActor (if HasCineCameraComponent Host then Some FocalLength else None))
        Location Rotation [TEXT "StoryboardCamera"] in
    (Some CameraActor, (World ++ [CameraActor])%list)
  else (None, World).

(** [SetupLighting] *)
Definition SetupLighting (Host : EditorHost) (Mood TimeOfDay : FString)
    (World : UWorld) : UWorld :=
  if negb (HasWorld Host) then World
  else
    let '(LightColor, Intensity) := ResolveLighting Mood TimeOfDay in
    if SpawnActor Host StaticClass_PointLight KeyLightLocation ZeroRotator then
      (World ++ [MakeActor (PointLight (FMul Intensity (FloatOfZ 1000)) LightColor)
                           KeyLightLocation ZeroRotator [TEXT "StoryboardLight"]])%list
    else World.

(** ** The ambient random generator

    [FMath::RandRange(Min, Max)] draws from the process-wide generator.
    The generator is a parameter: a state and the draw on it.

    The two draws of one object are the first two arguments of one
    [FVector] constructor call, and the language leaves the order in which
    arguments are evaluated to the compiler.  [LeftToRight] says whether
    the draw for X comes before the draw for Y. *)

Section Random.

Variable RandomStream : Type.
Variable RandRange : Z -> Z -> RandomStream -> Z * RandomStream.
Variable LeftToRight : bool.

(** [FVector(FMath::RandRange(-500, 500), FMath::RandRange(-500, 500), 0)]:
    the X and Y arguments. *)
Definition DrawOffset (Random : RandomStream) : (Z * Z) * RandomStream :=
  let '(First, Random1) := RandRange (-500) 500 Random in
  let '(Second, Random2) := RandRange (-500) 500 Random1 in
  (if LeftToRight then (First, Second) else (Second, First), Random2).

(** The offsets drawn for the entries of [Panel.Objects], in order. *)
Fixpoint DrawObjectOffsets (Objects : list FString) (Random : RandomStream)
    : list (Z * Z) * RandomStream :=
  match Objects with
  | [] => ([], Random)
  | _ :: Rest =>
      let '(Offset, Random2) := DrawOffset Random in
      let '(Offsets, Random') := DrawObjectOffsets Rest Random2 in
      (Offset :: Offsets, Random')
  end.

(** One turn of [for (const FString& ObjectName : Panel.Objects)]. *)
Definition PlaceObject (Host : EditorHost) (Panel : FStoryboardPanel)
    (State : UWorld * RandomStream) (ObjectName : FString) : UWorld * RandomStream :=
  let '(World, Random) := State in
  let '(Offset, Random2) := DrawOffset Random in
  (PlaceActorInScene Host (TEXT "/Engine/BasicShapes/Cube")
     (ObjectLocation Panel (fst Offset) (snd Offset)) ZeroRotator World, Random2).

(** One turn of [for (int32 i = 0; i < Panel.NumCharacters; i++)]. *)
Definition PlaceCharacter (Host : EditorHost) (Panel : FStoryboardPanel)
    (World : UWorld) (i : Z) : UWorld :=
  PlaceActorInScene Host (TEXT "/Engine/BasicShapes/Cylinder")
    (CharLocation Panel i) ZeroRotator World.

(** [CreateSceneFromPanel] *)
Definition CreateSceneFromPanel (Host : EditorHost) (Panel : FStoryboardPanel)
    (State : UWorld * RandomStream) : UWorld * RandomStream :=
  if negb (HasWorld Host) then State
  else
    let '(World, Random) := State in
    let World1 :=
      fold_left (PlaceCharacter Host Panel) (LoopIndices (NumCharacters Panel)) World in
    let '(World2, Random2) :=
      fold_left (PlaceObject Host Panel) (Objects Panel) (World1, Random) in
    let '(_, World3) :=
      CreateCamera Host (CameraLocation Panel) (CameraRotation Panel)
                   SceneFocalLength World2 in
    (SetupLighting Host (Mood Panel) (TimeOfDay Panel) World3, Random2).

(** The parameters one call resolves. *)
Record ResolvedParameters := MakeResolved {
  ResolvedCenter : FVector;
  ResolvedCameraDistance : Z;
  ResolvedCameraLocation : FVector;
  ResolvedLightColor : FLinearColor;
  ResolvedIntensity : float;
  ResolvedCharacters : list FVector;
  ResolvedObjects : list FVector
}.

Definition ResolveSceneParameters (Panel : FStoryboardPanel) (Random : RandomStream)
    : ResolvedParameters * RandomStream :=
  let '(Offsets, Random') := DrawObjectOffsets (Objects Panel) Random in
  (MakeResolved
     (SceneCenter Panel)
     (CameraDistance (ShotType Panel))
     (CameraLocation Panel)
     (fst (ResolveLighting (Mood Panel) (TimeOfDay Panel)))
     (snd (ResolveLighting (Mood Panel) (TimeOfDay Panel)))
     (map (CharLocation Panel) (LoopIndices (NumCharacters Panel)))
     (map (fun Offset => ObjectLocation Panel (fst Offset) (snd Offset)) Offsets),
   Random').

End Random.

(** ** Sequences *)

(** [FString::Printf(TEXT("Panel_%02d_Sequence"), Panel.Index)] *)
Definition SequenceName (Panel : FStoryboardPanel) : FString :=
  FString_append (TEXT "Panel_")
    (FString_append (Printf_02d (Index Panel)) (TEXT "_Sequence")).

(** [TEXT("/Game/StoryboardSequences/") + SequenceName] *)
Definition PackagePath (Panel : FStoryboardPanel) : FString :=
  FString_append (TEXT "/Game/StoryboardSequences/") (SequenceName Panel).

(** The created asset: its object name and the package it lives in.  The
    playback range written on its movie scene is not part of the model. *)
Record ULevelSequence := MakeSequence {
  ObjectName : FString;
  Package : FString
}.

(** [CreateSequenceForPanel]: the sequence, or null, and the packages saved
    so far. *)
Definition CreateSequenceForPanel (Host : EditorHost) (Panel : FStoryboardPanel)
    (Duration : float) (Saved : list FString) : option ULevelSequence * list FString :=
  if NewObject Host (SequenceName Panel) then
    (Some (MakeSequence (SequenceName Panel) (PackagePath Panel)),
     (Saved ++ [PackagePath Panel])%list)
  else (None, Saved).

(** ** Texture utilities *)

Inductive UTexture2D := Texture2D (Id : positive).

(** <<
    if (!Texture) return false;
    return false;
>> *)
Definition SaveTextureToFile (Texture : option UTexture2D) (FilePath : FString) : bool :=
  match Texture with
  | None => false
  | Some _ => false
  end.

(** [return nullptr;] *)
Definition LoadTextureFromFile (FilePath : FString) : option UTexture2D := None.

End Bridge.

(* ===================================================================== *)
(** * Reference notions the properties are stated with                    *)
(* ===================================================================== *)

Module Reference.
Import Engine Bridge.

(** ** The decision tables, over a notion [Same] of two strings being equal

    Read with [String.eqb] they are the tables under exact equality of
    strings; read with [EqualsIgnoreCase], under equality up to the case of
    ASCII letters. *)

Section Tables.

Variable Same : string -> string -> bool.

(** close: 200, wide: 1000, anything else: 500. *)
Definition DistanceTable (ShotType : string) : Z :=
  if Same ShotType "close" then 200
  else if Same ShotType "wide" then 1000
  else 500.

(** night: 1.0, dawn or dusk: 2.0, anything else: 3.0. *)
Definition BaseTable (TimeOfDay : string) : Z :=
  if Same TimeOfDay "night" then 1
  else if Same TimeOfDay "dawn" || Same TimeOfDay "dusk" then 2
  else 3.

(** night: (0.4, 0.5, 0.7), dawn or dusk: (1.0, 0.6, 0.3), anything else:
    white; in tenths. *)
Definition ColorTable (TimeOfDay : string) : Z * Z * Z :=
  if Same TimeOfDay "night" then (4, 5, 7)
  else if Same TimeOfDay "dawn" || Same TimeOfDay "dusk" then (10, 6, 3)
  else (10, 10, 10).

(** dark or moody: 0.5, bright or cheerful: 1.5, anything else: 1.0; in
    tenths. *)
Definition MultiplierTable (Mood : string) : Z :=
  if Same Mood "dark" || Same Mood "moody" then 5
  else if Same Mood "bright" || Same Mood "cheerful" then 15
  else 10.

(** base(time-of-day) x multiplier(mood), the product taken in [float]. *)
Definition IntensityTable (Mood TimeOfDay : string) : float :=
  FMul (FloatOfZ (BaseTable TimeOfDay)) (FloatLiteral (MultiplierTable Mood) 10).

Definition ColorOfTenths (Tenths : Z * Z * Z) : FLinearColor :=
  let '(r, g, b) := Tenths in
  LinearColor (FloatLiteral r 10) (FloatLiteral g 10) (FloatLiteral b 10).

End Tables.

(** ** Geometry *)

(** The offsets of the characters of a panel, in loop order. *)
Definition CharOffsets (NumCharacters : Z) : list Z :=
  map (CharOffset NumCharacters) (LoopIndices NumCharacters).

(** [Location] lies in the square of half-side 500 around [Center], at the
    height of [Center]. *)
Definition InBoundingSquare (Center Location : FVector) : Prop :=
  -500 <= X Location - X Center <= 500 /\
  -500 <= Y Location - Y Center <= 500 /\
  Z_ Location - Z_ Center = 0.

(** The two placement expressions once more, evaluated with the binary32
    arithmetic of the standard library instead of the integer model. *)
Definition SceneCenterX_binary32 (Index : Z) : float :=
  FMul (FloatOfZ Index) (FloatOfZ 2000).

Definition CharOffset_binary32 (NumCharacters i : Z) : float :=
  FSub (FMul (FloatOfZ i) (FloatOfZ 150))
       (FMul (FloatOfZ (NumCharacters - 1)) (FloatOfZ 75)).

(** The locations once more, component by component in binary64, as the
    [FVector] arithmetic of the engine computes them. *)
Record FVector64 := MakeVector64 { X64 : float; Y64 : float; Z64 : float }.

Definition FVector64_add (A B : FVector64) : FVector64 :=
  MakeVector64 (DAdd (X64 A) (X64 B)) (DAdd (Y64 A) (Y64 B)) (DAdd (Z64 A) (Z64 B)).
Definition FVector64_sub (A B : FVector64) : FVector64 :=
  MakeVector64 (DSub (X64 A) (X64 B)) (DSub (Y64 A) (Y64 B)) (DSub (Z64 A) (Z64 B)).

Definition VectorHolds (v : FVector64) (V : FVector) : Prop :=
  HoldsDouble (X64 v) (X V) /\ HoldsDouble (Y64 v) (Y V) /\ HoldsDouble (Z64 v) (Z_ V).

Definition SceneCenter_binary (Index : Z) : FVector64 :=
  MakeVector64 (FloatToDouble (SceneCenterX_binary32 Index)) (DoubleOfZ 0) (DoubleOfZ 0).
Definition CharLocation_binary (Index NumCharacters i : Z) : FVector64 :=
  FVector64_add (SceneCenter_binary Index)
    (MakeVector64 (DoubleOfZ 0) (FloatToDouble (CharOffset_binary32 NumCharacters i))
                  (DoubleOfZ 0)).
Definition ObjectLocation_binary (Index RandX RandY : Z) : FVector64 :=
  FVector64_add (SceneCenter_binary Index)
    (MakeVector64 (DoubleOfZ RandX) (DoubleOfZ RandY) (DoubleOfZ 0)).
Definition CameraLocation_binary (Index Distance : Z) : FVector64 :=
  FVector64_add (SceneCenter_binary Index)
    (MakeVector64 (FloatToDouble (FNeg (FloatOfZ Distance))) (DoubleOfZ 0) (DoubleOfZ 160)).
Definition CameraDirection_binary (Index Distance : Z) : FVector64 :=
  FVector64_sub (SceneCenter_binary Index) (CameraLocation_binary Index Distance).

(** The largest index and the largest character count for which every
    product of the placement arithmetic is a [float]. *)
Definition MaxExactIndex : Z := 134218.
Definition MaxExactCharacters : Z := 223697.

(** ** Actors the bridge asks for *)

Definition Cylinder (Location : FVector) : AActor :=
  MakeActor (FromObject (TEXT "/Engine/BasicShapes/Cylinder")) Location ZeroRotator
            [TEXT "StoryboardGenerated"].

Definition Cube (Location : FVector) : AActor :=
  MakeActor (FromObject (TEXT "/Engine/BasicShapes/Cube")) Location ZeroRotator
            [TEXT "StoryboardGenerated"].

Definition Camera (Location : FVector) (Rotation : FRotator) (FocalLength : float) : AActor :=
  MakeActor (CineCameraActor (Some FocalLength)) Location Rotation
            [TEXT "StoryboardCamera"].

Definition KeyLight (Intensity : float) (LightColor : FLinearColor) : AActor :=
  MakeActor (PointLight Intensity LightColor) KeyLightLocation ZeroRotator
            [TEXT "StoryboardLight"].

Definition IsCineCamera (Actor : AActor) : bool :=
  match Kind Actor with CineCameraActor _ => true | _ => false end.

Definition IsPointLight (Actor : AActor) : bool :=
  match Kind Actor with PointLight _ _ => true | _ => false end.

Definition IsCube (Actor : AActor) : bool :=
  match Kind Actor with
  | FromObject AssetPath => String.eqb AssetPath "/Engine/BasicShapes/Cube"
  | _ => false
  end.

(** A host on which every request succeeds. *)
Definition Cooperative (Host : EditorHost) : Prop :=
  HasWorld Host = true /\
  (forall AssetPath, LoadAsset Host AssetPath = true) /\
  (forall Class Location Rotation, SpawnActor Host Class Location Rotation = true) /\
  HasCineCameraComponent Host = true.

Definition CooperativeHost : EditorHost :=
  MakeHost true (fun _ => true) (fun _ _ _ => true) true (fun _ => true).

(** What [PlaceActorInScene] needs of the host to place a cube at
    [Location]: the cube asset loads and the spawn there returns an actor. *)
Definition PlacesCube (Host : EditorHost) (Location : FVector) : bool :=
  LoadAsset Host (TEXT "/Engine/BasicShapes/Cube") &&
  SpawnActor Host StaticClass_Object Location ZeroRotator.

(** A host without an editor world. *)
Definition WorldlessHost : EditorHost :=
  MakeHost false (fun _ => true) (fun _ _ _ => true) true (fun _ => true).

(** ** A random generator given by the values it will draw

    The state is the list of the coming raw values; a draw takes the next
    one, brought into the asked range. *)

Definition Tape := list Z.

Definition TapeRandRange (Min Max : Z) (Random : Tape) : Z * Tape :=
  match Random with
  | [] => (Min, [])
  | Raw :: Rest => (Z.max Min (Z.min Max Raw), Rest)
  end.

(** The contract of [FMath::RandRange]: the value drawn lies between the
    two bounds, both included. *)
Definition RandRangeContract {RandomStream : Type}
    (RandRange : Z -> Z -> RandomStream -> Z * RandomStream) : Prop :=
  forall Min Max Random,
    Min <= Max -> Min <= fst (RandRange Min Max Random) <= Max.

(** Decimal digit [d] as a character. *)
Definition DigitChar (d : Z) : ascii := ascii_of_N (Z.to_N (48 + d)).

(** A panel that only fixes the index. *)
Definition PanelAt (Index : Z) : FStoryboardPanel :=
  MakePanel "" Index "" 0 [] "" "".

End Reference.

(* ===================================================================== *)
(** * The scene as a whole, the asset search and the Slate style          *)
(* ===================================================================== *)

Module Census.
Import Engine Bridge.

(** ** Notions for counting and telling apart what a call adds *)

Definition IsCylinder (Actor : AActor) : bool :=
  match Kind Actor with
  | FromObject AssetPath => String.eqb AssetPath "/Engine/BasicShapes/Cylinder"
  | _ => false
  end.

(** The camera actor as [CreateCamera] leaves it when the camera component
    may be missing. *)
Definition CameraOn (Host : EditorHost) (Location : FVector) (Rotation : FRotator)
    (FocalLength : float) : AActor :=
  MakeActor
    (CineCameraActor (if HasCineCameraComponent Host then Some FocalLength else None))
    Location Rotation [TEXT "StoryboardCamera"].

(** The tag the bridge puts on an actor of each kind. *)
Definition TagOfKind (K : ActorKind) : FName :=
  match K with
  | FromObject _ => TEXT "StoryboardGenerated"
  | CineCameraActor _ => TEXT "StoryboardCamera"
  | PointLight _ _ => TEXT "StoryboardLight"
  end.

(** The state of the generator after [n] draws of
    [FMath::RandRange(-500, 500)]. *)
Definition AfterDraws {RandomStream : Type}
    (RandRange : Z -> Z -> RandomStream -> Z * RandomStream)
    (n : nat) (Random : RandomStream) : RandomStream :=
  Nat.iter n (fun R => snd (RandRange (-500) 500 R)) Random.

End Census.

Module Reading.
Import Engine Bridge.

(** What a comparison with a literal sees of a string: the units before
    the terminator, ASCII capitals folded. *)
Definition AsCompared (S : FString) : string := FoldCase (c_str S).

(** [A . B] *)
Definition Dot (A B : FVector) : Z := X A * X B + Y A * Y B + Z_ A * Z_ B.

(** [Place] lies on the side of [Eye] that [Direction] points to. *)
Definition Ahead (Eye Direction Place : FVector) : Prop :=
  0 < Dot (MakeVector (X Place - X Eye) (Y Place - Y Eye) (Z_ Place - Z_ Eye)) Direction.

End Reading.

Module AssetRegistry.
Import Engine.

(** ** The asset search of the bridge ([FindAssetsMatching]) *)

(** What the bridge reads of an [FAssetData]: [AssetName.ToString()] and
    [GetSoftObjectPath().ToString()]. *)
Record FAssetData := MakeAssetData {
  AssetName : FString;
  SoftObjectPath : FString
}.

Section Search.

(** [Name.Contains(SearchTerm)] of [FString], with the engine's default
    search options. *)
Variable Contains : FString -> FString -> bool.

(** One turn of [for (const FAssetData& Asset : AssetData)]. *)
Definition Visit (SearchTerm : FString) (Results : list FString)
    (Asset : FAssetData) : list FString :=
  if Contains (AssetName Asset) SearchTerm
  then (Results ++ [SoftObjectPath Asset])%list
  else Results.

(** [FindAssetsMatching], on the assets [GetAllAssets] hands over. *)
Definition FindAssetsMatching (AssetData : list FAssetData) (SearchTerm : FString)
    : list FString :=
  fold_left (Visit SearchTerm) AssetData [].

End Search.

End AssetRegistry.

Module Style.
Import Engine.

(** ** Slate styles ([StoryboardTo3DStyle.cpp])

    A call that trips a [check] of the engine, or reads through an empty
    shared pointer, stops the editor: such a call has no result. *)

Definition Fallible (A : Type) : Type := option A.

Definition Then {A B : Type} (First : Fallible A) (Next : A -> Fallible B)
    : Fallible B :=
  match First with
  | Some a => Next a
  | None => None
  end.

(** [FName] compares without regard to case. *)
Definition FName_eq (A B : FName) : bool := EqualsIgnoreCase A B.

(** [IMAGE_BRUSH_SVG(RelativePath, Size)]: the vector image at
    [RootToContentDir(RelativePath, ".svg")], that is the content root of
    the style set, then [RelativePath], then the extension. *)
Record FSlateBrush := MakeBrush {
  BrushRoot : FString * FString;   (* the content root: a directory and a leaf *)
  RelativePath : FString;
  Extension : FString;
  ImageSize : Z * Z
}.

Record FSlateStyleSet := MakeStyleSet {
  StyleSetName : FName;
  ContentRoot : FString * FString; (* [BaseDir / TEXT("Resources")] *)
  BrushResources : list (FName * FSlateBrush)
}.

(** The static [StyleInstance], the styles [FSlateStyleRegistry] knows, and
    how often the renderer reloaded its textures. *)
Record Slate := MakeSlate {
  StyleInstance : option FSlateStyleSet;
  SlateStyleRepository : list FSlateStyleSet;
  TextureReloads : nat
}.

(** What the host answers: the base directory of a plugin, when the plugin
    manager finds it, and whether the Slate application is initialized. *)
Record SlateHost := MakeSlateHost {
  FindPlugin : FString -> option FString;
  SlateInitialized : bool
}.

(** [FSlateStyleRegistry::FindSlateStyle] *)
Definition FindSlateStyle (Name : FName) (Repository : list FSlateStyleSet)
    : option FSlateStyleSet :=
  find (fun Style => FName_eq (StyleSetName Style) Name) Repository.

(** [FSlateStyleRegistry::RegisterSlateStyle]: the engine checks that no
    style of that name is registered. *)
Definition RegisterSlateStyle (Style : FSlateStyleSet)
    (Repository : list FSlateStyleSet) : Fallible (list FSlateStyleSet) :=
  match FindSlateStyle (StyleSetName Style) Repository with
  | Some _ => None
  | None => Some (Repository ++ [Style])%list
  end.

(** [FSlateStyleRegistry::UnRegisterSlateStyle]: removes the name. *)
Definition UnRegisterSlateStyle (Style : FSlateStyleSet)
    (Repository : list FSlateStyleSet) : list FSlateStyleSet :=
  filter (fun Other => negb (FName_eq (StyleSetName Other) (StyleSetName Style)))
         Repository.

(** [GetStyleSetName] *)
Definition GetStyleSetName : FName := TEXT "StoryboardTo3DStyle".

Definition Icon16x16 : Z * Z := (16, 16).
Definition Icon20x20 : Z * Z := (20, 20).

(** [Create]: reads through the pointer [FindPlugin] returns. *)
Definition Create (Host : SlateHost) : Fallible FSlateStyleSet :=
  match FindPlugin Host (TEXT "StoryboardTo3D") with
  | None => None
  | Some BaseDir =>
      let Root := (BaseDir, TEXT "Resources") in
      Some (MakeStyleSet (TEXT "StoryboardTo3DStyle") Root
              [(TEXT "StoryboardTo3D.OpenPluginWindow",
                MakeBrush Root (TEXT "PlaceholderButtonIcon") (TEXT ".svg") Icon20x20)])
  end.

(** [Initialize]: when [StyleInstance] is not valid, it is set to what
    [Create] returns and the style it points to is registered. *)
Definition Initialize (Host : SlateHost) (S : Slate) : Fallible Slate :=
  match StyleInstance S with
  | Some _ => Some S
  | None =>
      Then (Create Host) (fun Style =>
      Then (RegisterSlateStyle Style (SlateStyleRepository S)) (fun Repository =>
      Some (MakeSlate (Some Style) Repository (TextureReloads S))))
  end.

(** [Shutdown]: the style [StyleInstance] points to is unregistered, then
    [ensure(StyleInstance.IsUnique())], which reports and goes on, then
    [StyleInstance.Reset()].  There is no test of the pointer before it is
    read through. *)
Definition Shutdown (S : Slate) : Fallible Slate :=
  match StyleInstance S with
  | None => None
  | Some Style =>
      Some (MakeSlate None (UnRegisterSlateStyle Style (SlateStyleRepository S))
                      (TextureReloads S))
  end.

(** [return *StyleInstance;] *)
Definition Get (S : Slate) : Fallible FSlateStyleSet := StyleInstance S.

(** [ReloadTextures] *)
Definition ReloadTextures (Host : SlateHost) (S : Slate) : Slate :=
  if SlateInitialized Host
  then MakeSlate (StyleInstance S) (SlateStyleRepository S) (Datatypes.S (TextureReloads S))
  else S.

(** A host that finds the plugin under [BaseDir]. *)
Definition HostAt (BaseDir : FString) : SlateHost :=
  MakeSlateHost (fun _ => Some BaseDir) true.

End Style.

(* ===================================================================== *)
(** * Facts about the engine types                                        *)
(* ===================================================================== *)

Import Engine Bridge Reference.

(** ** Rounding *)

Section RoundingFacts.

Variable prec : Z.
Hypothesis prec_pos : 0 < prec.

(** The exponent of the last kept bit is at most [k] below [2 ^ (prec + k)]. *)
Lemma ulp_exponent_le (a k : Z) :
  0 <= k -> 0 <= a < 2 ^ (prec + k) -> 0 <= Z.max 0 (Z.log2 a + 1 - prec) <= k.
Proof.
  intros Hk [Ha0 Ha]. split; [lia|].
  destruct (Z.eq_dec a 0) as [->|Hne].
  - rewrite Z.log2_nonpos by lia. lia.
  - assert (Z.log2 a < prec + k) by (apply Z.log2_lt_pow2; lia). lia.
Qed.

Lemma RoundNearestEven_multiple (z k : Z) :
  0 <= k -> Z.abs z < 2 ^ (prec + k) -> (2 ^ k | z) ->
  RoundNearestEven prec z = z.
Proof.
  intros Hk Hlt Hdiv. unfold RoundNearestEven.
  remember (Z.abs z) as a eqn:Ea.
  remember (Z.max 0 (Z.log2 a + 1 - prec)) as e eqn:Ee.
  assert (He : 0 <= e <= k) by (subst e; apply ulp_exponent_le; lia).
  assert (Hae : (2 ^ e | a)).
  { apply Z.divide_trans with (2 ^ k).
    - exists (2 ^ (k - e)). rewrite <- Z.pow_add_r by lia. f_equal; lia.
    - subst a. apply Z.divide_abs_r. exact Hdiv. }
  destruct Hae as [q Hq].
  assert (Hpow : 0 < 2 ^ e) by (apply Z.pow_pos_nonneg; lia).
  rewrite Z.shiftr_div_pow2 by lia.
  replace (a / 2 ^ e) with q by (rewrite Hq, Z.div_mul; lia).
  rewrite !Z.shiftl_mul_pow2 by lia.
  replace (2 * (a - q * 2 ^ e) ?= 2 ^ e) with Lt
    by (symmetry; apply Z.compare_lt_iff; lia).
  rewrite <- Hq, Ea, Z.mul_comm. apply Z.abs_sgn.
Qed.

Lemma RoundNearestEven_small (z : Z) :
  Z.abs z < 2 ^ prec -> RoundNearestEven prec z = z.
Proof.
  intros H. apply (RoundNearestEven_multiple z 0); try lia.
  - now rewrite Z.add_0_r.
  - exists z. simpl. lia.
Qed.

Lemma RoundNearestEven_bound (z : Z) :
  Z.abs (RoundNearestEven prec z) <= 2 * Z.abs z.
Proof.
  unfold RoundNearestEven.
  remember (Z.abs z) as a eqn:Ea.
  remember (Z.max 0 (Z.log2 a + 1 - prec)) as e eqn:Ee.
  assert (Ha : 0 <= a) by lia.
  assert (He : 0 <= e) by lia.
  assert (Hpow : 0 < 2 ^ e) by (apply Z.pow_pos_nonneg; lia).
  rewrite Z.shiftr_div_pow2 by lia.
  rewrite !Z.shiftl_mul_pow2 by lia.
  remember (a / 2 ^ e) as q eqn:Eq.
  assert (Hq : q * 2 ^ e <= a < q * 2 ^ e + 2 ^ e).
  { pose proof (Z.mod_pos_bound a (2 ^ e) Hpow).
    pose proof (Z.div_mod a (2 ^ e) ltac:(lia)). subst q. lia. }
  assert (Hq0 : 0 <= q) by (subst q; apply Z.div_pos; lia).
  assert (Hup : (q + 1) * 2 ^ e = q * 2 ^ e + 2 ^ e) by ring.
  assert (Hqe : 0 <= q * 2 ^ e) by (apply Z.mul_nonneg_nonneg; lia).
  rewrite Z.abs_mul.
  assert (Hs : Z.abs (Z.sgn z) = 1 \/ Z.abs (Z.sgn z) = 0 /\ a = 0) by lia.
  destruct (Z.eq_dec e 0) as [E0|E0].
  - rewrite E0 in *. change (2 ^ 0) with 1 in *.
    replace (2 * (a - q * 1) ?= 1) with Lt
      by (symmetry; apply Z.compare_lt_iff; lia).
    rewrite (Z.abs_eq (q * 1)) by lia. destruct Hs as [->|[-> ?]]; lia.
  - assert (Hea : 2 ^ e <= a).
    { assert (0 < a) by (destruct (Z.eq_dec a 0) as [E|E];
        [rewrite Ee, E, Z.log2_nonpos in E0; lia | lia]).
      pose proof (Z.log2_spec a ltac:(lia)) as [Hl _].
      apply Z.le_trans with (2 ^ Z.log2 a); [|exact Hl].
      apply Z.pow_le_mono_r; lia. }
    assert (Hcase : forall q', q' = q \/ q' = q + 1 ->
              Z.abs (Z.sgn z) * Z.abs (q' * 2 ^ e) <= 2 * a).
    { intros q' [->| ->].
      - rewrite (Z.abs_eq (q * 2 ^ e)) by lia. destruct Hs as [->|[-> ?]]; lia.
      - rewrite Hup, (Z.abs_eq (q * 2 ^ e + 2 ^ e)) by lia. destruct Hs as [->|[-> ?]]; lia. }
    destruct (2 * (a - q * 2 ^ e) ?= 2 ^ e); [destruct (Z.even q)| |];
      apply Hcase; auto.
Qed.

End RoundingFacts.

(** ** The integer model is the IEEE-754 arithmetic

    The lemmas below follow [SpecFloat]: shifting with [shr], the rounding
    decision, the renormalisation, and from there each operation. *)

(** ** Shifting a significand right *)

Lemma digits2_pos_log2 (M : positive) :
  Zpos (digits2_pos M) = Z.log2 (Zpos M) + 1.
Proof.
  induction M as [M IH|M IH|]; [| |reflexivity].
  - cbn [digits2_pos]. rewrite Pos2Z.inj_succ, IH.
    change (Zpos M~1) with (2 * Zpos M + 1).
    rewrite Z.log2_succ_double by lia. lia.
  - cbn [digits2_pos]. rewrite Pos2Z.inj_succ, IH.
    change (Zpos M~0) with (2 * Zpos M).
    rewrite Z.log2_double by lia. lia.
Qed.

Lemma iter_pos_nat {A : Type} (f : A -> A) (p : positive) (x : A) :
  iter_pos f p x = Nat.iter (Pos.to_nat p) f x.
Proof.
  revert x. induction p as [p IH|p IH|]; intros x; cbn [iter_pos].
  - rewrite !IH, Pos2Nat.inj_xI, <- Nat.iter_add, <- Nat.iter_succ_r.
    f_equal. lia.
  - rewrite !IH, Pos2Nat.inj_xO, <- Nat.iter_add. f_equal. lia.
  - reflexivity.
Qed.

Lemma shr_1_nonneg (m : Z) (r s : bool) :
  0 <= m ->
  shr_1 (Build_shr_record m r s) = Build_shr_record (m / 2) (Z.odd m) (r || s).
Proof.
  intros H. destruct m as [|p|p]; [reflexivity| |lia].
  destruct p as [p|p|]; cbn [shr_1].
  - f_equal. change (Zpos p~1) with (2 * Zpos p + 1).
    symmetry. rewrite Z.add_comm, Z.mul_comm, Z.div_add by lia. reflexivity.
  - f_equal. change (Zpos p~0) with (2 * Zpos p).
    symmetry. rewrite Z.mul_comm, Z.div_mul by lia. reflexivity.
  - reflexivity.
Qed.

(** After [k + 1] steps: the quotient, the last bit shifted out, and whether
    anything was shifted out before it. *)
Lemma shr_iter (m : Z) (k : nat) :
  0 <= m ->
  Nat.iter (S k) shr_1 (Build_shr_record m false false) =
    Build_shr_record (m / 2 ^ (Z.of_nat k + 1))
                     (Z.testbit m (Z.of_nat k))
                     (negb (m mod 2 ^ Z.of_nat k =? 0)).
Proof.
  intros H. induction k as [|k IH].
  - cbn [Nat.iter]. rewrite shr_1_nonneg by assumption.
    change (2 ^ (Z.of_nat 0 + 1)) with 2. change (Z.of_nat 0) with 0.
    rewrite Z.bit0_odd. change (2 ^ 0) with 1. rewrite Z.mod_1_r. reflexivity.
  - rewrite Nat.iter_succ, IH.
    assert (Hp : 0 < 2 ^ (Z.of_nat k + 1)) by (apply Z.pow_pos_nonneg; lia).
    rewrite shr_1_nonneg by (apply Z.div_pos; lia).
    rewrite Nat2Z.inj_succ. unfold Z.succ.
    f_equal.
    + rewrite Z.div_div by lia.
      rewrite (Z.pow_add_r 2 (Z.of_nat k + 1) 1) by lia. reflexivity.
    + rewrite Z.testbit_odd, Z.shiftr_div_pow2 by lia. reflexivity.
    + assert (Hk : 0 < 2 ^ Z.of_nat k) by (apply Z.pow_pos_nonneg; lia).
      rewrite (Z.pow_add_r 2 (Z.of_nat k) 1) by lia. change (2 ^ 1) with 2.
      rewrite Z.rem_mul_r by lia.
      rewrite Z.testbit_odd, Z.shiftr_div_pow2 by lia.
      pose proof (Zmod_odd (m / 2 ^ Z.of_nat k)) as Hodd.
      pose proof (Z.mod_pos_bound m (2 ^ Z.of_nat k) Hk).
      destruct (Z.odd (m / 2 ^ Z.of_nat k)); rewrite Hodd;
      destruct (Z.eqb_spec (m mod 2 ^ Z.of_nat k) 0) as [E2|E2];
      match goal with |- context [?a =? 0] => destruct (Z.eqb_spec a 0) as [E3|E3] end;
      simpl; try reflexivity; exfalso; nia.
Qed.

Lemma shr_pos (M : positive) (E : Z) (p : positive) :
  shr (Build_shr_record (Zpos M) false false) E (Zpos p) =
    (Build_shr_record (Zpos M / 2 ^ Zpos p)
                      (Z.testbit (Zpos M) (Zpos p - 1))
                      (negb (Zpos M mod 2 ^ (Zpos p - 1) =? 0)),
     E + Zpos p).
Proof.
  unfold shr. rewrite iter_pos_nat.
  destruct (Pos2Nat.is_succ p) as [k Hk]. rewrite Hk, shr_iter by lia.
  pose proof (positive_nat_Z p) as Hz. rewrite Hk, Nat2Z.inj_succ in Hz.
  rewrite <- Hz.
  replace (Z.succ (Z.of_nat k) - 1) with (Z.of_nat k) by lia. reflexivity.
Qed.

Lemma RoundNearestEven_shift (prec z : Z) :
  let e := Z.max 0 (Z.log2 (Z.abs z) + 1 - prec) in
  RoundNearestEven prec z = Z.sgn z * (RoundShift (Z.abs z) e * 2 ^ e).
Proof.
  cbv zeta. unfold RoundNearestEven, RoundShift.
  set (a := Z.abs z). set (e := Z.max 0 (Z.log2 a + 1 - prec)).
  assert (He : 0 <= e) by (subst e; lia).
  assert (Hp : 0 < 2 ^ e) by (apply Z.pow_pos_nonneg; lia).
  rewrite Z.shiftr_div_pow2, !Z.shiftl_mul_pow2 by lia.
  replace (a - a / 2 ^ e * 2 ^ e) with (a mod 2 ^ e)
    by (pose proof (Z.div_mod a (2 ^ e) ltac:(lia)); lia).
  reflexivity.
Qed.

(** The rounding decision read off the two bits kept by [shr]. *)
Lemma round_nearest_even_shift (M p : Z) :
  0 <= M -> 0 < p ->
  round_nearest_even (M / 2 ^ p)
    (loc_of_shr_record
       (Build_shr_record (M / 2 ^ p) (Z.testbit M (p - 1))
                         (negb (M mod 2 ^ (p - 1) =? 0)))) =
  RoundShift M p.
Proof.
  intros HM Hp. unfold RoundShift.
  assert (Hh : 0 < 2 ^ (p - 1)) by (apply Z.pow_pos_nonneg; lia).
  assert (E2 : 2 ^ p = 2 ^ (p - 1) * 2).
  { replace p with (p - 1 + 1) at 1 by lia.
    rewrite (Z.pow_add_r 2 (p - 1) 1) by lia. reflexivity. }
  assert (Hmod : M mod 2 ^ p =
                 M mod 2 ^ (p - 1) + 2 ^ (p - 1) * ((M / 2 ^ (p - 1)) mod 2))
    by (rewrite E2, Z.rem_mul_r by lia; reflexivity).
  rewrite Hmod, Z.testbit_odd, Z.shiftr_div_pow2 by lia.
  pose proof (Zmod_odd (M / 2 ^ (p - 1))) as Hodd.
  pose proof (Z.mod_pos_bound M (2 ^ (p - 1)) Hh) as Hb.
  unfold round_nearest_even.
  destruct (Z.odd (M / 2 ^ (p - 1))); rewrite Hodd;
  destruct (Z.eqb_spec (M mod 2 ^ (p - 1)) 0) as [E0|E0]; cbn [negb loc_of_shr_record].
  - replace (2 * (M mod 2 ^ (p - 1) + 2 ^ (p - 1) * 1) ?= 2 ^ p) with Eq
      by (symmetry; apply Z.compare_eq_iff; lia).
    reflexivity.
  - replace (2 * (M mod 2 ^ (p - 1) + 2 ^ (p - 1) * 1) ?= 2 ^ p) with Gt
      by (symmetry; apply Z.compare_gt_iff; lia).
    reflexivity.
  - replace (2 * (M mod 2 ^ (p - 1) + 2 ^ (p - 1) * 0) ?= 2 ^ p) with Lt
      by (symmetry; apply Z.compare_lt_iff; lia).
    reflexivity.
  - replace (2 * (M mod 2 ^ (p - 1) + 2 ^ (p - 1) * 0) ?= 2 ^ p) with Lt
      by (symmetry; apply Z.compare_lt_iff; lia).
    reflexivity.
Qed.

Lemma Scaled_cases (m e a : Z) :
  Scaled m e a <-> (0 <= e /\ a = m * 2 ^ e) \/ (e < 0 /\ m = a * 2 ^ (- e)).
Proof.
  split.
  - intros (k & Hk & Hek & H).
    assert (Hk2 : 0 < 2 ^ k) by (apply Z.pow_pos_nonneg; lia).
    assert (Hek2 : 0 < 2 ^ (e + k)) by (apply Z.pow_pos_nonneg; lia).
    destruct (Z.le_gt_cases 0 e) as [He|He]; [left|right]; (split; [lia|]).
    + rewrite Z.pow_add_r in H by lia. nia.
    + replace k with (- e + (e + k)) in H at 2 by lia.
      rewrite (Z.pow_add_r 2 (- e)) in H by lia. nia.
  - intros [[He ->]|[He ->]].
    + exists 0. rewrite Z.add_0_r. change (2 ^ 0) with 1. split; [lia|split; lia].
    + exists (- e). replace (e + - e) with 0 by lia. change (2 ^ 0) with 1.
      split; [lia|split; lia].
Qed.

Lemma Scaled_log2 (m e a : Z) :
  0 < m -> Scaled m e a -> 0 < a /\ Z.log2 a = Z.log2 m + e.
Proof.
  intros Hm H. apply Scaled_cases in H. destruct H as [[He ->]|[He ->]].
  - assert (0 < 2 ^ e) by (apply Z.pow_pos_nonneg; lia).
    split; [nia|]. rewrite Z.log2_mul_pow2 by lia. lia.
  - assert (Hp : 0 < 2 ^ (- e)) by (apply Z.pow_pos_nonneg; lia).
    assert (Ha : 0 < a) by nia.
    split; [exact Ha|]. rewrite Z.log2_mul_pow2 by lia. lia.
Qed.

Lemma RoundShift_range (M n : Z) :
  0 <= M -> 0 <= n -> M / 2 ^ n <= RoundShift M n <= M / 2 ^ n + 1.
Proof.
  intros HM Hn. unfold RoundShift.
  destruct (2 * (M mod 2 ^ n) ?= 2 ^ n); [destruct (Z.even (M / 2 ^ n))| |]; lia.
Qed.

Lemma RoundShift_exact (M n : Z) :
  0 <= n -> M mod 2 ^ n = 0 -> RoundShift M n = M / 2 ^ n.
Proof.
  intros Hn H. unfold RoundShift. rewrite H.
  assert (0 < 2 ^ n) by (apply Z.pow_pos_nonneg; lia).
  replace (2 * 0 ?= 2 ^ n) with Lt by (symmetry; apply Z.compare_lt_iff; lia).
  reflexivity.
Qed.

(** Rounding sees the value, not the way it is written. *)
Lemma RoundShift_scale (M V n j : Z) :
  0 <= n -> 0 <= j -> V = M * 2 ^ j ->
  RoundShift V (n + j) = RoundShift M n.
Proof.
  intros Hn Hj ->. unfold RoundShift.
  assert (Hpn : 0 < 2 ^ n) by (apply Z.pow_pos_nonneg; lia).
  assert (Hpj : 0 < 2 ^ j) by (apply Z.pow_pos_nonneg; lia).
  rewrite Z.pow_add_r by lia.
  rewrite Z.div_mul_cancel_r by lia.
  rewrite Z.mul_mod_distr_r by lia.
  assert (C : (2 * (M mod 2 ^ n * 2 ^ j) ?= 2 ^ n * 2 ^ j) = (2 * (M mod 2 ^ n) ?= 2 ^ n)).
  { destruct (Z.compare_spec (2 * (M mod 2 ^ n)) (2 ^ n));
    destruct (Z.compare_spec (2 * (M mod 2 ^ n * 2 ^ j)) (2 ^ n * 2 ^ j));
      try reflexivity; exfalso; nia. }
  rewrite C. reflexivity.
Qed.

Lemma RoundNearestEven_opp (prec z : Z) :
  RoundNearestEven prec (- z) = - RoundNearestEven prec z.
Proof.
  unfold RoundNearestEven. rewrite Z.abs_opp, Z.sgn_opp. lia.
Qed.

Lemma RoundNearestEven_0 (prec : Z) : RoundNearestEven prec 0 = 0.
Proof. unfold RoundNearestEven. rewrite Z.sgn_0. lia. Qed.

Lemma Scaled_opp (m e a : Z) : Scaled m e a -> Scaled (- m) e (- a).
Proof. intros (k & Hk & Hek & H). exists k. repeat split; try lia. Qed.

Lemma Scaled_lift (m e a k : Z) :
  0 <= k -> 0 <= e + k -> m * 2 ^ (e + k) = a * 2 ^ k ->
  forall j, 0 <= j -> m * 2 ^ (e + (k + j)) = a * 2 ^ (k + j).
Proof.
  intros Hk Hek H j Hj.
  replace (e + (k + j)) with (e + k + j) by lia.
  rewrite (Z.pow_add_r 2 (e + k) j), (Z.pow_add_r 2 k j) by lia.
  rewrite !Z.mul_assoc, H. reflexivity.
Qed.

Lemma Scaled_sub (m1 m2 e a1 a2 : Z) :
  Scaled m1 e a1 -> Scaled m2 e a2 -> Scaled (m1 - m2) e (a1 - a2).
Proof.
  intros (k1 & Hk1 & He1 & H1) (k2 & Hk2 & He2 & H2).
  exists (k1 + k2). split; [lia|split; [lia|]].
  pose proof (Scaled_lift m1 e a1 k1 Hk1 He1 H1 k2 Hk2) as L1.
  pose proof (Scaled_lift m2 e a2 k2 Hk2 He2 H2 k1 Hk1) as L2.
  rewrite (Z.add_comm k2 k1) in L2.
  rewrite !Z.mul_sub_distr_r, L1, L2. reflexivity.
Qed.

Lemma Scaled_mul (m1 m2 e1 e2 a1 a2 : Z) :
  Scaled m1 e1 a1 -> Scaled m2 e2 a2 -> Scaled (m1 * m2) (e1 + e2) (a1 * a2).
Proof.
  intros (k1 & Hk1 & He1 & H1) (k2 & Hk2 & He2 & H2).
  exists (k1 + k2). split; [lia|split; [lia|]].
  replace (e1 + e2 + (k1 + k2)) with ((e1 + k1) + (e2 + k2)) by lia.
  rewrite (Z.pow_add_r 2 (e1 + k1) (e2 + k2)), (Z.pow_add_r 2 k1 k2) by lia.
  replace (m1 * m2 * (2 ^ (e1 + k1) * 2 ^ (e2 + k2)))
    with ((m1 * 2 ^ (e1 + k1)) * (m2 * 2 ^ (e2 + k2))) by ring.
  rewrite H1, H2. ring.
Qed.

(** Writing the same value at a lower exponent. *)
Lemma Scaled_align (m e e' a : Z) :
  e' <= e -> Scaled m e a -> Scaled (m * 2 ^ (e - e')) e' a.
Proof.
  intros Hle (k & Hk & Hek & H).
  exists (k + (e - e')). split; [lia|split; [lia|]].
  replace (e' + (k + (e - e'))) with (e + k) by lia.
  rewrite (Z.pow_add_r 2 k (e - e')) by lia.
  replace (m * 2 ^ (e - e') * 2 ^ (e + k)) with (m * 2 ^ (e + k) * 2 ^ (e - e')) by ring.
  rewrite H. ring.
Qed.

Lemma Scaled_zero (e a : Z) : Scaled 0 e a -> a = 0.
Proof.
  intros (k & Hk & Hek & H).
  assert (0 < 2 ^ k) by (apply Z.pow_pos_nonneg; lia). nia.
Qed.

Lemma Scaled_sign (m e a : Z) : Scaled m e a -> Z.sgn m = Z.sgn a.
Proof.
  intros (k & Hk & Hek & H).
  assert (0 < 2 ^ k) by (apply Z.pow_pos_nonneg; lia).
  assert (0 < 2 ^ (e + k)) by (apply Z.pow_pos_nonneg; lia). nia.
Qed.

Lemma Scaled_abs (m e a : Z) : Scaled m e a -> Scaled (Z.abs m) e (Z.abs a).
Proof.
  intros H. pose proof (Scaled_sign _ _ _ H) as Hs.
  destruct (Z.abs_spec m) as [[? ->]|[? ->]];
  destruct (Z.abs_spec a) as [[? ->]|[? ->]]; try assumption; try lia.
  now apply Scaled_opp.
Qed.

Lemma iter_xO (m d : positive) :
  Zpos (Pos.iter xO m d) = Zpos m * 2 ^ Zpos d.
Proof.
  rewrite <- Z.shiftl_mul_pow2 by lia. cbn [Z.shiftl].
  apply (Pos.iter_swap_gen _ _ Zpos xO (Z.mul 2)). reflexivity.
Qed.

Section Conformance.

Variable prec emax : Z.
Hypothesis prec_pos : 0 < prec.
Hypothesis prec_lt_emax : prec < emax.

Lemma fexp_normal (e : Z) : 1 <= e -> fexp prec emax e = e - prec.
Proof. unfold fexp, emin. lia. Qed.

Lemma digits_bounds (M : positive) :
  2 ^ (Zpos (digits2_pos M) - 1) <= Zpos M < 2 ^ Zpos (digits2_pos M).
Proof.
  rewrite digits2_pos_log2.
  pose proof (Z.log2_spec (Zpos M) ltac:(lia)) as H.
  replace (Z.log2 (Zpos M) + 1 - 1) with (Z.log2 (Zpos M)) by lia.
  unfold Z.succ in H. exact H.
Qed.

Lemma digits_unique (M : positive) (d : Z) :
  2 ^ (d - 1) <= Zpos M < 2 ^ d -> 0 < d -> Zpos (digits2_pos M) = d.
Proof.
  intros H Hd. rewrite digits2_pos_log2.
  rewrite (Z.log2_unique (Zpos M) (d - 1)); [lia|lia|].
  replace (Z.succ (d - 1)) with d by lia. exact H.
Qed.

(** The second normalisation of [binary_round_aux]: a significand of
    [prec] bits is kept, [2 ^ prec] is halved. *)
Lemma binary_round_aux_finish (s : bool) (Q e : Z) :
  2 ^ (prec - 1) <= Q <= 2 ^ prec -> 1 <= prec + e -> e + 1 <= emax - prec ->
  exists m' e',
    (let '(mrs, e'') := shr_fexp prec emax Q e loc_Exact in
     match shr_m mrs with
     | Z0 => S754_zero s
     | Zpos m => if e'' <=? emax - prec then S754_finite s m e'' else S754_infinity s
     | Zneg _ => S754_nan
     end) = S754_finite s m' e' /\
    Zpos (digits2_pos m') = prec /\ e' <= emax - prec /\
    0 <= e' - e /\ Zpos m' * 2 ^ (e' - e) = Q.
Proof.
  intros HQ He Hmax.
  assert (Hlow : 0 < 2 ^ (prec - 1)) by (apply Z.pow_pos_nonneg; lia).
  assert (Hpow : 2 ^ prec = 2 * 2 ^ (prec - 1)).
  { replace prec with (prec - 1 + 1) at 1 by lia.
    rewrite (Z.pow_add_r 2 (prec - 1) 1) by lia. change (2 ^ 1) with 2. lia. }
  destruct Q as [|Q|Q]; [lia| |lia].
  unfold shr_fexp. cbn [Zdigits2 shr_record_of_loc].
  destruct (Z.eq_dec (Zpos Q) (2 ^ prec)) as [Etop|Etop].
  - assert (D : Zpos (digits2_pos Q) = prec + 1).
    { apply digits_unique; [|lia]. replace (prec + 1 - 1) with prec by lia.
      rewrite Etop. split; [lia|]. rewrite Z.pow_add_r by lia. change (2 ^ 1) with 2. lia. }
    rewrite D, fexp_normal by lia.
    replace (prec + 1 + e - prec - e) with 1 by lia.
    rewrite (shr_pos Q e 1). cbn [shr_m].
    change (2 ^ Zpos 1) with 2. rewrite Etop, Hpow, Z.mul_comm, Z.div_mul by lia.
    destruct (2 ^ (prec - 1)) as [|m|m] eqn:Em; [lia| |lia].
    exists m, (e + 1). replace (e + 1 <=? emax - prec) with true
      by (symmetry; apply Z.leb_le; lia).
    split; [reflexivity|]. split; [|split; [lia|split; [lia|]]].
    + apply digits_unique; [|lia]. rewrite <- Em. split; [lia|]. lia.
    + replace (e + 1 - e) with 1 by lia. change (2 ^ 1) with 2. lia.
  - assert (D : Zpos (digits2_pos Q) = prec) by (apply digits_unique; lia).
    rewrite D, fexp_normal by lia.
    replace (prec + e - prec - e) with 0 by lia. cbn [shr shr_m].
    exists Q, e. replace (e <=? emax - prec) with true
      by (symmetry; apply Z.leb_le; lia).
    split; [reflexivity|]. split; [exact D|]. split; [lia|]. split; [lia|].
    replace (e - e) with 0 by lia. change (2 ^ 0) with 1. lia.
Qed.

Lemma Scaled_renorm (Q e V m' e' : Z) :
  Scaled Q e V -> 0 <= e' - e -> m' * 2 ^ (e' - e) = Q -> Scaled m' e' V.
Proof.
  intros (k & Hk & Hek & H) Hge <-. exists k. split; [lia|split; [lia|]].
  rewrite <- H, <- Z.mul_assoc, <- Z.pow_add_r by lia. do 2 f_equal. lia.
Qed.

Lemma Holds_finite (s : bool) (m : positive) (e R : Z) :
  Zpos (digits2_pos m) = prec -> e <= emax - prec -> Scaled (Zpos m) e R ->
  Holds prec emax (S754_finite s m e) (cond_Zopp s R).
Proof.
  intros D He HS. destruct (Scaled_log2 _ _ _ (Pos2Z.is_pos m) HS) as [HR _].
  cbn [Holds]. repeat split; try assumption.
  - destruct s; simpl; lia.
  - destruct s; simpl; symmetry; [apply Z.ltb_lt|apply Z.ltb_ge]; lia.
  - replace (Z.abs (cond_Zopp s R)) with R by (destruct s; simpl; lia). exact HS.
Qed.

(** A value written with at most [prec] bits is its own rounding. *)
Lemma Scaled_representable (m : positive) (e V : Z) :
  Zpos (digits2_pos m) <= prec -> Scaled (Zpos m) e V ->
  RoundNearestEven prec V = V.
Proof.
  intros D HS. pose proof (digits_bounds m) as [_ HB].
  assert (HB' : Zpos m < 2 ^ prec)
    by (eapply Z.lt_le_trans; [exact HB|apply Z.pow_le_mono_r; lia]).
  destruct (Scaled_log2 _ _ _ (Pos2Z.is_pos m) HS) as [HV _].
  apply Scaled_cases in HS. destruct HS as [[He ->]|[He HM]].
  - assert (Hp : 0 < 2 ^ e) by (apply Z.pow_pos_nonneg; lia).
    apply (RoundNearestEven_multiple prec prec_pos _ e); [lia| |].
    + rewrite Z.abs_eq by lia. rewrite Z.pow_add_r by lia. nia.
    + exists (Zpos m). reflexivity.
  - assert (Hp : 0 < 2 ^ (- e)) by (apply Z.pow_pos_nonneg; lia).
    apply (RoundNearestEven_small prec prec_pos). rewrite Z.abs_eq by lia. nia.
Qed.

(** Rounding [V], written as [M] at exponent [E] with at least [prec] bits:
    the result holds the integer rounding of [V]. *)
Lemma binary_round_aux_holds (s : bool) (M : positive) (E V : Z) :
  Scaled (Zpos M) E V -> prec <= Zpos (digits2_pos M) -> V < 2 ^ (emax - 1) ->
  Holds prec emax (binary_round_aux prec emax s (Zpos M) E loc_Exact)
        (cond_Zopp s (RoundNearestEven prec V)).
Proof.
  intros HS Hd HV.
  destruct (Scaled_log2 _ _ _ (Pos2Z.is_pos M) HS) as [HVpos Hlog].
  pose proof (digits2_pos_log2 M) as HD.
  pose proof (digits_bounds M) as HB.
  pose proof (Z.log2_nonneg V) as HVlog.
  assert (HVmax : Z.log2 V < emax - 1) by (apply Z.log2_lt_pow2; lia).
  remember (Zpos (digits2_pos M)) as d eqn:Ed.
  unfold binary_round_aux. unfold shr_fexp at 1.
  cbn [Zdigits2 shr_record_of_loc]. rewrite <- Ed, fexp_normal by lia.
  replace (d + E - prec - E) with (d - prec) by lia.
  destruct (d - prec) as [|p|p] eqn:En; [| |lia].
  - (* the significand has [prec] bits already *)
    cbn [shr shr_m loc_of_shr_record round_nearest_even].
    assert (Hdp : d = prec) by lia. rewrite Hdp in *.
    assert (Hlow : 0 < 2 ^ (prec - 1)) by (apply Z.pow_pos_nonneg; lia).
    destruct (binary_round_aux_finish s (Zpos M) E)
      as (m' & e' & -> & D' & Hmax' & Hge & Hval); [lia|lia|lia|].
    rewrite (Scaled_representable M E V) by (try lia; auto).
    apply Holds_finite; try assumption.
    now apply (Scaled_renorm (Zpos M) E).
  - (* [p] bits are shifted out *)
    rewrite shr_pos. cbn [shr_m].
    rewrite round_nearest_even_shift by lia.
    assert (Hpp : 0 < 2 ^ Zpos p) by (apply Z.pow_pos_nonneg; lia).
    assert (Hlow : 0 < 2 ^ (prec - 1)) by (apply Z.pow_pos_nonneg; lia).
    assert (Hq : 2 ^ (prec - 1) <= Zpos M / 2 ^ Zpos p < 2 ^ prec).
    { replace (d - 1) with (prec - 1 + Zpos p) in HB by lia.
      replace d with (prec + Zpos p) in HB by lia.
      rewrite !Z.pow_add_r in HB by lia. split.
      - apply Z.div_le_lower_bound; lia.
      - apply Z.div_lt_upper_bound; lia. }
    pose proof (RoundShift_range (Zpos M) (Zpos p) ltac:(lia) ltac:(lia)) as HR.
    destruct (binary_round_aux_finish s (RoundShift (Zpos M) (Zpos p)) (E + Zpos p))
      as (m' & e' & -> & D' & Hmax' & Hge & Hval); [lia|lia|lia|].
    apply Holds_finite; try assumption.
    apply (Scaled_renorm (RoundShift (Zpos M) (Zpos p)) (E + Zpos p)); try assumption.
    (* the rounded significand at exponent [E + p] is the rounding of [V] *)
    rewrite RoundNearestEven_shift. cbv zeta.
    rewrite (Z.abs_eq V), (Z.sgn_pos V), Z.mul_1_l by lia.
    replace (Z.log2 V + 1 - prec) with (E + Zpos p) by lia.
    apply Scaled_cases. apply Scaled_cases in HS.
    destruct (Z.le_gt_cases 0 (E + Zpos p)) as [Hnn|Hneg].
    + left. split; [lia|]. rewrite Z.max_r by lia. f_equal.
      destruct HS as [[HE HVM]|[HE HMV]].
      * rewrite (Z.add_comm E). now apply RoundShift_scale.
      * replace (RoundShift (Zpos M) (Zpos p))
          with (RoundShift (Zpos M) (E + Zpos p + - E)) by (f_equal; lia).
        symmetry. apply RoundShift_scale; lia.
    + right. split; [lia|]. rewrite Z.max_l by lia.
      destruct HS as [[HE HVM]|[HE HMV]]; [lia|].
      rewrite (RoundShift_exact V 0) by (try lia; apply Z.mod_1_r).
      change (2 ^ 0) with 1. rewrite Z.div_1_r, Z.mul_1_r.
      assert (Hsplit : 2 ^ (- E) = 2 ^ (- (E + Zpos p)) * 2 ^ Zpos p)
        by (rewrite <- Z.pow_add_r by lia; f_equal; lia).
      rewrite RoundShift_exact; [|lia|].
      * rewrite HMV, Hsplit, Z.mul_assoc, Z.div_mul by lia. reflexivity.
      * rewrite HMV, Hsplit, Z.mul_assoc. apply Z.mod_mul. lia.
Qed.

(** [binary_round]: the significand is first widened to [prec] bits. *)
Lemma binary_round_holds (s : bool) (M : positive) (E V : Z) :
  Scaled (Zpos M) E V -> V < 2 ^ (emax - 1) ->
  Holds prec emax (binary_round prec emax s M E)
        (cond_Zopp s (RoundNearestEven prec V)).
Proof.
  intros HS HV.
  destruct (Scaled_log2 _ _ _ (Pos2Z.is_pos M) HS) as [HVpos Hlog].
  pose proof (digits2_pos_log2 M) as HD.
  pose proof (Z.log2_nonneg V) as HVlog.
  unfold binary_round, shl_align. rewrite fexp_normal by lia.
  destruct (Zpos (digits2_pos M) + E - prec - E) as [|d|d] eqn:Ed.
  - apply binary_round_aux_holds; [assumption|lia|assumption].
  - apply binary_round_aux_holds; [assumption|lia|assumption].
  - assert (HM' : Zpos (Pos.iter xO M d) = Zpos M * 2 ^ Zpos d) by apply iter_xO.
    apply binary_round_aux_holds; [| |assumption].
    + rewrite HM'.
      replace (Zpos d) with (E - (Zpos (digits2_pos M) + E - prec)) by lia.
      apply Scaled_align; [lia|assumption].
    + rewrite digits2_pos_log2, HM', Z.log2_mul_pow2 by lia. lia.
Qed.

Lemma RoundNearestEven_abs (z : Z) :
  RoundNearestEven prec z = cond_Zopp (z <? 0) (RoundNearestEven prec (Z.abs z)).
Proof.
  destruct (Z.ltb_spec z 0) as [H|H]; cbn [cond_Zopp].
  - rewrite Z.abs_neq by lia. rewrite RoundNearestEven_opp. lia.
  - rewrite Z.abs_eq by lia. reflexivity.
Qed.

(** [binary_normalize] on [D] at exponent [e], a way of writing [V]. *)
Lemma binary_normalize_holds (D e V : Z) :
  Scaled D e V -> Z.abs V < 2 ^ (emax - 1) ->
  Holds prec emax (binary_normalize prec emax D e false) (RoundNearestEven prec V).
Proof.
  intros HS HV. pose proof (Scaled_sign _ _ _ HS) as Hsgn.
  pose proof (Scaled_abs _ _ _ HS) as HA.
  destruct D as [|M|M]; cbn [binary_normalize].
  - apply Scaled_zero in HS. subst V. cbn [Holds]. apply RoundNearestEven_0.
  - rewrite RoundNearestEven_abs.
    replace (V <? 0) with false by (symmetry; apply Z.ltb_ge; lia).
    apply binary_round_holds; [exact HA|lia].
  - rewrite RoundNearestEven_abs.
    replace (V <? 0) with true by (symmetry; apply Z.ltb_lt; lia).
    apply binary_round_holds; [exact HA|lia].
Qed.

(** What a float holds is its integer value, and is its own rounding. *)
Lemma Holds_value (x : spec_float) (V : Z) :
  Holds prec emax x V -> IntegerValue x = V.
Proof.
  destruct x as [s|s| |s m e]; cbn [Holds IntegerValue]; try tauto; [lia|].
  intros (_ & _ & HV & -> & HS). apply Scaled_cases in HS.
  assert (Hm : Z.shiftl (Zpos m) e = Z.abs V).
  { destruct HS as [[He ->]|[He HM]].
    - now rewrite Z.shiftl_mul_pow2.
    - rewrite <- (Z.opp_involutive e), Z.shiftl_opp_r, Z.shiftr_div_pow2 by lia.
      rewrite HM, Z.div_mul; [reflexivity|].
      apply Z.pow_nonzero; lia. }
  rewrite Hm. destruct (Z.ltb_spec V 0); cbn [cond_Zopp]; lia.
Qed.

Lemma Holds_representable (x : spec_float) (V : Z) :
  Holds prec emax x V -> RoundNearestEven prec V = V.
Proof.
  destruct x as [s|s| |s m e]; cbn [Holds]; try tauto.
  - intros ->. apply RoundNearestEven_0.
  - intros (D & _ & HV & _ & HS).
    rewrite RoundNearestEven_abs, (Scaled_representable m e (Z.abs V))
      by (try lia; assumption).
    destruct (Z.ltb_spec V 0); cbn [cond_Zopp]; lia.
Qed.

Lemma Holds_signed (s : bool) (m : positive) (e V : Z) :
  Holds prec emax (S754_finite s m e) V -> Scaled (cond_Zopp s (Zpos m)) e V.
Proof.
  cbn [Holds]. intros (_ & _ & HV & -> & HS).
  destruct (Z.ltb_spec V 0) as [H|H]; cbn [cond_Zopp].
  - replace V with (- Z.abs V) by lia. now apply Scaled_opp.
  - now replace V with (Z.abs V) by lia.
Qed.

Lemma Holds_opp (s : bool) (m : positive) (e V : Z) :
  Holds prec emax (S754_finite s m e) V ->
  Holds prec emax (S754_finite (negb s) m e) (- V).
Proof.
  cbn [Holds]. intros (D & He & HV & -> & HS).
  repeat split; try assumption; [lia| |now rewrite Z.abs_opp].
  destruct (Z.ltb_spec V 0), (Z.ltb_spec (- V) 0); simpl; try reflexivity; lia.
Qed.

(** Multiplication. *)
Theorem SFmul_holds (x y : spec_float) (A B : Z) :
  Holds prec emax x A -> Holds prec emax y B -> Z.abs (A * B) < 2 ^ (emax - 1) ->
  Holds prec emax (SFmul prec emax x y) (RoundNearestEven prec (A * B)).
Proof.
  intros HX HY HV.
  destruct x as [sx|sx| |sx mx ex]; cbn [Holds] in HX; try tauto;
  destruct y as [sy|sy| |sy my ey]; cbn [Holds] in HY; try tauto; cbn [SFmul].
  - subst. cbn [Holds]. apply RoundNearestEven_0.
  - subst. cbn [Holds]. apply RoundNearestEven_0.
  - subst. rewrite Z.mul_0_r. cbn [Holds]. apply RoundNearestEven_0.
  - destruct HX as (DX & _ & HA & -> & SX). destruct HY as (DY & _ & HB & -> & SY).
    rewrite RoundNearestEven_abs.
    replace (A * B <? 0) with (xorb (A <? 0) (B <? 0))
      by (destruct (Z.ltb_spec A 0), (Z.ltb_spec B 0), (Z.ltb_spec (A * B) 0);
          simpl; try reflexivity; nia).
    apply binary_round_aux_holds.
    + rewrite Z.abs_mul, Pos2Z.inj_mul. now apply Scaled_mul.
    + rewrite digits2_pos_log2, Pos2Z.inj_mul.
      pose proof (Z.log2_mul_below (Zpos mx) (Zpos my) ltac:(lia) ltac:(lia)).
      pose proof (Z.log2_nonneg (Zpos my)).
      rewrite digits2_pos_log2 in DX. lia.
    + exact HV.
Qed.

Lemma shl_align_fst (m : positive) (e e' : Z) :
  e' <= e -> Zpos (fst (shl_align m e e')) = Zpos m * 2 ^ (e - e').
Proof.
  intros H. unfold shl_align. destruct (e' - e) as [|d|d] eqn:Ed; cbn [fst]; try lia.
  - replace (e - e') with 0 by lia. change (2 ^ 0) with 1. lia.
  - rewrite iter_xO. do 2 f_equal. lia.
Qed.

(** The two significands of a sum or difference, written at the smaller
    exponent. *)
Lemma aligned_holds (sx sy : bool) (mx my : positive) (ex ey A B : Z) :
  Holds prec emax (S754_finite sx mx ex) A ->
  Holds prec emax (S754_finite sy my ey) B ->
  let ez := Z.min ex ey in
  Scaled (cond_Zopp sx (Zpos (fst (shl_align mx ex ez)))) ez A /\
  Scaled (cond_Zopp sy (Zpos (fst (shl_align my ey ez)))) ez B.
Proof.
  intros HX HY ez. apply Holds_signed in HX, HY.
  rewrite !shl_align_fst by (subst ez; lia).
  split.
  - replace (cond_Zopp sx (Zpos mx * 2 ^ (ex - ez)))
      with (cond_Zopp sx (Zpos mx) * 2 ^ (ex - ez)) by (destruct sx; cbn [cond_Zopp]; ring).
    apply Scaled_align; [subst ez; lia|assumption].
  - replace (cond_Zopp sy (Zpos my * 2 ^ (ey - ez)))
      with (cond_Zopp sy (Zpos my) * 2 ^ (ey - ez)) by (destruct sy; cbn [cond_Zopp]; ring).
    apply Scaled_align; [subst ez; lia|assumption].
Qed.

(** Subtraction and addition. *)
Theorem SFsub_holds (x y : spec_float) (A B : Z) :
  Holds prec emax x A -> Holds prec emax y B -> Z.abs (A - B) < 2 ^ (emax - 1) ->
  Holds prec emax (SFsub prec emax x y) (RoundNearestEven prec (A - B)).
Proof.
  intros HX HY HV.
  destruct x as [sx|sx| |sx mx ex]; try (cbn [Holds] in HX; tauto);
  destruct y as [sy|sy| |sy my ey]; try (cbn [Holds] in HY; tauto); cbn [SFsub].
  - cbn [Holds] in HX, HY. subst.
    destruct sx, sy; cbn [Holds]; apply RoundNearestEven_0.
  - cbn [Holds] in HX. subst A. rewrite Z.sub_0_l.
    rewrite (Holds_representable _ (- B)) by (apply Holds_opp; eassumption).
    now apply Holds_opp.
  - cbn [Holds] in HY. subst B. rewrite Z.sub_0_r.
    rewrite (Holds_representable _ A HX). exact HX.
  - destruct (aligned_holds sx sy mx my ex ey A B HX HY) as [SX SY].
    apply binary_normalize_holds; [|exact HV]. now apply Scaled_sub.
Qed.

Theorem SFadd_holds (x y : spec_float) (A B : Z) :
  Holds prec emax x A -> Holds prec emax y B -> Z.abs (A + B) < 2 ^ (emax - 1) ->
  Holds prec emax (SFadd prec emax x y) (RoundNearestEven prec (A + B)).
Proof.
  intros HX HY HV.
  destruct x as [sx|sx| |sx mx ex]; try (cbn [Holds] in HX; tauto);
  destruct y as [sy|sy| |sy my ey]; try (cbn [Holds] in HY; tauto); cbn [SFadd].
  - cbn [Holds] in HX, HY. subst.
    destruct sx, sy; cbn [Holds]; apply RoundNearestEven_0.
  - cbn [Holds] in HX. subst A. rewrite Z.add_0_l.
    rewrite (Holds_representable _ B HY). exact HY.
  - cbn [Holds] in HY. subst B. rewrite Z.add_0_r.
    rewrite (Holds_representable _ A HX). exact HX.
  - destruct (aligned_holds sx sy mx my ex ey A B HX HY) as [SX SY].
    apply binary_normalize_holds; [|exact HV].
    replace (A + B) with (A - - B) by lia.
    match goal with |- Scaled (?a + ?b) _ _ => replace (a + b) with (a - - b) by lia end.
    apply Scaled_sub; [assumption|now apply Scaled_opp].
Qed.

End Conformance.

(** ** String comparison *)

Lemma ToUnsigned_range (C : TCHAR) : 0 <= ToUnsigned C < 256.
Proof. unfold ToUnsigned. pose proof (N_ascii_bounded C). lia. Qed.

Lemma ToUnsigned_inj (C1 C2 : TCHAR) : ToUnsigned C1 = ToUnsigned C2 -> C1 = C2.
Proof.
  unfold ToUnsigned. intros H. apply N2Z.inj in H.
  rewrite <- (ascii_N_embedding C1), <- (ascii_N_embedding C2). now f_equal.
Qed.

Lemma IsNul_spec (C : TCHAR) : IsNul C = (ToUnsigned C =? 0).
Proof. reflexivity. Qed.

Lemma LowerAscii_range (U : Z) : 0 <= U < 256 -> 0 <= LowerAscii U < 256.
Proof.
  unfold LowerAscii. intros H. destruct ((65 <=? U) && (U <=? 90)) eqn:E; [|lia].
  apply andb_prop in E. lia.
Qed.

Lemma ToUnsigned_FoldChar (C : TCHAR) : ToUnsigned (FoldChar C) = LowerAscii (ToUnsigned C).
Proof.
  unfold FoldChar. fold (ToUnsigned C).
  pose proof (LowerAscii_range (ToUnsigned C) (ToUnsigned_range C)) as H.
  unfold ToUnsigned at 1. rewrite N_ascii_embedding by lia. lia.
Qed.

Lemma FoldChar_eq (C1 C2 : TCHAR) :
  FoldChar C1 = FoldChar C2 <-> LowerAscii (ToUnsigned C1) = LowerAscii (ToUnsigned C2).
Proof.
  rewrite <- !ToUnsigned_FoldChar. split; [now intros ->|apply ToUnsigned_inj].
Qed.

Lemma below_128 (U : Z) : 0 <= U -> (U <? 128) = (Z.shiftr U 7 =? 0).
Proof.
  intros H. rewrite Z.shiftr_div_pow2 by lia. change (2 ^ 7) with 128.
  destruct (Z.ltb_spec U 128) as [Hlt|Hge]; symmetry.
  - apply Z.eqb_eq, Z.div_small. lia.
  - apply Z.eqb_neq. intros E. apply Z.div_small_iff in E; lia.
Qed.

Lemma BothAscii_spec (U1 U2 : Z) :
  0 <= U1 -> 0 <= U2 -> BothAscii U1 U2 = (U1 <? 128) && (U2 <? 128).
Proof.
  intros H1 H2. unfold BothAscii.
  rewrite !below_128 by (try apply Z.lor_nonneg; lia).
  rewrite Z.shiftr_lor.
  destruct (Z.eqb_spec (Z.shiftr U1 7) 0) as [E1|E1];
  destruct (Z.eqb_spec (Z.shiftr U2 7) 0) as [E2|E2]; simpl.
  - apply Z.eqb_eq. now rewrite E1, E2.
  - apply Z.eqb_neq. rewrite Z.lor_eq_0_iff. tauto.
  - apply Z.eqb_neq. rewrite Z.lor_eq_0_iff. tauto.
  - apply Z.eqb_neq. rewrite Z.lor_eq_0_iff. tauto.
Qed.

Lemma Stricmp_nil (String2 : string) :
  Stricmp EmptyString String2 =
    let U2 := Peek String2 in
    if 0 =? U2 then 0
    else if BothAscii 0 U2 then
      (if LowerAscii 0 - LowerAscii U2 =? 0 then 0 else LowerAscii 0 - LowerAscii U2)
    else 0 - U2.
Proof. reflexivity. Qed.

Lemma Stricmp_cons (C1 : TCHAR) (Rest1 String2 : string) :
  Stricmp (String C1 Rest1) String2 =
    let U1 := ToUnsigned C1 in
    let U2 := Peek String2 in
    if U1 =? U2 then (if U1 =? 0 then 0 else Stricmp Rest1 (Advance String2))
    else if BothAscii U1 U2 then
      (if LowerAscii U1 - LowerAscii U2 =? 0 then Stricmp Rest1 (Advance String2)
       else LowerAscii U1 - LowerAscii U2)
    else U1 - U2.
Proof. reflexivity. Qed.

Lemma Peek_range (S : string) : 0 <= Peek S < 256.
Proof. destruct S; simpl; [lia|apply ToUnsigned_range]. Qed.

Lemma LowerAscii_ascii (U : Z) : 0 <= U < 128 -> LowerAscii U < 128.
Proof.
  unfold LowerAscii. intros H. destruct ((65 <=? U) && (U <=? 90)) eqn:E; [|lia].
  apply andb_prop in E. lia.
Qed.

Lemma LowerAscii_zero (U : Z) : 0 <= U -> LowerAscii U = 0 -> U = 0.
Proof.
  unfold LowerAscii. intros H. destruct ((65 <=? U) && (U <=? 90)) eqn:E; lia.
Qed.

Lemma LowerAscii_high (U : Z) : 128 <= U -> LowerAscii U = U.
Proof.
  unfold LowerAscii. intros H. destruct ((65 <=? U) && (U <=? 90)) eqn:E; [|lia].
  apply andb_prop in E. lia.
Qed.

Lemma head_view (S : string) : HeadView S.
Proof.
  destruct S as [|C Rest].
  - now apply AtEnd.
  - destruct (Z.eq_dec (ToUnsigned C) 0) as [E|E].
    + apply AtEnd; [exact E|]. simpl. rewrite IsNul_spec, E. reflexivity.
    + apply (AtUnit _ C Rest); [reflexivity|exact E|].
      simpl. rewrite IsNul_spec. now destruct (Z.eqb_spec (ToUnsigned C) 0).
Qed.

(** Two units that differ fold to the same letter exactly when the
    comparison finds no difference. *)
Lemma units_differ (C1 C2 : TCHAR) :
  ToUnsigned C1 <> ToUnsigned C2 ->
  (BothAscii (ToUnsigned C1) (ToUnsigned C2) = true /\
   LowerAscii (ToUnsigned C1) - LowerAscii (ToUnsigned C2) = 0 /\ FoldChar C1 = FoldChar C2) \/
  (BothAscii (ToUnsigned C1) (ToUnsigned C2) = true /\
   LowerAscii (ToUnsigned C1) - LowerAscii (ToUnsigned C2) <> 0 /\ FoldChar C1 <> FoldChar C2) \/
  (BothAscii (ToUnsigned C1) (ToUnsigned C2) = false /\ FoldChar C1 <> FoldChar C2).
Proof.
  intros Hne.
  pose proof (ToUnsigned_range C1) as H1. pose proof (ToUnsigned_range C2) as H2.
  rewrite BothAscii_spec by lia. rewrite !FoldChar_eq.
  destruct (Z.ltb_spec (ToUnsigned C1) 128) as [A1|A1];
  destruct (Z.ltb_spec (ToUnsigned C2) 128) as [A2|A2]; simpl.
  - destruct (Z.eq_dec (LowerAscii (ToUnsigned C1) - LowerAscii (ToUnsigned C2)) 0);
      [left|right; left]; repeat split; lia.
  - right; right. split; [reflexivity|].
    rewrite (LowerAscii_high (ToUnsigned C2)) by lia.
    pose proof (LowerAscii_ascii (ToUnsigned C1)). lia.
  - right; right. split; [reflexivity|].
    rewrite (LowerAscii_high (ToUnsigned C1)) by lia.
    pose proof (LowerAscii_ascii (ToUnsigned C2)). lia.
  - right; right. split; [reflexivity|].
    rewrite !LowerAscii_high by lia. lia.
Qed.

(** A unit against the terminator: the comparison reports a difference. *)
Lemma unit_against_end (U Continue : Z) :
  0 < U < 256 ->
  (if BothAscii U 0 then
     if LowerAscii U - LowerAscii 0 =? 0 then Continue else LowerAscii U - LowerAscii 0
   else U - 0) <> 0 /\
  (if BothAscii 0 U then
     if LowerAscii 0 - LowerAscii U =? 0 then Continue else LowerAscii 0 - LowerAscii U
   else 0 - U) <> 0.
Proof.
  intros H. change (LowerAscii 0) with 0.
  assert (LowerAscii U <> 0) by (intros L; apply LowerAscii_zero in L; lia).
  split.
  - destruct (BothAscii U 0); [|lia].
    destruct (Z.eqb_spec (LowerAscii U - 0) 0); lia.
  - destruct (BothAscii 0 U); [|lia].
    destruct (Z.eqb_spec (0 - LowerAscii U) 0); lia.
Qed.

Theorem Stricmp_zero_iff (String1 String2 : string) :
  Stricmp String1 String2 = 0 <->
  FoldCase (c_str String1) = FoldCase (c_str String2).
Proof.
  revert String2. induction String1 as [|C1 Rest1 IH]; intros String2.
  - rewrite Stricmp_nil. cbv zeta.
    destruct (head_view String2) as [P2 F2|C2 Rest2 -> N2 F2]; rewrite F2.
    + rewrite P2. simpl. tauto.
    + simpl Peek. fold (ToUnsigned C2). pose proof (ToUnsigned_range C2).
      destruct (Z.eqb_spec 0 (ToUnsigned C2)) as [?|_]; [lia|].
      destruct (unit_against_end (ToUnsigned C2) 0) as [_ Hd]; [lia|].
      split; [tauto|discriminate].
  - rewrite Stricmp_cons. cbv zeta.
    pose proof (ToUnsigned_range C1) as H1.
    destruct (head_view (String C1 Rest1)) as [P1 F1|C Rest [= <- <-] N1 F1];
      rewrite F1; clear F1;
    (destruct (head_view String2) as [P2 F2|C2 Rest2 -> N2 F2]; rewrite F2; clear F2).
    + simpl in P1. fold (ToUnsigned C1) in P1. rewrite P1, P2. simpl. tauto.
    + simpl in P1. fold (ToUnsigned C1) in P1. rewrite P1. simpl Peek. fold (ToUnsigned C2).
      pose proof (ToUnsigned_range C2).
      destruct (Z.eqb_spec 0 (ToUnsigned C2)) as [?|_]; [lia|].
      destruct (unit_against_end (ToUnsigned C2) (Stricmp Rest1 (Advance (String C2 Rest2))))
        as [_ Hd]; [lia|].
      split; [tauto|discriminate].
    + rewrite P2.
      destruct (Z.eqb_spec (ToUnsigned C1) 0) as [?|_]; [lia|].
      destruct (unit_against_end (ToUnsigned C1) (Stricmp Rest1 (Advance String2)))
        as [Hd _]; [lia|].
      split; [tauto|discriminate].
    + simpl Peek. fold (ToUnsigned C2). simpl Advance.
      destruct (Z.eqb_spec (ToUnsigned C1) (ToUnsigned C2)) as [E|E].
      * destruct (Z.eqb_spec (ToUnsigned C1) 0) as [?|_]; [lia|].
        apply ToUnsigned_inj in E. subst C2. rewrite IH.
        split; [now intros ->|now intros [= ->]].
      * destruct (units_differ C1 C2 E) as [(-> & D & F)|[(-> & D & F)|(-> & F)]].
        -- rewrite D. simpl. rewrite IH, F.
           split; [now intros ->|now intros [= ->]].
        -- destruct (Z.eqb_spec (LowerAscii (ToUnsigned C1) - LowerAscii (ToUnsigned C2)) 0);
             [lia|]. split; [lia|intros [= ? _]; tauto].
        -- split; [lia|intros [= ? _]; tauto].
Qed.

Theorem FString_eq_ignores_case (Lhs : FString) (Rhs : string) :
  FString_eq Lhs Rhs = EqualsIgnoreCase Lhs Rhs.
Proof.
  unfold FString_eq, EqualsIgnoreCase.
  destruct (Z.eqb_spec (Stricmp Lhs Rhs) 0) as [E|E];
  destruct (String.eqb_spec (FoldCase (c_str Lhs)) (FoldCase (c_str Rhs))) as [F|F];
    try reflexivity; exfalso.
  - apply F, Stricmp_zero_iff, E.
  - apply E, Stricmp_zero_iff, F.
Qed.

(* ===================================================================== *)
(** * Camera distance from the shot type                                  *)
(* ===================================================================== *)

Lemma EqualsIgnoreCase_literal (S Literal : string) :
  FoldCase (c_str Literal) = Literal ->
  EqualsIgnoreCase S Literal = String.eqb (FoldCase (c_str S)) Literal.
Proof. unfold EqualsIgnoreCase. now intros ->. Qed.

Lemma CameraDistance_table (ShotType : FString) :
  CameraDistance ShotType = DistanceTable EqualsIgnoreCase ShotType.
Proof.
  unfold CameraDistance, DistanceTable, TEXT.
  now rewrite !FString_eq_ignores_case.
Qed.

Lemma CameraDistance_values (ShotType : FString) :
  In (CameraDistance ShotType) [200; 1000; 500].
Proof.
  rewrite CameraDistance_table. unfold DistanceTable.
  destruct (EqualsIgnoreCase ShotType "close"); [simpl; auto|].
  destruct (EqualsIgnoreCase ShotType "wide"); simpl; auto.
Qed.

(** C1, as the code has it.  For every shot-type string, the camera
    distance is 200 when the string equals "close" up to the case of ASCII
    letters, 1000 when it equals "wide" up to the case of ASCII letters, and
    500 for every other string, the empty one included.  The comparison
    reads the string up to its terminator.  The function is total: one of
    the three distances always comes out. *)
Theorem CameraDistance_by_shot_type (ShotType : FString) :
  CameraDistance ShotType =
    (if String.eqb (FoldCase (c_str ShotType)) "close" then 200
     else if String.eqb (FoldCase (c_str ShotType)) "wide" then 1000
     else 500) /\
  CameraDistance ShotType = DistanceTable EqualsIgnoreCase ShotType /\
  In (CameraDistance ShotType) [200; 1000; 500].
Proof.
  split; [|split].
  - rewrite CameraDistance_table. unfold DistanceTable.
    now rewrite !EqualsIgnoreCase_literal by reflexivity.
  - apply CameraDistance_table.
  - apply CameraDistance_values.
Qed.

(** C1, as stated, fails: "CLOSE" is neither "close" nor "wide" as a
    string, and its camera distance is 200, not 500. *)
Lemma CameraDistance_of_CLOSE :
  "CLOSE" <> "close" /\ "CLOSE" <> "wide" /\
  CameraDistance (TEXT "CLOSE") = 200 /\
  CameraDistance (TEXT "CLOSE") <> DistanceTable String.eqb "CLOSE".
Proof. repeat split; try discriminate. Qed.

(* ===================================================================== *)
(** * Light colour and intensity                                          *)
(* ===================================================================== *)

Lemma TimeOfDayLight_table (TimeOfDay : FString) :
  TimeOfDayLight TimeOfDay =
    (ColorOfTenths (ColorTable EqualsIgnoreCase TimeOfDay),
     FloatOfZ (BaseTable EqualsIgnoreCase TimeOfDay)).
Proof.
  unfold TimeOfDayLight, ColorTable, BaseTable, TEXT.
  rewrite !FString_eq_ignores_case.
  destruct (EqualsIgnoreCase TimeOfDay "night"); [reflexivity|].
  destruct (EqualsIgnoreCase TimeOfDay "dawn" || EqualsIgnoreCase TimeOfDay "dusk");
    reflexivity.
Qed.

Lemma BaseTable_values (Same : string -> string -> bool) (TimeOfDay : string) :
  In (BaseTable Same TimeOfDay) [1; 2; 3].
Proof.
  unfold BaseTable. destruct (Same TimeOfDay "night"); [simpl; auto|].
  destruct (Same TimeOfDay "dawn" || Same TimeOfDay "dusk"); simpl; auto.
Qed.

Lemma MultiplierTable_values (Same : string -> string -> bool) (Mood : string) :
  In (MultiplierTable Same Mood) [5; 10; 15].
Proof.
  unfold MultiplierTable. destruct (Same Mood "dark" || Same Mood "moody"); [simpl; auto|].
  destruct (Same Mood "bright" || Same Mood "cheerful"); simpl; auto.
Qed.

Lemma ApplyMood_table (Mood : FString) (Base : Z) :
  In Base [1; 2; 3] ->
  ApplyMood Mood (FloatOfZ Base) =
    FMul (FloatOfZ Base) (FloatLiteral (MultiplierTable EqualsIgnoreCase Mood) 10).
Proof.
  intros HB. unfold ApplyMood, MultiplierTable, TEXT.
  rewrite !FString_eq_ignores_case.
  destruct (EqualsIgnoreCase Mood "dark" || EqualsIgnoreCase Mood "moody");
    [simpl in HB; intuition subst; reflexivity|].
  destruct (EqualsIgnoreCase Mood "bright" || EqualsIgnoreCase Mood "cheerful");
    simpl in HB; intuition subst; reflexivity.
Qed.

(** The products of the table are exact: the product of a base with a
    multiplier is the [float] of their product as a decimal. *)
Lemma FMul_table_exact (Base Tenths : Z) :
  In Base [1; 2; 3] -> In Tenths [5; 10; 15] ->
  FMul (FloatOfZ Base) (FloatLiteral Tenths 10) = FloatLiteral (Base * Tenths) 10.
Proof.
  intros HB HT. simpl in HB, HT. intuition subst; reflexivity.
Qed.

(** C2, as the code has it.  For every pair (mood, time of day), the
    resolved colour is the base colour of the time of day and the resolved
    intensity is base(time of day) x multiplier(mood), where the tables are
    read with equality up to the case of ASCII letters: base 1.0 and colour
    (0.4, 0.5, 0.7) for "night", 2.0 and (1.0, 0.6, 0.3) for "dawn" or
    "dusk", 3.0 and white otherwise; multiplier 0.5 for "dark" or "moody",
    1.5 for "bright" or "cheerful", 1.0 otherwise.  The [float] product is
    exact. *)
Theorem ResolveLighting_by_tables (Mood TimeOfDay : FString) :
  ResolveLighting Mood TimeOfDay =
    (ColorOfTenths (ColorTable EqualsIgnoreCase TimeOfDay),
     IntensityTable EqualsIgnoreCase Mood TimeOfDay) /\
  IntensityTable EqualsIgnoreCase Mood TimeOfDay =
    FloatLiteral (BaseTable EqualsIgnoreCase TimeOfDay *
                  MultiplierTable EqualsIgnoreCase Mood) 10 /\
  In (BaseTable EqualsIgnoreCase TimeOfDay) [1; 2; 3] /\
  In (MultiplierTable EqualsIgnoreCase Mood) [5; 10; 15].
Proof.
  pose proof (BaseTable_values EqualsIgnoreCase TimeOfDay) as HB.
  pose proof (MultiplierTable_values EqualsIgnoreCase Mood) as HM.
  repeat split; try assumption.
  - unfold ResolveLighting, IntensityTable.
    rewrite TimeOfDayLight_table, ApplyMood_table by assumption. reflexivity.
  - unfold IntensityTable. now apply FMul_table_exact.
Qed.

(** C2, as stated, fails: "NIGHT" is none of "night", "dawn", "dusk" as a
    string, so the stated tables give white at 3.0 x 1.0; the code gives
    the night colour at 1.0. *)
Lemma ResolveLighting_of_NIGHT :
  ResolveLighting (TEXT "") (TEXT "NIGHT") <>
    (ColorOfTenths (ColorTable String.eqb "NIGHT"),
     IntensityTable String.eqb "" "NIGHT") /\
  snd (ResolveLighting (TEXT "") (TEXT "NIGHT")) = FloatOfZ 1 /\
  IntensityTable String.eqb "" "NIGHT" = FloatOfZ 3.
Proof. repeat split. vm_compute. discriminate. Qed.

(* ===================================================================== *)
(** * Scene centre and character placement                                *)
(* ===================================================================== *)

Lemma RoundToFloat_small (z : Z) : Z.abs z < 2 ^ 24 -> RoundToFloat z = z.
Proof. apply RoundNearestEven_small. reflexivity. Qed.

Lemma RoundToFloat_multiple (z k : Z) :
  0 <= k -> Z.abs z < 2 ^ (24 + k) -> (2 ^ k | z) -> RoundToFloat z = z.
Proof. apply RoundNearestEven_multiple. reflexivity. Qed.

Lemma RoundToDouble_small (z : Z) : Z.abs z < 2 ^ 53 -> RoundToDouble z = z.
Proof. apply RoundNearestEven_small. reflexivity. Qed.

Lemma RoundToFloat_bound (z : Z) : Z.abs (RoundToFloat z) <= 2 * Z.abs z.
Proof. apply RoundNearestEven_bound. reflexivity. Qed.

(** Below [MaxExactIndex] the scene centre is the exact product. *)
Lemma SceneCenter_exact (Panel : FStoryboardPanel) :
  - MaxExactIndex <= Index Panel <= MaxExactIndex ->
  SceneCenter Panel = MakeVector (2000 * Index Panel) 0 0.
Proof.
  unfold MaxExactIndex, SceneCenter, IntToFloat, FloatMul. intros H.
  rewrite (RoundToFloat_small (Index Panel)) by lia.
  f_equal. rewrite (Z.mul_comm 2000).
  destruct (Z.eq_dec (Z.abs (Index Panel)) 134218) as [E|E].
  - assert (Index Panel = 134218 \/ Index Panel = -134218) as [-> | ->] by lia;
      reflexivity.
  - apply (RoundToFloat_multiple _ 4); [lia| |].
    + change (2 ^ (24 + 4)) with 268435456. lia.
    + exists (Index Panel * 125). change (2 ^ 4) with 16. lia.
Qed.

(** C5, as the code has it.  For panel indices from -134218 to 134218 the
    scene centre is (2000 x index, 0, 0): it depends on the index only, two
    consecutive indices are 2000 apart along X, the X coordinate increases
    strictly with the index, and two distinct indices give centres at least
    2000 apart. *)
Theorem SceneCenter_spacing (P Q : FStoryboardPanel) :
  - MaxExactIndex <= Index P <= MaxExactIndex ->
  - MaxExactIndex <= Index Q <= MaxExactIndex ->
  SceneCenter P = MakeVector (2000 * Index P) 0 0 /\
  (Index P = Index Q -> SceneCenter P = SceneCenter Q) /\
  (Index Q = Index P + 1 -> X (SceneCenter Q) = X (SceneCenter P) + 2000) /\
  (Index P < Index Q -> X (SceneCenter P) < X (SceneCenter Q)) /\
  (Index P <> Index Q -> 2000 <= Z.abs (X (SceneCenter Q) - X (SceneCenter P))).
Proof.
  intros HP HQ. rewrite (SceneCenter_exact P HP), (SceneCenter_exact Q HQ). cbn [X].
  split; [reflexivity|]. split; [now intros ->|]. split; [|split]; intros; lia.
Qed.

Lemma SceneCenter_spacing_witness :
  SceneCenter (PanelAt 3) = MakeVector 6000 0 0 /\
  X (SceneCenter (PanelAt 4)) = X (SceneCenter (PanelAt 3)) + 2000.
Proof.
  assert (H3 : - MaxExactIndex <= Index (PanelAt 3) <= MaxExactIndex)
    by (unfold MaxExactIndex; simpl; lia).
  assert (H4 : - MaxExactIndex <= Index (PanelAt 4) <= MaxExactIndex)
    by (unfold MaxExactIndex; simpl; lia).
  destruct (SceneCenter_spacing (PanelAt 3) (PanelAt 4) H3 H4) as (E & _ & S & _).
  split; [exact E|apply S; reflexivity].
Defined.

(** C5, as stated, fails.  The indices 16777216 and 16777217 differ and
    have the same scene centre: the second is not a [float] and converts to
    the first.  Earlier already, from 134218 to 134219, the step is 2016.
    The binary32 product of the standard library is the same at both
    indices. *)
Lemma SceneCenter_collision :
  Index (PanelAt 16777216) <> Index (PanelAt 16777217) /\
  SceneCenter (PanelAt 16777216) = SceneCenter (PanelAt 16777217) /\
  X (SceneCenter (PanelAt 134219)) - X (SceneCenter (PanelAt 134218)) = 2016 /\
  SceneCenterX_binary32 16777216 = SceneCenterX_binary32 16777217.
Proof. repeat split. simpl. lia. Qed.

(** At these indices the binary32 arithmetic of the standard library gives
    the same centres. *)
Example SceneCenter_collision_binary32 :
  SceneCenterX_binary32 16777216 = SceneCenterX_binary32 16777217 /\
  IntegerValue (SceneCenterX_binary32 134218) = 268436000 /\
  IntegerValue (SceneCenterX_binary32 134219) = 268438016.
Proof. repeat split. Qed.

Lemma CharOffset_exact (NumCharacters i : Z) :
  1 <= NumCharacters <= MaxExactCharacters -> 0 <= i < NumCharacters ->
  CharOffset NumCharacters i = 150 * i - 75 * (NumCharacters - 1).
Proof.
  unfold MaxExactCharacters, CharOffset, IntToFloat, FloatMul, FloatSub. intros HN Hi.
  rewrite (RoundToFloat_small i) by lia.
  rewrite (RoundToFloat_small (NumCharacters - 1)) by lia.
  rewrite (RoundToFloat_multiple (i * 150) 1); [|lia| |].
  - rewrite (RoundToFloat_small ((NumCharacters - 1) * 75)) by lia.
    rewrite RoundToFloat_small by lia. lia.
  - change (2 ^ (24 + 1)) with 33554432. lia.
  - exists (i * 75). change (2 ^ 1) with 2. lia.
Qed.

Lemma LoopIndices_In (Count i : Z) : In i (LoopIndices Count) <-> 0 <= i < Count.
Proof.
  unfold LoopIndices. rewrite in_map_iff. split.
  - intros (n & <- & Hn). apply in_seq in Hn. lia.
  - intros H. exists (Z.to_nat i). split; [lia|]. apply in_seq. lia.
Qed.

Lemma LoopIndices_length (Count : Z) : List.length (LoopIndices Count) = Z.to_nat Count.
Proof. unfold LoopIndices. now rewrite length_map, length_seq. Qed.

Lemma seq_rev_mirror (n : nat) :
  rev (map Z.of_nat (seq 0 n)) =
    map (fun i => Z.of_nat n - 1 - i) (map Z.of_nat (seq 0 n)).
Proof.
  induction n as [|n IH]; [reflexivity|].
  rewrite seq_S at 1. rewrite map_app, rev_app_distr. simpl rev. simpl app.
  rewrite IH. cbn [seq map]. f_equal; [lia|].
  rewrite <- seq_shift, !map_map. apply map_ext. intros a. lia.
Qed.

(** Read backwards, the loop indices are their mirror images. *)
Lemma LoopIndices_rev (Count : Z) :
  rev (LoopIndices Count) = map (fun i => Count - 1 - i) (LoopIndices Count).
Proof.
  unfold LoopIndices. rewrite seq_rev_mirror.
  destruct (Z.le_gt_cases Count 0) as [H|H].
  - replace (Z.to_nat Count) with 0%nat by lia. reflexivity.
  - rewrite Z2Nat.id by lia. reflexivity.
Qed.

(* ===================================================================== *)
(** * Locations handed to the host                                        *)
(* ===================================================================== *)

(** The scene centre of an [int32] index is far inside the range where
    [double] holds every integer. *)
Lemma SceneCenter_components (Panel : FStoryboardPanel) :
  Int32 (Index Panel) ->
  Z.abs (X (SceneCenter Panel)) <= 2 ^ 44 /\
  Y (SceneCenter Panel) = 0 /\ Z_ (SceneCenter Panel) = 0.
Proof.
  unfold Int32, SceneCenter, IntToFloat, FloatMul. cbn [X Y Z_]. intros H.
  split; [|split; reflexivity].
  pose proof (RoundToFloat_bound (Index Panel)) as H1.
  pose proof (RoundToFloat_bound (RoundToFloat (Index Panel) * 2000)) as H2.
  rewrite Z.abs_mul in H2. change (Z.abs 2000) with 2000 in H2.
  change (2 ^ 44) with 17592186044416. change (2 ^ 31) with 2147483648 in H. lia.
Qed.

(** Adding a small offset to the scene centre is exact. *)
Lemma SceneCenter_add (Panel : FStoryboardPanel) (dx dy dz : Z) :
  Int32 (Index Panel) ->
  Z.abs dx <= 2 ^ 31 -> Z.abs dy <= 2 ^ 31 -> Z.abs dz <= 2 ^ 31 ->
  FVector_add (SceneCenter Panel) (MakeVector dx dy dz) =
    MakeVector (X (SceneCenter Panel) + dx) dy dz.
Proof.
  intros HI Hx Hy Hz.
  destruct (SceneCenter_components Panel HI) as (HX & HY & HZ).
  unfold FVector_add, DoubleAdd. cbn [X Y Z_]. rewrite HY, HZ.
  change (2 ^ 44) with 17592186044416 in HX.
  change (2 ^ 31) with 2147483648 in Hx, Hy, Hz.
  rewrite !RoundToDouble_small
    by (change (2 ^ 53) with 9007199254740992; lia).
  reflexivity.
Qed.

Lemma ObjectLocation_exact (Panel : FStoryboardPanel) (RandX RandY : Z) :
  Int32 (Index Panel) -> -500 <= RandX <= 500 -> -500 <= RandY <= 500 ->
  ObjectLocation Panel RandX RandY =
    MakeVector (X (SceneCenter Panel) + RandX) RandY 0.
Proof.
  intros HI Hx Hy. unfold ObjectLocation.
  apply SceneCenter_add; [assumption| | |];
    change (2 ^ 31) with 2147483648; lia.
Qed.

Lemma ObjectLocation_in_square (Panel : FStoryboardPanel) (RandX RandY : Z) :
  Int32 (Index Panel) -> -500 <= RandX <= 500 -> -500 <= RandY <= 500 ->
  InBoundingSquare (SceneCenter Panel) (ObjectLocation Panel RandX RandY).
Proof.
  intros HI Hx Hy. rewrite ObjectLocation_exact by assumption.
  destruct (SceneCenter_components Panel HI) as (_ & HY & HZ).
  unfold InBoundingSquare. cbn [X Y Z_]. rewrite HY, HZ. lia.
Qed.

Lemma CameraLocation_exact (Panel : FStoryboardPanel) :
  Int32 (Index Panel) ->
  CameraLocation Panel =
    MakeVector (X (SceneCenter Panel) - CameraDistance (ShotType Panel)) 0 160.
Proof.
  intros HI. unfold CameraLocation.
  pose proof (CameraDistance_values (ShotType Panel)) as HD. simpl in HD.
  rewrite SceneCenter_add; [f_equal; lia|assumption| | |];
    change (2 ^ 31) with 2147483648; lia.
Qed.

(** The camera looks along the vector from its location to the scene
    centre. *)
Lemma CameraRotation_exact (Panel : FStoryboardPanel) :
  Int32 (Index Panel) ->
  CameraRotation Panel =
    Rotation (MakeVector (CameraDistance (ShotType Panel)) 0 (-160)).
Proof.
  intros HI. unfold CameraRotation. rewrite CameraLocation_exact by assumption.
  destruct (SceneCenter_components Panel HI) as (HX & HY & HZ).
  pose proof (CameraDistance_values (ShotType Panel)) as HD. simpl in HD.
  unfold FVector_sub, DoubleSub. cbn [X Y Z_]. rewrite HY, HZ.
  change (2 ^ 44) with 17592186044416 in HX.
  rewrite !RoundToDouble_small
    by (change (2 ^ 53) with 9007199254740992; lia).
  do 2 f_equal. lia.
Qed.

(** ** Character placement *)

(** C4, as the code has it.  For a character count N from 1 to 223697 the
    N offsets along Y are i x 150 - (N - 1) x 75 for i = 0 .. N-1: two
    neighbours are 150 apart, the offset of the mirrored index is the
    negated offset, and the offsets negated are the same offsets read
    backwards, hence the same multiset.  The characters stand at the scene
    centre moved by these offsets along Y. *)
Theorem CharOffsets_centered (Panel : FStoryboardPanel) :
  Int32 (Index Panel) ->
  1 <= NumCharacters Panel <= MaxExactCharacters ->
  let N := NumCharacters Panel in
  CharOffsets N = map (fun i => i * 150 - (N - 1) * (150 / 2)) (LoopIndices N) /\
  List.length (CharOffsets N) = Z.to_nat N /\
  (forall i, 0 <= i < N - 1 -> CharOffset N (i + 1) - CharOffset N i = 150) /\
  (forall i, 0 <= i < N -> CharOffset N (N - 1 - i) = - CharOffset N i) /\
  map Z.opp (CharOffsets N) = rev (CharOffsets N) /\
  Permutation (map Z.opp (CharOffsets N)) (CharOffsets N) /\
  map (CharLocation Panel) (LoopIndices N) =
    map (fun Offset => MakeVector (X (SceneCenter Panel)) Offset 0) (CharOffsets N).
Proof.
  intros HI HN N.
  assert (E : CharOffsets N =
    map (fun i => i * 150 - (N - 1) * (150 / 2)) (LoopIndices N)).
  { unfold CharOffsets. apply map_ext_in. intros i Hi. apply LoopIndices_In in Hi.
    rewrite CharOffset_exact by assumption. change (150 / 2) with 75. lia. }
  assert (R : map Z.opp (CharOffsets N) = rev (CharOffsets N)).
  { rewrite E, <- map_rev, LoopIndices_rev, !map_map. apply map_ext.
    intros i. change (150 / 2) with 75. lia. }
  split; [exact E|]. split; [|split; [|split; [|split; [exact R|split]]]].
  - unfold CharOffsets. now rewrite length_map, LoopIndices_length.
  - intros i Hi. rewrite !CharOffset_exact by (subst N; lia). lia.
  - intros i Hi. rewrite !CharOffset_exact by (subst N; lia). lia.
  - rewrite R. apply Permutation_sym, Permutation_rev.
  - unfold CharOffsets. rewrite map_map. apply map_ext_in.
    intros i Hi. apply LoopIndices_In in Hi. unfold CharLocation. fold N.
    pose proof (CharOffset_exact N i HN Hi) as HO. unfold MaxExactCharacters in HN.
    rewrite SceneCenter_add;
      [f_equal; lia|assumption| | |]; change (2 ^ 31) with 2147483648; lia.
Qed.

(** C4 at a panel with three characters: offsets -150, 0 and 150. *)
Lemma CharOffsets_centered_witness :
  CharOffsets 3 = [-150; 0; 150] /\
  map Z.opp (CharOffsets 3) = rev (CharOffsets 3) /\
  map (CharLocation (MakePanel "" 2 "" 3 [] "" "")) (LoopIndices 3) =
    [MakeVector 4000 (-150) 0; MakeVector 4000 0 0; MakeVector 4000 150 0].
Proof.
  pose (Panel := MakePanel "" 2 "" 3 [] "" "").
  assert (HI : Int32 (Index Panel)) by (unfold Int32; simpl; lia).
  assert (HN : 1 <= NumCharacters Panel <= MaxExactCharacters)
    by (unfold MaxExactCharacters; simpl; lia).
  destruct (CharOffsets_centered Panel HI HN) as (E & _ & _ & _ & S & _ & L).
  split; [exact E|split; [exact S|exact L]].
Defined.

(** C4, as stated, fails.  With 223698 characters the first offset would be
    -(223697 x 75) = -16777275, which is not a [float]: the code yields
    -16777276, and so does the binary32 arithmetic of the standard library.
    The last two offsets of that panel are 152 apart. *)
Lemma CharOffset_inexact :
  1 <= 223698 /\
  CharOffset 223698 0 <> 0 * 150 - (223698 - 1) * (150 / 2) /\
  CharOffset 223698 0 = -16777276 /\
  IntegerValue (CharOffset_binary32 223698 0) = -16777276 /\
  CharOffset 223698 223697 - CharOffset 223698 223696 = 152.
Proof. repeat split. lia. vm_compute. discriminate. Qed.

Example CharOffset_inexact_binary32 :
  IntegerValue (CharOffset_binary32 223698 0) = -16777276 /\
  IntegerValue (CharOffset_binary32 223698 223696) = 16777124 /\
  IntegerValue (CharOffset_binary32 223698 223697) = 16777276.
Proof. repeat split. Qed.

(** ** The integer model against binary32 and binary64

    Every operation of the integer model is the IEEE-754 operation of the
    standard library's specification, read through [Holds]; so is every
    location the bridge hands to the host, for every [int32] input. *)

(** A float of a format stays below the format's overflow threshold. *)
Lemma Holds_bound (prec emax : Z) (x : spec_float) (V : Z) :
  0 < prec -> prec < emax -> Holds prec emax x V -> Z.abs V < 2 ^ emax.
Proof.
  intros Hp He. assert (H0 : 0 < 2 ^ emax) by (apply Z.pow_pos_nonneg; lia).
  destruct x as [s|s| |s m e]; cbn [Holds]; try tauto; [intros ->; simpl; lia|].
  intros (D & Hle & _ & _ & HS).
  pose proof (digits_bounds m) as [_ HB]. rewrite D in HB.
  apply Scaled_cases in HS. destruct HS as [[H ->]|[H HM]].
  - assert (Hpe : 2 ^ prec * 2 ^ e <= 2 ^ emax).
    { rewrite <- Z.pow_add_r by lia. apply Z.pow_le_mono_r; lia. }
    assert (0 < 2 ^ e) by (apply Z.pow_pos_nonneg; lia). nia.
  - assert (0 < 2 ^ (- e)) by (apply Z.pow_pos_nonneg; lia).
    assert (2 ^ prec <= 2 ^ emax) by (apply Z.pow_le_mono_r; lia). nia.
Qed.

Lemma float_format : 0 < FloatPrec /\ FloatPrec < FloatEmax.
Proof. split; reflexivity. Qed.

Lemma double_format : 0 < DoublePrec /\ DoublePrec < DoubleEmax.
Proof. split; reflexivity. Qed.

(** *** Each operation of the integer model is the IEEE-754 operation *)

(** [(float)i]: the conversion rounds as [IntToFloat] does. *)
Theorem IntToFloat_sound (i : Z) :
  Int32 i -> HoldsFloat (FloatOfZ i) (IntToFloat i).
Proof.
  intros H. destruct float_format as [Hp He].
  apply (binary_normalize_holds FloatPrec FloatEmax Hp He i 0 i).
  - exists 0. repeat split; lia.
  - unfold Int32 in H. change (2 ^ 31) with 2147483648 in H.
    eapply Z.lt_trans with (2 ^ 32); [change (2 ^ 32) with 4294967296; lia|].
    apply Z.pow_lt_mono_r; unfold FloatEmax; lia.
Qed.

(** [*] and [-] on [float], below the overflow threshold. *)
Theorem FloatMul_sound (x y : float) (a b : Z) :
  HoldsFloat x a -> HoldsFloat y b -> Z.abs (a * b) < 2 ^ 127 ->
  HoldsFloat (FMul x y) (FloatMul a b).
Proof.
  destruct float_format as [Hp He]. apply (SFmul_holds FloatPrec FloatEmax Hp He).
Qed.

Theorem FloatSub_sound (x y : float) (a b : Z) :
  HoldsFloat x a -> HoldsFloat y b -> Z.abs (a - b) < 2 ^ 127 ->
  HoldsFloat (FSub x y) (FloatSub a b).
Proof.
  destruct float_format as [Hp He]. apply (SFsub_holds FloatPrec FloatEmax Hp He).
Qed.

(** Unary [-] flips the sign and rounds nothing. *)
Theorem FNeg_sound (x : float) (a : Z) : HoldsFloat x a -> HoldsFloat (FNeg x) (- a).
Proof.
  destruct float_format as [Hp He].
  destruct x as [s|s| |s m e]; cbn [HoldsFloat Holds FNeg SFopp]; try tauto.
  - unfold HoldsFloat. cbn [Holds]. lia.
  - apply (Holds_opp FloatPrec FloatEmax).
Qed.

(** [+] and [-] on [double], below the overflow threshold. *)
Theorem DoubleAdd_sound (x y : float) (a b : Z) :
  HoldsDouble x a -> HoldsDouble y b -> Z.abs (a + b) < 2 ^ 1023 ->
  HoldsDouble (DAdd x y) (DoubleAdd a b).
Proof.
  destruct double_format as [Hp He]. apply (SFadd_holds DoublePrec DoubleEmax Hp He).
Qed.

Theorem DoubleSub_sound (x y : float) (a b : Z) :
  HoldsDouble x a -> HoldsDouble y b -> Z.abs (a - b) < 2 ^ 1023 ->
  HoldsDouble (DSub x y) (DoubleSub a b).
Proof.
  destruct double_format as [Hp He]. apply (SFsub_holds DoublePrec DoubleEmax Hp He).
Qed.

(** An [int32] converts to [double] without rounding. *)
Theorem IntToDouble_sound (i : Z) : Int32 i -> HoldsDouble (DoubleOfZ i) i.
Proof.
  intros H. destruct double_format as [Hp He].
  unfold Int32 in H. change (2 ^ 31) with 2147483648 in H.
  assert (S : Scaled i 0 i) by (exists 0; repeat split; lia).
  assert (B : Z.abs i < 2 ^ (DoubleEmax - 1)).
  { eapply Z.lt_trans with (2 ^ 32); [change (2 ^ 32) with 4294967296; lia|].
    apply Z.pow_lt_mono_r; unfold DoubleEmax; lia. }
  pose proof (binary_normalize_holds DoublePrec DoubleEmax Hp He _ _ _ S B) as R.
  change (RoundNearestEven DoublePrec i) with (RoundToDouble i) in R.
  rewrite (RoundToDouble_small i) in R
    by (change (2 ^ 53) with 9007199254740992; lia).
  exact R.
Qed.

(** A [float] converts to [double] without rounding. *)
Theorem FloatToDouble_sound (x : float) (a : Z) :
  HoldsFloat x a -> HoldsDouble (FloatToDouble x) a.
Proof.
  intros H. destruct float_format as [Hp He]. destruct double_format as [Hp' He'].
  pose proof (Holds_bound _ _ _ _ Hp He H) as HB.
  destruct x as [s|s| |s m e]; cbn [FloatToDouble]; try (cbn [HoldsFloat Holds] in H; tauto).
  pose proof (Holds_signed _ _ _ _ _ _ H) as HS.
  destruct H as (D & _ & Ha & _ & HA).
  assert (E : RoundNearestEven DoublePrec a = a).
  { rewrite (RoundNearestEven_abs DoublePrec).
    rewrite (Scaled_representable DoublePrec Hp' m e (Z.abs a));
      [|rewrite D; unfold FloatPrec, DoublePrec; lia|exact HA].
    destruct (Z.ltb_spec a 0); cbn [cond_Zopp]; lia. }
  assert (B : Z.abs a < 2 ^ (DoubleEmax - 1)).
  { eapply Z.lt_trans; [exact HB|].
    apply Z.pow_lt_mono_r; unfold FloatEmax, DoubleEmax; lia. }
  pose proof (binary_normalize_holds DoublePrec DoubleEmax Hp' He' _ _ _ HS B) as R.
  rewrite E in R. exact R.
Qed.

(** *** The coordinates of the integer model are the IEEE-754 coordinates *)

Lemma IntToFloat_magnitude (i : Z) : Int32 i -> Z.abs (IntToFloat i) <= 2 ^ 32.
Proof.
  unfold Int32. change (2 ^ 31) with 2147483648. change (2 ^ 32) with 4294967296.
  intros H. pose proof (RoundToFloat_bound i). unfold IntToFloat. lia.
Qed.

Lemma FloatMul_magnitude (a c : Z) :
  Z.abs a <= 2 ^ 32 -> Z.abs c <= 2 ^ 11 -> Z.abs (FloatMul a c) <= 2 ^ 44.
Proof.
  change (2 ^ 32) with 4294967296. change (2 ^ 11) with 2048.
  change (2 ^ 44) with 17592186044416.
  intros Ha Hc. pose proof (RoundToFloat_bound (a * c)) as H.
  rewrite Z.abs_mul in H. unfold FloatMul. nia.
Qed.

Lemma below_float_range (z : Z) : Z.abs z <= 2 ^ 46 -> Z.abs z < 2 ^ 127.
Proof.
  intros H. eapply Z.le_lt_trans; [exact H|]. apply Z.pow_lt_mono_r; lia.
Qed.

Lemma below_double_range (z : Z) : Z.abs z <= 2 ^ 46 -> Z.abs z < 2 ^ 1023.
Proof.
  intros H. eapply Z.le_lt_trans; [exact H|]. apply Z.pow_lt_mono_r; lia.
Qed.

(** A whole-number literal below 2^24 is a [float] as it stands. *)
Theorem FloatLiteral_sound (c : Z) : Z.abs c < 2 ^ 24 -> HoldsFloat (FloatOfZ c) c.
Proof.
  intros H. rewrite <- (RoundToFloat_small c H) at 2. apply IntToFloat_sound.
  unfold Int32. change (2 ^ 24) with 16777216 in H. change (2 ^ 31) with 2147483648. lia.
Qed.

(** [i * c] for an [int32] [i] and a literal [c]: the shape of the three
    products of the placement arithmetic. *)
Theorem IntTimesLiteral_sound (i c : Z) :
  Int32 i -> Z.abs c <= 2 ^ 11 ->
  HoldsFloat (FMul (FloatOfZ i) (FloatOfZ c)) (FloatMul (IntToFloat i) c).
Proof.
  intros Hi Hc. apply FloatMul_sound.
  - now apply IntToFloat_sound.
  - apply FloatLiteral_sound. change (2 ^ 11) with 2048 in Hc.
    change (2 ^ 24) with 16777216. lia.
  - apply below_float_range. pose proof (IntToFloat_magnitude i Hi) as H.
    rewrite Z.abs_mul. change (2 ^ 32) with 4294967296 in H.
    change (2 ^ 11) with 2048 in Hc. change (2 ^ 46) with 70368744177664. nia.
Qed.

(** [Panel.Index * 2000.0f] *)
Theorem SceneCenterX_sound (Panel : FStoryboardPanel) :
  Int32 (Index Panel) ->
  HoldsFloat (SceneCenterX_binary32 (Index Panel)) (X (SceneCenter Panel)).
Proof.
  intros H. apply IntTimesLiteral_sound; [exact H|]. change (2 ^ 11) with 2048. simpl. lia.
Qed.

Lemma CharOffset_magnitude (NumCharacters i : Z) :
  Int32 i -> Int32 (NumCharacters - 1) -> Z.abs (CharOffset NumCharacters i) <= 2 ^ 46.
Proof.
  intros Hi HN. unfold CharOffset.
  pose proof (FloatMul_magnitude (IntToFloat i) 150 (IntToFloat_magnitude i Hi)) as H1.
  pose proof (FloatMul_magnitude (IntToFloat (NumCharacters - 1)) 75
                (IntToFloat_magnitude _ HN)) as H2.
  change (2 ^ 11) with 2048 in H1, H2. simpl (Z.abs 150) in H1. simpl (Z.abs 75) in H2.
  specialize (H1 ltac:(lia)). specialize (H2 ltac:(lia)).
  pose proof (RoundToFloat_bound (FloatMul (IntToFloat i) 150
                                  - FloatMul (IntToFloat (NumCharacters - 1)) 75)) as H.
  unfold FloatSub. change (2 ^ 44) with 17592186044416 in H1, H2.
  change (2 ^ 46) with 70368744177664. lia.
Qed.

(** [i * 150.0f - (Panel.NumCharacters - 1) * 75.0f] *)
Theorem CharOffset_sound (NumCharacters i : Z) :
  Int32 i -> Int32 (NumCharacters - 1) ->
  HoldsFloat (CharOffset_binary32 NumCharacters i) (CharOffset NumCharacters i).
Proof.
  intros Hi HN. apply FloatSub_sound.
  - apply IntTimesLiteral_sound; [exact Hi|]. change (2 ^ 11) with 2048. simpl. lia.
  - apply IntTimesLiteral_sound; [exact HN|]. change (2 ^ 11) with 2048. simpl. lia.
  - apply below_float_range.
    pose proof (FloatMul_magnitude (IntToFloat i) 150 (IntToFloat_magnitude i Hi)) as H1.
    pose proof (FloatMul_magnitude (IntToFloat (NumCharacters - 1)) 75
                  (IntToFloat_magnitude _ HN)) as H2.
    change (2 ^ 11) with 2048 in H1, H2. simpl (Z.abs 150) in H1. simpl (Z.abs 75) in H2.
    specialize (H1 ltac:(lia)). specialize (H2 ltac:(lia)).
    change (2 ^ 44) with 17592186044416 in H1, H2.
    change (2 ^ 46) with 70368744177664. lia.
Qed.

Lemma SceneCenter_magnitude (Panel : FStoryboardPanel) :
  Int32 (Index Panel) -> Z.abs (X (SceneCenter Panel)) <= 2 ^ 44.
Proof.
  intros H. apply FloatMul_magnitude; [now apply IntToFloat_magnitude|].
  change (2 ^ 11) with 2048. simpl. lia.
Qed.

(** The four locations of [CreateSceneFromPanel] and the direction the
    camera looks along, for every [int32] input. *)
Theorem SceneCenter_sound (Panel : FStoryboardPanel) :
  Int32 (Index Panel) ->
  VectorHolds (SceneCenter_binary (Index Panel)) (SceneCenter Panel).
Proof.
  intros H. split; [|split]; cbn [X64 Y64 Z64 SceneCenter_binary].
  - apply FloatToDouble_sound. now apply SceneCenterX_sound.
  - reflexivity.
  - reflexivity.
Qed.

Lemma FVector_add_sound (a b : FVector64) (A B : FVector) :
  VectorHolds a A -> VectorHolds b B ->
  Z.abs (X A + X B) <= 2 ^ 46 -> Z.abs (Y A + Y B) <= 2 ^ 46 ->
  Z.abs (Z_ A + Z_ B) <= 2 ^ 46 ->
  VectorHolds (FVector64_add a b) (FVector_add A B).
Proof.
  intros (HX & HY & HZ) (HX' & HY' & HZ') BX BY BZ.
  split; [|split]; cbn [X64 Y64 Z64 FVector64_add X Y Z_ FVector_add];
    apply DoubleAdd_sound; try assumption; now apply below_double_range.
Qed.

Lemma FVector_sub_sound (a b : FVector64) (A B : FVector) :
  VectorHolds a A -> VectorHolds b B ->
  Z.abs (X A - X B) <= 2 ^ 46 -> Z.abs (Y A - Y B) <= 2 ^ 46 ->
  Z.abs (Z_ A - Z_ B) <= 2 ^ 46 ->
  VectorHolds (FVector64_sub a b) (FVector_sub A B).
Proof.
  intros (HX & HY & HZ) (HX' & HY' & HZ') BX BY BZ.
  split; [|split]; cbn [X64 Y64 Z64 FVector64_sub X Y Z_ FVector_sub];
    apply DoubleSub_sound; try assumption; now apply below_double_range.
Qed.

Ltac magnitudes :=
  cbn [X Y Z_ SceneCenter] in *;
  change (2 ^ 46) with 70368744177664 in *;
  change (2 ^ 44) with 17592186044416 in *;
  change (2 ^ 31) with 2147483648 in *.

Theorem CharLocation_sound (Panel : FStoryboardPanel) (i : Z) :
  Int32 (Index Panel) -> Int32 i -> Int32 (NumCharacters Panel - 1) ->
  VectorHolds (CharLocation_binary (Index Panel) (NumCharacters Panel) i)
              (CharLocation Panel i).
Proof.
  intros HI Hi HN.
  pose proof (SceneCenter_magnitude Panel HI) as HC.
  pose proof (CharOffset_magnitude _ _ Hi HN) as HO.
  apply FVector_add_sound.
  - now apply SceneCenter_sound.
  - split; [|split]; cbn [X64 Y64 Z64 X Y Z_]; try reflexivity.
    apply FloatToDouble_sound. now apply CharOffset_sound.
  - cbn [X] in *. magnitudes. lia.
  - magnitudes. rewrite Z.add_0_l. exact HO.
  - magnitudes. simpl. lia.
Qed.

Theorem ObjectLocation_sound (Panel : FStoryboardPanel) (RandX RandY : Z) :
  Int32 (Index Panel) -> Int32 RandX -> Int32 RandY ->
  VectorHolds (ObjectLocation_binary (Index Panel) RandX RandY)
              (ObjectLocation Panel RandX RandY).
Proof.
  intros HI HX HY.
  pose proof (SceneCenter_magnitude Panel HI) as HC.
  apply FVector_add_sound.
  - now apply SceneCenter_sound.
  - split; [|split]; cbn [X64 Y64 Z64 X Y Z_]; try reflexivity;
      now apply IntToDouble_sound.
  - unfold Int32 in *. cbn [X] in *. magnitudes. lia.
  - unfold Int32 in *. magnitudes. lia.
  - magnitudes. simpl. lia.
Qed.

Theorem CameraLocation_sound (Panel : FStoryboardPanel) :
  Int32 (Index Panel) ->
  VectorHolds (CameraLocation_binary (Index Panel) (CameraDistance (ShotType Panel)))
              (CameraLocation Panel).
Proof.
  intros HI.
  pose proof (SceneCenter_magnitude Panel HI) as HC.
  pose proof (CameraDistance_values (ShotType Panel)) as HD. simpl in HD.
  apply FVector_add_sound.
  - now apply SceneCenter_sound.
  - split; [|split]; cbn [X64 Y64 Z64 X Y Z_]; try reflexivity.
    + apply FloatToDouble_sound, FNeg_sound, FloatLiteral_sound.
      change (2 ^ 24) with 16777216. lia.
    + apply IntToDouble_sound. unfold Int32. change (2 ^ 31) with 2147483648. lia.
  - magnitudes. lia.
  - magnitudes. simpl. lia.
  - magnitudes. simpl. lia.
Qed.

Theorem CameraDirection_sound (Panel : FStoryboardPanel) :
  Int32 (Index Panel) ->
  VectorHolds (CameraDirection_binary (Index Panel) (CameraDistance (ShotType Panel)))
              (FVector_sub (SceneCenter Panel) (CameraLocation Panel)).
Proof.
  intros HI.
  pose proof (SceneCenter_magnitude Panel HI) as HC.
  pose proof (CameraDistance_values (ShotType Panel)) as HD. simpl in HD.
  apply FVector_sub_sound.
  - now apply SceneCenter_sound.
  - now apply CameraLocation_sound.
  - rewrite CameraLocation_exact by assumption. magnitudes. lia.
  - rewrite CameraLocation_exact by assumption. magnitudes. simpl. lia.
  - rewrite CameraLocation_exact by assumption. magnitudes. simpl. lia.
Qed.

(** Reading the value back: the integer the model computes is the value of
    the IEEE-754 result. *)
Corollary SceneCenterX_value (Panel : FStoryboardPanel) :
  Int32 (Index Panel) ->
  IntegerValue (SceneCenterX_binary32 (Index Panel)) = X (SceneCenter Panel).
Proof.
  intros H. apply (Holds_value FloatPrec FloatEmax). now apply SceneCenterX_sound.
Qed.

Corollary CharOffset_value (NumCharacters i : Z) :
  Int32 i -> Int32 (NumCharacters - 1) ->
  IntegerValue (CharOffset_binary32 NumCharacters i) = CharOffset NumCharacters i.
Proof.
  intros Hi HN. apply (Holds_value FloatPrec FloatEmax). now apply CharOffset_sound.
Qed.

(** ** What each operation adds to the world *)

Lemma PlaceActorInScene_cases (Host : EditorHost) (AssetPath : FString)
    (Location : FVector) (Rotation : FRotator) :
  (forall World, PlaceActorInScene Host AssetPath Location Rotation World = World) \/
  (forall World, PlaceActorInScene Host AssetPath Location Rotation World =
     (World ++ [MakeActor (FromObject AssetPath) Location Rotation
                          [TEXT "StoryboardGenerated"]])%list).
Proof.
  unfold PlaceActorInScene. destruct (LoadAsset Host AssetPath); simpl; [|now left].
  destruct (SpawnActor Host StaticClass_Object Location Rotation); [now right|now left].
Qed.

Lemma PlaceActorInScene_cooperative (Host : EditorHost) (AssetPath : FString)
    (Location : FVector) (Rotation : FRotator) (World : UWorld) :
  Cooperative Host ->
  PlaceActorInScene Host AssetPath Location Rotation World =
    (World ++ [MakeActor (FromObject AssetPath) Location Rotation
                         [TEXT "StoryboardGenerated"]])%list.
Proof.
  intros (_ & HL & HS & _). unfold PlaceActorInScene. now rewrite HL, HS.
Qed.

(** The characters: cylinders at the character locations. *)
Lemma PlaceCharacters_added (Host : EditorHost) (Panel : FStoryboardPanel)
    (Indices : list Z) :
  exists Added,
    (forall World,
       fold_left (PlaceCharacter Host Panel) Indices World = (World ++ Added)%list) /\
    Forall (fun Actor => exists i, In i Indices /\
                                   Actor = Cylinder (CharLocation Panel i)) Added.
Proof.
  induction Indices as [|i Rest (Added & E & F)].
  - exists []. split; [intros; now rewrite app_nil_r|constructor].
  - assert (F' : Forall (fun Actor => exists j, In j (i :: Rest) /\
                           Actor = Cylinder (CharLocation Panel j)) Added).
    { eapply Forall_impl; [|exact F]. intros A (j & Hj & ->).
      exists j. split; [now right|reflexivity]. }
    destruct (PlaceActorInScene_cases Host (TEXT "/Engine/BasicShapes/Cylinder")
                (CharLocation Panel i) ZeroRotator) as [C|C].
    + exists Added. split; [|exact F'].
      intros World. cbn [fold_left]. unfold PlaceCharacter at 2. now rewrite C, E.
    + exists (Cylinder (CharLocation Panel i) :: Added). split.
      * intros World. cbn [fold_left]. unfold PlaceCharacter at 2.
        rewrite C, E, <- app_assoc. reflexivity.
      * constructor; [|exact F']. exists i. split; [now left|reflexivity].
Qed.

Lemma PlaceCharacters_cooperative (Host : EditorHost) (Panel : FStoryboardPanel)
    (Indices : list Z) (World : UWorld) :
  Cooperative Host ->
  fold_left (PlaceCharacter Host Panel) Indices World =
    (World ++ map (fun i => Cylinder (CharLocation Panel i)) Indices)%list.
Proof.
  intros HC. revert World. induction Indices as [|i Rest IH]; intros World.
  - simpl. now rewrite app_nil_r.
  - cbn [fold_left map]. rewrite IH. unfold PlaceCharacter.
    rewrite PlaceActorInScene_cooperative by assumption.
    rewrite <- app_assoc. reflexivity.
Qed.

Section RandomFacts.

Variable RandomStream : Type.
Variable RandRange : Z -> Z -> RandomStream -> Z * RandomStream.
Variable LeftToRight : bool.

Local Abbreviation DrawOne := (DrawOffset RandomStream RandRange LeftToRight).
Local Abbreviation DrawAll := (DrawObjectOffsets RandomStream RandRange LeftToRight).
Local Abbreviation PlaceOne := (PlaceObject RandomStream RandRange LeftToRight).

(** Whichever argument is evaluated first, both draws keep to the bounds. *)
Lemma DrawOffset_in_range (Random : RandomStream) :
  RandRangeContract RandRange ->
  -500 <= fst (fst (DrawOne Random)) <= 500 /\
  -500 <= snd (fst (DrawOne Random)) <= 500.
Proof.
  intros HC. unfold DrawOffset.
  pose proof (HC (-500) 500 Random ltac:(lia)) as H1.
  destruct (RandRange (-500) 500 Random) as [First Random1].
  pose proof (HC (-500) 500 Random1 ltac:(lia)) as H2.
  destruct (RandRange (-500) 500 Random1) as [Second Random2].
  cbn [fst snd] in *. destruct LeftToRight; cbn [fst snd]; lia.
Qed.

Lemma DrawObjectOffsets_length (Objects : list FString) (Random : RandomStream) :
  List.length (fst (DrawAll Objects Random)) = List.length Objects.
Proof.
  revert Random. induction Objects as [|O Rest IH]; intros Random; [reflexivity|].
  cbn [DrawObjectOffsets].
  destruct (DrawOne Random) as [Offset Random2].
  specialize (IH Random2).
  destruct (DrawAll Rest Random2) as [Offsets Random'].
  simpl in *. now rewrite IH.
Qed.

Lemma DrawObjectOffsets_in_range (Objects : list FString) (Random : RandomStream) :
  RandRangeContract RandRange ->
  Forall (fun Offset => -500 <= fst Offset <= 500 /\ -500 <= snd Offset <= 500)
         (fst (DrawAll Objects Random)).
Proof.
  intros HC. revert Random. induction Objects as [|O Rest IH]; intros Random;
    [constructor|].
  cbn [DrawObjectOffsets].
  pose proof (DrawOffset_in_range Random HC) as HO.
  destruct (DrawOne Random) as [Offset Random2].
  specialize (IH Random2).
  destruct (DrawAll Rest Random2) as [Offsets Random'].
  cbn [fst snd] in *. constructor; [exact HO|exact IH].
Qed.

(** The objects: cubes at the scene centre moved by the offsets drawn. *)
Lemma PlaceObjects_added (Host : EditorHost) (Panel : FStoryboardPanel)
    (Objects : list FString) (Random : RandomStream) :
  exists Added,
    (forall World,
       fold_left (PlaceOne Host Panel) Objects (World, Random) =
         ((World ++ Added)%list, snd (DrawAll Objects Random))) /\
    Forall (fun Actor => exists Offset,
              In Offset (fst (DrawAll Objects Random)) /\
              Actor = Cube (ObjectLocation Panel (fst Offset) (snd Offset))) Added.
Proof.
  revert Random. induction Objects as [|O Rest IH]; intros Random.
  - exists []. split; [intros; simpl; now rewrite app_nil_r|constructor].
  - cbn [DrawObjectOffsets].
    destruct (DrawOne Random) as [Offset Random2] eqn:EO.
    destruct (IH Random2) as (Added & E & F).
    destruct (DrawAll Rest Random2) as [Offsets Random'] eqn:ED.
    cbn [fst snd] in *.
    assert (F' : Forall (fun Actor => exists Offset',
                   In Offset' (Offset :: Offsets) /\
                   Actor = Cube (ObjectLocation Panel (fst Offset') (snd Offset'))) Added).
    { eapply Forall_impl; [|exact F]. intros A (o & Ho & ->).
      exists o. split; [now right|reflexivity]. }
    destruct (PlaceActorInScene_cases Host (TEXT "/Engine/BasicShapes/Cube")
                (ObjectLocation Panel (fst Offset) (snd Offset)) ZeroRotator) as [C|C].
    + exists Added. split; [|exact F'].
      intros World. cbn [fold_left]. unfold PlaceObject at 2.
      now rewrite EO, C, E.
    + exists (Cube (ObjectLocation Panel (fst Offset) (snd Offset)) :: Added). split.
      * intros World. cbn [fold_left]. unfold PlaceObject at 2.
        rewrite EO, C, E, <- app_assoc. reflexivity.
      * constructor; [|exact F']. exists Offset. split; [now left|reflexivity].
Qed.

Lemma PlaceObjects_cooperative (Host : EditorHost) (Panel : FStoryboardPanel)
    (Objects : list FString) (World : UWorld) (Random : RandomStream) :
  Cooperative Host ->
  fold_left (PlaceOne Host Panel) Objects (World, Random) =
    ((World ++ map (fun Offset => Cube (ObjectLocation Panel (fst Offset) (snd Offset)))
                   (fst (DrawAll Objects Random)))%list,
     snd (DrawAll Objects Random)).
Proof.
  intros HC. revert World Random. induction Objects as [|O Rest IH]; intros World Random.
  - simpl. now rewrite app_nil_r.
  - cbn [fold_left DrawObjectOffsets]. unfold PlaceObject at 2.
    destruct (DrawOne Random) as [Offset Random2].
    rewrite IH.
    destruct (DrawAll Rest Random2) as [Offsets Random'].
    cbn [fst snd map]. rewrite PlaceActorInScene_cooperative by assumption.
    rewrite <- app_assoc. reflexivity.
Qed.

(** On every host the object loop adds, in the order of [Objects], one cube
    at each drawn location where the host places a cube, and nothing else. *)
Lemma PlaceObjects_exact (Host : EditorHost) (Panel : FStoryboardPanel)
    (Objects : list FString) (World : UWorld) (Random : RandomStream) :
  fold_left (PlaceOne Host Panel) Objects (World, Random) =
    ((World ++ map Cube
                 (filter (PlacesCube Host)
                    (map (fun Offset => ObjectLocation Panel (fst Offset) (snd Offset))
                         (fst (DrawAll Objects Random)))))%list,
     snd (DrawAll Objects Random)).
Proof.
  revert World Random. induction Objects as [|O Rest IH]; intros World Random.
  - simpl. now rewrite app_nil_r.
  - cbn [fold_left DrawObjectOffsets]. unfold PlaceObject at 2.
    destruct (DrawOne Random) as [Offset Random2].
    rewrite IH.
    destruct (DrawAll Rest Random2) as [Offsets Random'].
    cbn [fst snd map filter]. unfold PlaceActorInScene, PlacesCube.
    destruct (LoadAsset Host (TEXT "/Engine/BasicShapes/Cube")); cbn [negb andb];
      [|reflexivity].
    destruct (SpawnActor Host StaticClass_Object
                (ObjectLocation Panel (fst Offset) (snd Offset)) ZeroRotator);
      [|reflexivity].
    cbn [map]. rewrite <- app_assoc. reflexivity.
Qed.

End RandomFacts.

(** The camera: nothing, or one camera actor. *)
Lemma CreateCamera_cases (Host : EditorHost) (Location : FVector)
    (Rotation : FRotator) (FocalLength : float) :
  (forall World, CreateCamera Host Location Rotation FocalLength World = (None, World)) \/
  (exists Actor, IsCineCamera Actor = true /\
     forall World, CreateCamera Host Location Rotation FocalLength World =
                     (Some Actor, (World ++ [Actor])%list)).
Proof.
  unfold CreateCamera. destruct (HasWorld Host); simpl; [|now left].
  destruct (SpawnActor Host StaticClass_CineCamera Location Rotation); [|now left].
  right. eexists. split; [|reflexivity]. reflexivity.
Qed.

Lemma CreateCamera_succeeds (Host : EditorHost) (Location : FVector)
    (Rotation : FRotator) (FocalLength : float) (World : UWorld) :
  HasWorld Host = true ->
  SpawnActor Host StaticClass_CineCamera Location Rotation = true ->
  HasCineCameraComponent Host = true ->
  CreateCamera Host Location Rotation FocalLength World =
    (Some (Camera Location Rotation FocalLength),
     (World ++ [Camera Location Rotation FocalLength])%list).
Proof. intros HW HS HC. unfold CreateCamera. now rewrite HW, HS, HC. Qed.

(** The light: nothing, or the key light. *)
Lemma SetupLighting_cases (Host : EditorHost) (Mood TimeOfDay : FString) :
  (forall World, SetupLighting Host Mood TimeOfDay World = World) \/
  (forall World, SetupLighting Host Mood TimeOfDay World =
     (World ++ [KeyLight (FMul (snd (ResolveLighting Mood TimeOfDay)) (FloatOfZ 1000))
                         (fst (ResolveLighting Mood TimeOfDay))])%list).
Proof.
  unfold SetupLighting. destruct (HasWorld Host); simpl; [|now left].
  destruct (ResolveLighting Mood TimeOfDay) as [LightColor Intensity].
  destruct (SpawnActor Host StaticClass_PointLight KeyLightLocation ZeroRotator);
    [now right|now left].
Qed.

Lemma SetupLighting_succeeds (Host : EditorHost) (Mood TimeOfDay : FString)
    (World : UWorld) :
  HasWorld Host = true ->
  SpawnActor Host StaticClass_PointLight KeyLightLocation ZeroRotator = true ->
  SetupLighting Host Mood TimeOfDay World =
    (World ++ [KeyLight (FMul (snd (ResolveLighting Mood TimeOfDay)) (FloatOfZ 1000))
                        (fst (ResolveLighting Mood TimeOfDay))])%list.
Proof.
  intros HW HS. unfold SetupLighting. rewrite HW. simpl.
  destruct (ResolveLighting Mood TimeOfDay) as [LightColor Intensity].
  now rewrite HS.
Qed.

(* ===================================================================== *)
(** * The scene built by [CreateSceneFromPanel]                           *)
(* ===================================================================== *)

Lemma TapeRandRange_contract : RandRangeContract TapeRandRange.
Proof.
  intros Min Max Random H. destruct Random as [|Raw Rest]; simpl; lia.
Qed.

Section SceneFacts.

Variable RandomStream : Type.
Variable RandRange : Z -> Z -> RandomStream -> Z * RandomStream.
Variable LeftToRight : bool.

Local Abbreviation CreateScene :=
  (CreateSceneFromPanel RandomStream RandRange LeftToRight).
Local Abbreviation Resolve :=
  (ResolveSceneParameters RandomStream RandRange LeftToRight).
Local Abbreviation Draw := (DrawObjectOffsets RandomStream RandRange LeftToRight).

(** Without an editor world nothing happens. *)
Lemma CreateSceneFromPanel_no_world (Host : EditorHost) (Panel : FStoryboardPanel)
    (State : UWorld * RandomStream) :
  HasWorld Host = false -> CreateScene Host Panel State = State.
Proof. intros H. unfold CreateSceneFromPanel. now rewrite H. Qed.

(** With a world the four steps run in order. *)
Lemma CreateSceneFromPanel_steps (Host : EditorHost) (Panel : FStoryboardPanel)
    (World : UWorld) (Random : RandomStream) :
  HasWorld Host = true ->
  CreateScene Host Panel (World, Random) =
    let Placed :=
      fold_left (PlaceObject RandomStream RandRange LeftToRight Host Panel) (Objects Panel)
        (fold_left (PlaceCharacter Host Panel) (LoopIndices (NumCharacters Panel)) World,
         Random) in
    (SetupLighting Host (Mood Panel) (TimeOfDay Panel)
       (snd (CreateCamera Host (CameraLocation Panel) (CameraRotation Panel)
                          SceneFocalLength (fst Placed))),
     snd Placed).
Proof.
  intros H. unfold CreateSceneFromPanel. rewrite H. cbn [negb]. cbv zeta.
  destruct (fold_left _ (Objects Panel) _) as [World2 Random2]. cbn [fst snd].
  destruct (CreateCamera _ _ _ _ World2) as [Actor World3]. reflexivity.
Qed.


(** On a cooperative host the actors added are the resolved parameters, one
    for one. *)
Lemma CreateSceneFromPanel_resolved (Host : EditorHost) (Panel : FStoryboardPanel)
    (World : UWorld) (Random : RandomStream) :
  Cooperative Host ->
  let Resolved := fst (Resolve Panel Random) in
  CreateScene Host Panel (World, Random) =
    ((World ++ map Cylinder (ResolvedCharacters Resolved)
            ++ map Cube (ResolvedObjects Resolved)
            ++ [Camera (ResolvedCameraLocation Resolved) (CameraRotation Panel)
                       SceneFocalLength;
                KeyLight (FMul (ResolvedIntensity Resolved) (FloatOfZ 1000))
                         (ResolvedLightColor Resolved)])%list,
     snd (Resolve Panel Random)).
Proof.
  intros HC. pose proof HC as (HW & _ & HS & HComp).
  rewrite CreateSceneFromPanel_steps by assumption. cbv zeta.
  rewrite PlaceCharacters_cooperative, PlaceObjects_cooperative by assumption.
  cbn [fst snd].
  rewrite CreateCamera_succeeds by (try assumption; apply HS). cbn [snd].
  rewrite SetupLighting_succeeds by (try assumption; apply HS).
  unfold ResolveSceneParameters.
  destruct (Draw (Objects Panel) Random) as [Offsets Random']. cbn.
  rewrite !map_map, <- !app_assoc. reflexivity.
Qed.

(** ** Object placement *)

Lemma Resolved_objects (Panel : FStoryboardPanel) (Random : RandomStream) :
  ResolvedObjects (fst (Resolve Panel Random)) =
    map (fun Offset => ObjectLocation Panel (fst Offset) (snd Offset))
        (fst (Draw (Objects Panel) Random)).
Proof.
  unfold ResolveSceneParameters.
  now destruct (Draw (Objects Panel) Random) as [Offsets Random'].
Qed.

Lemma Cube_in_square (Panel : FStoryboardPanel) (Random : RandomStream)
    (Offset : Z * Z) :
  RandRangeContract RandRange -> Int32 (Index Panel) ->
  In Offset (fst (Draw (Objects Panel) Random)) ->
  InBoundingSquare (SceneCenter Panel)
                   (ObjectLocation Panel (fst Offset) (snd Offset)).
Proof.
  intros HC HI HO.
  pose proof (DrawObjectOffsets_in_range RandomStream RandRange LeftToRight (Objects Panel) Random HC)
    as HR.
  rewrite Forall_forall in HR. specialize (HR Offset HO).
  apply ObjectLocation_in_square; [assumption|lia|lia].
Qed.

(** Which of the actors a call adds are cubes. *)
Lemma Cylinders_are_no_cubes (Panel : FStoryboardPanel) (Indices : list Z)
    (L : list AActor) :
  Forall (fun Actor => exists i, In i Indices /\
                                 Actor = Cylinder (CharLocation Panel i)) L ->
  filter IsCube L = [].
Proof. induction 1 as [|A L (i & _ & ->) _ IH]; [reflexivity|exact IH]. Qed.

Lemma Cubes_are_cubes (Places : list FVector) :
  filter IsCube (map Cube Places) = map Cube Places /\
  map Location (map Cube Places) = Places.
Proof.
  induction Places as [|Place Rest (IH1 & IH2)]; [now split|].
  cbn [map filter]. change (IsCube (Cube Place)) with true. cbv iota.
  rewrite IH1. cbn [Cube Location]. now rewrite IH2.
Qed.

Lemma filter_all {A : Type} (f : A -> bool) (l : list A) :
  (forall x, In x l -> f x = true) -> filter f l = l.
Proof.
  induction l as [|x l IH]; intros H; [reflexivity|].
  cbn [filter]. rewrite (H x) by now left. f_equal. apply IH.
  intros y Hy. apply H. now right.
Qed.

(** C8.  Let [FMath::RandRange] keep to its bounds and the panel index be an
    [int32].  Then, whichever of the two draws the compiler evaluates first,
    [CreateSceneFromPanel] chooses one location per entry of the object
    list, in the order of the list, and each lies in the bounding square
    around the scene centre: its offset from the centre lies in [-500, 500]
    along X and along Y and is 0 along Z.  The cubes the call adds to the
    world are, in that order, the cubes at those of the chosen locations
    where the host loads the cube asset and spawns the actor, and no other:
    every cube added lies in the square, and on a host that places every
    cube there is exactly one cube per entry, at the location chosen for
    it.  The resolved object locations are the chosen ones. *)
Theorem ObjectLocations_in_square (Host : EditorHost) (Panel : FStoryboardPanel)
    (World : UWorld) (Random : RandomStream) :
  RandRangeContract RandRange -> Int32 (Index Panel) ->
  let Places :=
    map (fun Offset => ObjectLocation Panel (fst Offset) (snd Offset))
        (fst (Draw (Objects Panel) Random)) in
  List.length Places = List.length (Objects Panel) /\
  Forall (InBoundingSquare (SceneCenter Panel)) Places /\
  ResolvedObjects (fst (Resolve Panel Random)) = Places /\
  exists Added,
    fst (CreateScene Host Panel (World, Random)) = (World ++ Added)%list /\
    filter IsCube Added =
      (if HasWorld Host then map Cube (filter (PlacesCube Host) Places) else []) /\
    (forall Actor, In Actor Added -> IsCube Actor = true ->
                   InBoundingSquare (SceneCenter Panel) (Location Actor)) /\
    (HasWorld Host = true ->
     (forall Place, In Place Places -> PlacesCube Host Place = true) ->
     map Location (filter IsCube Added) = Places).
Proof.
  intros HC HI Places.
  assert (Square : Forall (InBoundingSquare (SceneCenter Panel)) Places).
  { apply Forall_forall. intros L HL.
    apply in_map_iff in HL. destruct HL as (Offset & <- & HO).
    now apply (Cube_in_square Panel Random). }
  split; [|split; [exact Square|split; [apply Resolved_objects|]]].
  { unfold Places. rewrite length_map. apply DrawObjectOffsets_length. }
  assert (Added : exists Added,
            fst (CreateScene Host Panel (World, Random)) = (World ++ Added)%list /\
            filter IsCube Added =
              (if HasWorld Host then map Cube (filter (PlacesCube Host) Places)
               else [])).
  { destruct (HasWorld Host) eqn:HW.
    - destruct (PlaceCharacters_added Host Panel (LoopIndices (NumCharacters Panel)))
        as (Characters & EC & FC).
      assert (HCam : exists Cameras,
                filter IsCube Cameras = [] /\
                forall W, snd (CreateCamera Host (CameraLocation Panel)
                                 (CameraRotation Panel) SceneFocalLength W) =
                          (W ++ Cameras)%list).
      { destruct (CreateCamera_cases Host (CameraLocation Panel) (CameraRotation Panel)
                    SceneFocalLength) as [E|(Actor & HA & E)].
        - exists []. split; [reflexivity|]. intros W. now rewrite E, app_nil_r.
        - exists [Actor]. split; [|intros W; now rewrite E].
          cbn [filter]. unfold IsCineCamera in HA. unfold IsCube.
          now destruct (Kind Actor). }
      destruct HCam as (Cameras & KCam & ECam).
      assert (HL : exists Lights,
                filter IsCube Lights = [] /\
                forall W, SetupLighting Host (Mood Panel) (TimeOfDay Panel) W =
                          (W ++ Lights)%list).
      { destruct (SetupLighting_cases Host (Mood Panel) (TimeOfDay Panel)) as [E|E].
        - exists []. split; [reflexivity|]. intros W. now rewrite E, app_nil_r.
        - eexists. split; [|exact E]. reflexivity. }
      destruct HL as (Lights & KL & EL).
      exists (Characters ++ map Cube (filter (PlacesCube Host) Places)
                ++ Cameras ++ Lights)%list.
      split.
      + rewrite CreateSceneFromPanel_steps by assumption. cbv zeta.
        rewrite EC, (PlaceObjects_exact RandomStream RandRange LeftToRight).
        cbn [fst]. rewrite ECam, EL. now rewrite <- !app_assoc.
      + rewrite !filter_app, (Cylinders_are_no_cubes Panel _ _ FC), KCam, KL.
        rewrite (proj1 (Cubes_are_cubes _)). cbn [app]. now rewrite !app_nil_r.
    - exists []. split; [|reflexivity].
      rewrite CreateSceneFromPanel_no_world by assumption. simpl.
      now rewrite app_nil_r. }
  destruct Added as (Added & E & F). exists Added.
  split; [exact E|]. split; [exact F|]. split.
  - intros Actor HIn HCube.
    assert (HF : In Actor (filter IsCube Added)) by (apply filter_In; now split).
    rewrite F in HF. destruct (HasWorld Host); [|destruct HF].
    apply in_map_iff in HF. destruct HF as (Place & <- & HP).
    apply filter_In in HP. destruct HP as (HP & _).
    rewrite Forall_forall in Square. now apply Square.
  - intros HW All. rewrite F, HW, (filter_all _ _ All).
    apply Cubes_are_cubes.
Qed.

(** ** The camera *)

(** C9, as the code has it.  Let the panel index be an [int32], the editor
    world be available, and the host spawn the camera with its camera
    component.  Then [CreateSceneFromPanel] adds exactly one camera, after
    the characters and objects and before the light.  Its focal length is
    50 whatever the panel says; its location is the scene centre moved by
    minus the camera distance along X and by +160 along Z, the distance
    being 200, 1000 or 500 by the shot type; its rotation is that of the
    vector (distance, 0, -160), which leads from the camera to the scene
    centre. *)
Theorem CreateSceneFromPanel_camera (Host : EditorHost) (Panel : FStoryboardPanel)
    (World : UWorld) (Random : RandomStream) :
  Int32 (Index Panel) ->
  HasWorld Host = true ->
  SpawnActor Host StaticClass_CineCamera (CameraLocation Panel) (CameraRotation Panel)
    = true ->
  HasCineCameraComponent Host = true ->
  let Center := SceneCenter Panel in
  let Distance := CameraDistance (ShotType Panel) in
  let Place := MakeVector (X Center - Distance) 0 160 in
  let Direction := MakeVector Distance 0 (-160) in
  In Distance [200; 1000; 500] /\
  MakeVector (X Place + X Direction) (Y Place + Y Direction) (Z_ Place + Z_ Direction)
    = Center /\
  exists Before After,
    fst (CreateScene Host Panel (World, Random)) =
      (World ++ Before ++ [Camera Place (Rotation Direction) (FloatOfZ 50)] ++ After)%list /\
    Forall (fun Actor => IsCineCamera Actor = false) Before /\
    Forall (fun Actor => IsCineCamera Actor = false) After.
Proof.
  intros HI HW HS HComp. cbv zeta.
  split; [apply CameraDistance_values|]. split.
  - destruct (SceneCenter_components Panel HI) as (_ & HY & HZ).
    destruct (SceneCenter Panel) as [cx cy cz]. cbn [X Y Z_] in *. subst.
    f_equal. lia.
  - destruct (PlaceCharacters_added Host Panel (LoopIndices (NumCharacters Panel)))
      as (Characters & EC & FC).
    destruct (PlaceObjects_added RandomStream RandRange LeftToRight Host Panel (Objects Panel) Random)
      as (Cubes & EO & FO).
    exists (Characters ++ Cubes)%list.
    destruct (SetupLighting_cases Host (Mood Panel) (TimeOfDay Panel)) as [EL|EL];
      [exists []|eexists]; (split; [|split]).
    all: try (rewrite CreateSceneFromPanel_steps by assumption; cbv zeta; cbn [fst];
              rewrite EC, EO; cbn [fst];
              rewrite CreateCamera_succeeds by assumption; cbn [snd];
              rewrite EL, <- (CameraLocation_exact Panel HI),
                      <- (CameraRotation_exact Panel HI);
              rewrite <- ?app_assoc; reflexivity).
    all: try (apply Forall_app; split;
              [eapply Forall_impl; [|exact FC]; now intros A (i & _ & ->)
              |eapply Forall_impl; [|exact FO]; now intros A (o & _ & ->)]).
    + constructor.
    + now repeat constructor.
Qed.

(** ** Determinism *)


End SceneFacts.

(** C8 at panel 2 with two objects, on a cooperative host and the generator
    that draws 700, -30, 0 and 12: the first draw is brought back to 500,
    and the call adds one cube per object, both in the square around
    (4000, 0, 0). *)
Lemma ObjectLocations_in_square_witness :
  exists Added : list AActor,
    fst (CreateSceneFromPanel Tape TapeRandRange true CooperativeHost
           (MakePanel "" 2 "" 0 ["crate"; "lamp"] "" "")
           ([], [700; -30; 0; 12])) = Added /\
    filter IsCube Added =
      [Cube (MakeVector 4500 (-30) 0); Cube (MakeVector 4000 12 0)] /\
    forall Actor, In Actor Added -> IsCube Actor = true ->
      InBoundingSquare (MakeVector 4000 0 0) (Location Actor).
Proof.
  pose (Panel := MakePanel "" 2 "" 0 ["crate"; "lamp"] "" "").
  assert (HI : Int32 (Index Panel)) by (unfold Int32; simpl; lia).
  destruct (ObjectLocations_in_square Tape TapeRandRange true CooperativeHost
              Panel [] [700; -30; 0; 12] TapeRandRange_contract HI)
    as (_ & _ & _ & Added & E & F & S & _).
  exists Added. split; [exact E|]. split; [exact F|exact S].
Defined.

(** C9 at panel 1 with a close shot, on a cooperative host. *)
Lemma CreateSceneFromPanel_camera_witness :
  exists Before After,
    fst (CreateSceneFromPanel Tape TapeRandRange true CooperativeHost
           (MakePanel "" 1 "close" 0 [] "" "") ([], [])) =
      (Before ++ [Camera (MakeVector 1800 0 160) (Rotation (MakeVector 200 0 (-160)))
                         (FloatOfZ 50)] ++ After)%list.
Proof.
  pose (Panel := MakePanel "" 1 "close" 0 [] "" "").
  assert (HI : Int32 (Index Panel)) by (unfold Int32; simpl; lia).
  destruct (CreateSceneFromPanel_camera Tape TapeRandRange true CooperativeHost Panel [] []
              HI eq_refl eq_refl eq_refl) as (_ & _ & Before & After & E & _).
  exists Before, After. exact E.
Defined.

(** C9, as stated, fails: without an editor world no camera is created. *)
Lemma CreateSceneFromPanel_without_world :
  filter IsCineCamera
    (fst (CreateSceneFromPanel Tape TapeRandRange true WorldlessHost
            (MakePanel "" 1 "close" 0 [] "" "") ([], []))) = [].
Proof. reflexivity. Qed.


(* ===================================================================== *)
(** * The key light                                                       *)
(* ===================================================================== *)

Lemma ResolveLighting_intensity (Mood TimeOfDay : FString) :
  snd (ResolveLighting Mood TimeOfDay) =
    FloatLiteral (BaseTable EqualsIgnoreCase TimeOfDay *
                  MultiplierTable EqualsIgnoreCase Mood) 10.
Proof.
  pose proof (BaseTable_values EqualsIgnoreCase TimeOfDay) as HB.
  pose proof (MultiplierTable_values EqualsIgnoreCase Mood) as HM.
  unfold ResolveLighting. rewrite TimeOfDayLight_table. cbn [snd].
  rewrite ApplyMood_table by assumption. now apply FMul_table_exact.
Qed.

(** Scaling by 1000 is exact on the intensities of the table, and changes
    each of them. *)
Lemma KeyLight_scaling (Base Tenths : Z) :
  In Base [1; 2; 3] -> In Tenths [5; 10; 15] ->
  FMul (FloatLiteral (Base * Tenths) 10) (FloatOfZ 1000) =
    FloatOfZ (Base * Tenths * 100) /\
  FMul (FloatLiteral (Base * Tenths) 10) (FloatOfZ 1000) <>
    FloatLiteral (Base * Tenths) 10.
Proof.
  intros HB HT.
  destruct HB as [<-|[<-|[<-|[]]]]; destruct HT as [<-|[<-|[<-|[]]]];
    (split; [reflexivity|vm_compute; discriminate]).
Qed.

(** C10, as the code has it.  Let the editor world be available and the
    host spawn the light.  Then for every (mood, time of day)
    [SetupLighting] adds exactly one actor, a point light at
    (-500, -500, 500) whatever the inputs, carrying the resolved colour
    unscaled and the resolved intensity multiplied by 1000.  The scaling is
    exact and the scaled intensity differs from the resolved one. *)
Theorem SetupLighting_key_light (Host : EditorHost) (Mood TimeOfDay : FString)
    (World : UWorld) :
  HasWorld Host = true ->
  SpawnActor Host StaticClass_PointLight KeyLightLocation ZeroRotator = true ->
  let LightColor := fst (ResolveLighting Mood TimeOfDay) in
  let Intensity := snd (ResolveLighting Mood TimeOfDay) in
  SetupLighting Host Mood TimeOfDay World =
    (World ++ [MakeActor (PointLight (FMul Intensity (FloatOfZ 1000)) LightColor)
                         (MakeVector (-500) (-500) 500) ZeroRotator
                         [TEXT "StoryboardLight"]])%list /\
  FMul Intensity (FloatOfZ 1000) =
    FloatOfZ (BaseTable EqualsIgnoreCase TimeOfDay *
              MultiplierTable EqualsIgnoreCase Mood * 100) /\
  FMul Intensity (FloatOfZ 1000) <> Intensity.
Proof.
  intros HW HS. cbv zeta. split.
  - now apply SetupLighting_succeeds.
  - rewrite ResolveLighting_intensity. apply KeyLight_scaling.
    + apply BaseTable_values.
    + apply MultiplierTable_values.
Qed.

(** C10 on a cooperative host, for a dark night: intensity 0.5 x 1000. *)
Lemma SetupLighting_key_light_witness :
  SetupLighting CooperativeHost (TEXT "dark") (TEXT "night") [] =
    [MakeActor (PointLight (FloatOfZ 500)
                  (LinearColor (FloatLiteral 4 10) (FloatLiteral 5 10) (FloatLiteral 7 10)))
               (MakeVector (-500) (-500) 500) ZeroRotator [TEXT "StoryboardLight"]].
Proof.
  exact (proj1 (SetupLighting_key_light CooperativeHost (TEXT "dark") (TEXT "night") []
                  eq_refl eq_refl)).
Defined.

(** C10, as stated, fails: without an editor world no light is spawned. *)
Lemma SetupLighting_without_world :
  List.length (filter IsPointLight
                 (SetupLighting WorldlessHost (TEXT "dark") (TEXT "night") [])) <> 1%nat.
Proof. simpl. discriminate. Qed.

(* ===================================================================== *)
(** * Sequence naming                                                     *)
(* ===================================================================== *)

Lemma Printf_d_not_empty (z : Z) : (1 <= String.length (Printf_d z))%nat.
Proof.
  unfold Printf_d. destruct (Z.to_int z) as [d|d]; simpl.
  - destruct d; simpl; lia.
  - lia.
Qed.

Lemma Printf_02d_width (z : Z) : (2 <= String.length (Printf_02d z))%nat.
Proof.
  unfold Printf_02d. pose proof (Printf_d_not_empty z) as H.
  destruct (Nat.ltb_spec (String.length (Printf_d z)) 2) as [L|L]; [|exact L].
  simpl. lia.
Qed.

(** Indices 0 to 99 are written with two digits. *)
Lemma Printf_02d_two_digits (z : Z) :
  0 <= z <= 99 ->
  Printf_02d z = String (DigitChar (z / 10)) (String (DigitChar (z mod 10)) "").
Proof.
  intros H.
  assert (All : forallb (fun i => String.eqb (Printf_02d i)
                  (String (DigitChar (i / 10)) (String (DigitChar (i mod 10)) "")))
                (LoopIndices 100) = true) by (vm_compute; reflexivity).
  rewrite forallb_forall in All. apply String.eqb_eq, All, LoopIndices_In. lia.
Qed.

(** C6, as the code has it.  The sequence is named Panel_<index>_Sequence,
    the index in decimal, padded with zeros to at least two characters, and
    it lives in the package /Game/StoryboardSequences/<name>, which is the
    one saved.  For an index from 0 to 99 the index field is the two digits
    of the index; index 3 gives Panel_03_Sequence. *)
Theorem SequenceName_convention (Host : EditorHost) (Panel : FStoryboardPanel)
    (Duration : float) (Saved : list FString) :
  let Field := Printf_02d (Index Panel) in
  SequenceName Panel = "Panel_" ++ Field ++ "_Sequence" /\
  PackagePath Panel = "/Game/StoryboardSequences/" ++ SequenceName Panel /\
  (2 <= String.length Field)%nat /\
  (0 <= Index Panel <= 99 ->
     Field = String (DigitChar (Index Panel / 10))
                    (String (DigitChar (Index Panel mod 10)) "")) /\
  (Index Panel = 3 -> SequenceName Panel = "Panel_03_Sequence") /\
  (NewObject Host (SequenceName Panel) = true ->
     CreateSequenceForPanel Host Panel Duration Saved =
       (Some (MakeSequence (SequenceName Panel) (PackagePath Panel)),
        (Saved ++ [PackagePath Panel])%list)).
Proof.
  cbv zeta. repeat split.
  - apply Printf_02d_width.
  - apply Printf_02d_two_digits.
  - unfold SequenceName. now intros ->.
  - intros H. unfold CreateSequenceForPanel. now rewrite H.
Qed.

Lemma SequenceName_convention_witness :
  SequenceName (PanelAt 3) = "Panel_03_Sequence" /\
  PackagePath (PanelAt 3) = "/Game/StoryboardSequences/Panel_03_Sequence".
Proof.
  destruct (SequenceName_convention CooperativeHost (PanelAt 3) (FloatOfZ 5) [])
    as (_ & P & _ & _ & N & _).
  specialize (N eq_refl). split; [exact N|]. rewrite P, N. reflexivity.
Defined.

(** C6, as stated, fails: at index 100 the index field has three digits. *)
Lemma SequenceName_of_100 :
  SequenceName (PanelAt 100) = "Panel_100_Sequence" /\
  ~ (exists d1 d2 : ascii,
       SequenceName (PanelAt 100) = "Panel_" ++ String d1 (String d2 "") ++ "_Sequence").
Proof.
  split; [reflexivity|]. intros (d1 & d2 & H). vm_compute in H. discriminate H.
Qed.

(* ===================================================================== *)
(** * Texture utilities                                                   *)
(* ===================================================================== *)

(** C7.  [SaveTextureToFile] returns false for every texture, null
    included, and every file path; [LoadTextureFromFile] returns null for
    every file path.  Neither touches the editor or a file: they are pure
    functions of their arguments. *)
Theorem Texture_stubs (Texture : option UTexture2D) (FilePath : FString) :
  SaveTextureToFile Texture FilePath = false /\
  LoadTextureFromFile FilePath = None.
Proof. split; [now destruct Texture|reflexivity]. Qed.

(* ===================================================================== *)
(** * The scene as a whole                                                *)
(* ===================================================================== *)

Import Census Reading AssetRegistry Style.

(** ** What one call adds *)

Lemma PlaceCharacters_bounded (Host : EditorHost) (Panel : FStoryboardPanel)
    (Indices : list Z) :
  exists Added,
    (forall World,
       fold_left (PlaceCharacter Host Panel) Indices World = (World ++ Added)%list) /\
    (List.length Added <= List.length Indices)%nat /\
    Forall (fun Actor => exists i, In i Indices /\
                                   Actor = Cylinder (CharLocation Panel i)) Added.
Proof.
  induction Indices as [|i Rest (Added & E & L & F)].
  - exists []. split; [intros; now rewrite app_nil_r|]. split; [simpl; lia|constructor].
  - assert (F' : Forall (fun Actor => exists j, In j (i :: Rest) /\
                           Actor = Cylinder (CharLocation Panel j)) Added).
    { eapply Forall_impl; [|exact F]. intros A (j & Hj & ->).
      exists j. split; [now right|reflexivity]. }
    destruct (PlaceActorInScene_cases Host (TEXT "/Engine/BasicShapes/Cylinder")
                (CharLocation Panel i) ZeroRotator) as [C|C].
    + exists Added. split; [|split; [simpl; lia|exact F']].
      intros World. cbn [fold_left]. unfold PlaceCharacter at 2. now rewrite C, E.
    + exists (Cylinder (CharLocation Panel i) :: Added). split; [|split].
      * intros World. cbn [fold_left]. unfold PlaceCharacter at 2.
        rewrite C, E, <- app_assoc. reflexivity.
      * simpl. lia.
      * constructor; [|exact F']. exists i. split; [now left|reflexivity].
Qed.

Section CensusFacts.

Variable RandomStream : Type.
Variable RandRange : Z -> Z -> RandomStream -> Z * RandomStream.
Variable LeftToRight : bool.

Local Abbreviation CreateScene :=
  (CreateSceneFromPanel RandomStream RandRange LeftToRight).
Local Abbreviation Draw := (DrawObjectOffsets RandomStream RandRange LeftToRight).
Local Abbreviation DrawOne := (DrawOffset RandomStream RandRange LeftToRight).
Local Abbreviation PlaceOne := (PlaceObject RandomStream RandRange LeftToRight).

Lemma PlaceObjects_bounded (Host : EditorHost) (Panel : FStoryboardPanel)
    (Objects : list FString) (Random : RandomStream) :
  exists Added,
    (forall World,
       fold_left (PlaceOne Host Panel) Objects (World, Random) =
         ((World ++ Added)%list, snd (Draw Objects Random))) /\
    (List.length Added <= List.length Objects)%nat /\
    Forall (fun Actor => exists Offset,
              In Offset (fst (Draw Objects Random)) /\
              Actor = Cube (ObjectLocation Panel (fst Offset) (snd Offset))) Added.
Proof.
  revert Random. induction Objects as [|O Rest IH]; intros Random.
  - exists []. split; [intros; simpl; now rewrite app_nil_r|].
    split; [simpl; lia|constructor].
  - cbn [DrawObjectOffsets].
    destruct (DrawOne Random) as [Offset Random2] eqn:EO.
    destruct (IH Random2) as (Added & E & L & F).
    destruct (Draw Rest Random2) as [Offsets Random'] eqn:ED.
    cbn [fst snd] in *.
    assert (F' : Forall (fun Actor => exists Offset',
                   In Offset' (Offset :: Offsets) /\
                   Actor = Cube (ObjectLocation Panel (fst Offset') (snd Offset'))) Added).
    { eapply Forall_impl; [|exact F]. intros A (o & Ho & ->).
      exists o. split; [now right|reflexivity]. }
    destruct (PlaceActorInScene_cases Host (TEXT "/Engine/BasicShapes/Cube")
                (ObjectLocation Panel (fst Offset) (snd Offset)) ZeroRotator) as [C|C].
    + exists Added. split; [|split; [simpl; lia|exact F']].
      intros World. cbn [fold_left]. unfold PlaceObject at 2.
      now rewrite EO, C, E.
    + exists (Cube (ObjectLocation Panel (fst Offset) (snd Offset)) :: Added).
      split; [|split].
      * intros World. cbn [fold_left]. unfold PlaceObject at 2.
        rewrite EO, C, E, <- app_assoc. reflexivity.
      * simpl. lia.
      * constructor; [|exact F']. exists Offset. split; [now left|reflexivity].
Qed.

(** What one call adds, group by group. *)
Lemma CreateSceneFromPanel_groups (Host : EditorHost) (Panel : FStoryboardPanel)
    (World : UWorld) (Random : RandomStream) :
  exists Characters Cubes Cameras Lights,
    fst (CreateScene Host Panel (World, Random)) =
      (World ++ Characters ++ Cubes ++ Cameras ++ Lights)%list /\
    (HasWorld Host = false ->
       Characters = [] /\ Cubes = [] /\ Cameras = [] /\ Lights = []) /\
    (List.length Characters <= Z.to_nat (NumCharacters Panel))%nat /\
    Forall (fun Actor => exists i, 0 <= i < NumCharacters Panel /\
                                   Actor = Cylinder (CharLocation Panel i)) Characters /\
    (List.length Cubes <= List.length (Objects Panel))%nat /\
    Forall (fun Actor => exists Offset,
              In Offset (fst (Draw (Objects Panel) Random)) /\
              Actor = Cube (ObjectLocation Panel (fst Offset) (snd Offset))) Cubes /\
    (Cameras = [] \/
     Cameras = [CameraOn Host (CameraLocation Panel) (CameraRotation Panel)
                         SceneFocalLength]) /\
    (Lights = [] \/
     Lights = [KeyLight (FMul (snd (ResolveLighting (Mood Panel) (TimeOfDay Panel)))
                              (FloatOfZ 1000))
                        (fst (ResolveLighting (Mood Panel) (TimeOfDay Panel)))]) /\
    (Cooperative Host ->
       List.length Characters = Z.to_nat (NumCharacters Panel) /\
       List.length Cubes = List.length (Objects Panel) /\
       Cameras <> [] /\ Lights <> []).
Proof.
  destruct (HasWorld Host) eqn:HW.
  - destruct (PlaceCharacters_bounded Host Panel (LoopIndices (NumCharacters Panel)))
      as (Characters & EC & LC & FC).
    destruct (PlaceObjects_bounded Host Panel (Objects Panel) Random)
      as (Cubes & EO & LO & FO).
    assert (HCam : exists Cameras,
              (Cameras = [] \/
               Cameras = [CameraOn Host (CameraLocation Panel) (CameraRotation Panel)
                                   SceneFocalLength]) /\
              forall W, snd (CreateCamera Host (CameraLocation Panel)
                               (CameraRotation Panel) SceneFocalLength W) =
                        (W ++ Cameras)%list).
    { unfold CreateCamera. rewrite HW. cbn [negb].
      destruct (SpawnActor Host StaticClass_CineCamera _ _).
      - eexists. split; [right; reflexivity|]. intros W. reflexivity.
      - exists []. split; [now left|]. intros W. simpl. now rewrite app_nil_r. }
    destruct HCam as (Cameras & FCam & ECam).
    assert (Full : Cooperative Host ->
              List.length Characters = Z.to_nat (NumCharacters Panel) /\
              List.length Cubes = List.length (Objects Panel) /\
              Cameras <> []).
    { intros HC. pose proof HC as (_ & _ & HS & _). split; [|split].
      - specialize (EC []). rewrite PlaceCharacters_cooperative in EC by assumption.
        cbn [app] in EC. rewrite <- EC, length_map. apply LoopIndices_length.
      - specialize (EO []).
        rewrite (PlaceObjects_cooperative RandomStream RandRange LeftToRight) in EO
          by assumption.
        cbn [app] in EO. injection EO as EO. rewrite <- EO, length_map.
        apply DrawObjectOffsets_length.
      - specialize (ECam []). unfold CreateCamera in ECam.
        rewrite HW, HS in ECam. cbn in ECam. intros ->. discriminate ECam. }
    assert (HL : exists Lights,
              (Lights = [] \/
               Lights = [KeyLight (FMul (snd (ResolveLighting (Mood Panel) (TimeOfDay Panel)))
                                        (FloatOfZ 1000))
                                  (fst (ResolveLighting (Mood Panel) (TimeOfDay Panel)))]) /\
              forall W, SetupLighting Host (Mood Panel) (TimeOfDay Panel) W =
                        (W ++ Lights)%list).
    { destruct (SetupLighting_cases Host (Mood Panel) (TimeOfDay Panel)) as [E|E].
      - exists []. split; [now left|]. intros W. now rewrite E, app_nil_r.
      - eexists. split; [right; reflexivity|exact E]. }
    destruct HL as (Lights & FL & EL).
    exists Characters, Cubes, Cameras, Lights.
    split; [|split; [discriminate|split; [|split; [|split; [|split; [|split; [|split]]]]]]];
      try assumption.
    + rewrite CreateSceneFromPanel_steps by assumption. cbv zeta. cbn [fst].
      rewrite EC, EO. cbn [fst]. rewrite ECam, EL. now rewrite <- !app_assoc.
    + now rewrite LoopIndices_length in LC.
    + eapply Forall_impl; [|exact FC]. intros A (i & Hi & ->).
      exists i. split; [now apply LoopIndices_In|reflexivity].
    + intros HC. destruct (Full HC) as (F1 & F2 & F3).
      repeat split; try assumption.
      pose proof HC as (_ & _ & HS & _). specialize (EL []).
      rewrite SetupLighting_succeeds in EL by (try assumption; apply HS).
      cbn [app] in EL. intros ->. discriminate EL.
  - exists [], [], [], []. rewrite CreateSceneFromPanel_no_world by assumption.
    cbn [fst]. rewrite !app_nil_r.
    split; [reflexivity|]. split; [now intros _|].
    split; [simpl; lia|]. split; [constructor|].
    split; [simpl; lia|]. split; [constructor|]. split; [now left|].
    split; [now left|]. intros (HW' & _). congruence.
Qed.


(** How the groups answer the four kind tests. *)
Lemma Cylinders_kinds (Panel : FStoryboardPanel) (L : list AActor) :
  Forall (fun Actor => exists i, 0 <= i < NumCharacters Panel /\
                                 Actor = Cylinder (CharLocation Panel i)) L ->
  filter IsCylinder L = L /\ filter IsCube L = [] /\
  filter IsCineCamera L = [] /\ filter IsPointLight L = [].
Proof.
  induction 1 as [|A L (i & _ & ->) _ (E1 & E2 & E3 & E4)]; [now repeat split|].
  cbn. now rewrite E1, E2, E3, E4.
Qed.

Lemma Cubes_kinds (Panel : FStoryboardPanel) (Offsets : list (Z * Z))
    (L : list AActor) :
  Forall (fun Actor => exists Offset,
            In Offset Offsets /\
            Actor = Cube (ObjectLocation Panel (fst Offset) (snd Offset))) L ->
  filter IsCylinder L = [] /\ filter IsCube L = L /\
  filter IsCineCamera L = [] /\ filter IsPointLight L = [].
Proof.
  induction 1 as [|A L (o & _ & ->) _ (E1 & E2 & E3 & E4)]; [now repeat split|].
  cbn. now rewrite E1, E2, E3, E4.
Qed.

(** X1.  [CreateSceneFromPanel] only adds.  The actors already in the world stay
    as they are, in their order; what is added after them is at most
    [NumCharacters] cylinders (none for a count of zero or below), at most
    one cube per entry of [Objects], at most one camera and at most one
    light, and nothing else; nothing at all without an editor world; and
    exactly those numbers on a host that grants every request. *)
Theorem CreateSceneFromPanel_census (Host : EditorHost) (Panel : FStoryboardPanel)
    (World : UWorld) (Random : RandomStream) :
  exists Added,
    fst (CreateScene Host Panel (World, Random)) = (World ++ Added)%list /\
    let Count := fun Is : AActor -> bool => List.length (filter Is Added) in
    (Count IsCylinder <= Z.to_nat (NumCharacters Panel))%nat /\
    (NumCharacters Panel <= 0 -> Count IsCylinder = 0%nat) /\
    (Count IsCube <= List.length (Objects Panel))%nat /\
    (Count IsCineCamera <= 1)%nat /\
    (Count IsPointLight <= 1)%nat /\
    List.length Added =
      (Count IsCylinder + Count IsCube + Count IsCineCamera + Count IsPointLight)%nat /\
    (HasWorld Host = false -> Added = []) /\
    (Cooperative Host ->
       Count IsCylinder = Z.to_nat (NumCharacters Panel) /\
       Count IsCube = List.length (Objects Panel) /\
       Count IsCineCamera = 1%nat /\ Count IsPointLight = 1%nat).
Proof.
  destruct (CreateSceneFromPanel_groups Host Panel World Random)
    as (Characters & Cubes & Cameras & Lights & E & NoWorld & LC & FC & LO & FO
        & HCam & HL & Full).
  exists (Characters ++ Cubes ++ Cameras ++ Lights)%list. split; [exact E|].
  destruct (Cylinders_kinds Panel Characters FC) as (C1 & C2 & C3 & C4).
  destruct (Cubes_kinds Panel _ Cubes FO) as (O1 & O2 & O3 & O4).
  assert (KCam : filter IsCylinder Cameras = [] /\ filter IsCube Cameras = [] /\
                 filter IsCineCamera Cameras = Cameras /\
                 filter IsPointLight Cameras = [])
    by (destruct HCam as [->| ->]; now repeat split).
  assert (KL : filter IsCylinder Lights = [] /\ filter IsCube Lights = [] /\
               filter IsCineCamera Lights = [] /\ filter IsPointLight Lights = Lights)
    by (destruct HL as [->| ->]; now repeat split).
  destruct KCam as (M1 & M2 & M3 & M4). destruct KL as (L1 & L2 & L3 & L4).
  assert (NCam : (List.length Cameras <= 1)%nat)
    by (destruct HCam as [->| ->]; simpl; lia).
  assert (NL : (List.length Lights <= 1)%nat)
    by (destruct HL as [->| ->]; simpl; lia).
  cbv beta zeta. rewrite !filter_app.
  rewrite C1, C2, C3, C4, O1, O2, O3, O4, M1, M2, M3, M4, L1, L2, L3, L4.
  cbn [app]. rewrite !app_nil_r, !length_app.
  repeat split; try lia.
  - intros HW. destruct (NoWorld HW) as (-> & -> & -> & ->). reflexivity.
  - now apply Full.
  - now apply Full.
  - destruct (Full H) as (_ & _ & N & _).
    destruct HCam as [->| ->]; [contradiction|reflexivity].
  - destruct (Full H) as (_ & _ & _ & N).
    destruct HL as [->| ->]; [contradiction|reflexivity].
Qed.

(** X2.  Every actor [CreateSceneFromPanel] adds carries one tag, decided by
    what the actor is: StoryboardGenerated on cylinders and cubes,
    StoryboardCamera on the camera, StoryboardLight on the light.  Only the
    camera is rotated. *)
Theorem CreateSceneFromPanel_tags (Host : EditorHost) (Panel : FStoryboardPanel)
    (World : UWorld) (Random : RandomStream) :
  exists Added,
    fst (CreateScene Host Panel (World, Random)) = (World ++ Added)%list /\
    Forall (fun Actor =>
              Tags Actor = [TagOfKind (Kind Actor)] /\
              ((IsCylinder Actor || IsCube Actor)%bool = true <->
                 Tags Actor = [TEXT "StoryboardGenerated"]) /\
              (IsCineCamera Actor = true <-> Tags Actor = [TEXT "StoryboardCamera"]) /\
              (IsPointLight Actor = true <-> Tags Actor = [TEXT "StoryboardLight"]) /\
              (IsCineCamera Actor = false -> ActorRotation Actor = ZeroRotator))
           Added.
Proof.
  destruct (CreateSceneFromPanel_groups Host Panel World Random)
    as (Characters & Cubes & Cameras & Lights & E & _ & _ & FC & _ & FO
        & HCam & HL & _).
  exists (Characters ++ Cubes ++ Cameras ++ Lights)%list. split; [exact E|].
  repeat (apply Forall_app; split).
  - eapply Forall_impl; [|exact FC]. intros A (i & _ & ->).
    cbn. repeat split; try reflexivity; try discriminate.
  - eapply Forall_impl; [|exact FO]. intros A (o & _ & ->).
    cbn. repeat split; try reflexivity; try discriminate.
  - destruct HCam as [->| ->]; constructor; [|constructor].
    cbn. repeat split; try reflexivity; try discriminate.
  - destruct HL as [->| ->]; constructor; [|constructor].
    cbn. repeat split; try reflexivity; try discriminate.
Qed.

(** Drawing the offsets of [n] objects advances the generator by [2 n]
    draws. *)
Lemma DrawObjectOffsets_state (Objects : list FString) (Random : RandomStream) :
  snd (Draw Objects Random) =
    AfterDraws RandRange (2 * List.length Objects) Random.
Proof.
  revert Random. induction Objects as [|O Rest IH]; intros Random; [reflexivity|].
  cbn [DrawObjectOffsets]. unfold DrawOffset.
  destruct (RandRange (-500) 500 Random) as [First Random1] eqn:E1.
  destruct (RandRange (-500) 500 Random1) as [Second Random2] eqn:E2.
  specialize (IH Random2). destruct (Draw Rest Random2) as [Offsets Random'].
  cbn [snd] in *. rewrite IH. unfold AfterDraws.
  replace (2 * List.length (O :: Rest))%nat
    with (2 * List.length Rest + 2)%nat by (simpl; lia).
  rewrite Nat.iter_add. change (Nat.iter 2 ?f ?x) with (f (f x)). cbv beta.
  rewrite E1. cbn [snd]. now rewrite E2.
Qed.

(** X3.  The random generator is advanced by two draws of
    [FMath::RandRange(-500, 500)] per entry of [Objects], whether or not the
    cubes could be placed, and is left alone without an editor world. *)
Theorem CreateSceneFromPanel_draws (Host : EditorHost) (Panel : FStoryboardPanel)
    (World : UWorld) (Random : RandomStream) :
  snd (CreateScene Host Panel (World, Random)) =
    if HasWorld Host
    then AfterDraws RandRange (2 * List.length (Objects Panel)) Random
    else Random.
Proof.
  destruct (HasWorld Host) eqn:HW.
  - rewrite CreateSceneFromPanel_steps by assumption. cbv zeta. cbn [snd].
    destruct (PlaceObjects_bounded Host Panel (Objects Panel) Random) as (Cubes & EO & _).
    rewrite EO. cbn [snd]. apply DrawObjectOffsets_state.
  - now rewrite CreateSceneFromPanel_no_world.
Qed.


(** ** Where the actors of a scene are *)

(** A character stands on the line through the scene centre along Y. *)
Lemma CharLocation_X (Panel : FStoryboardPanel) (i : Z) :
  Int32 (Index Panel) ->
  X (CharLocation Panel i) = X (SceneCenter Panel) /\ Z_ (CharLocation Panel i) = 0.
Proof.
  intros HI. destruct (SceneCenter_components Panel HI) as (HX & _ & HZ).
  unfold CharLocation, FVector_add, DoubleAdd. cbn [X Y Z_]. rewrite HZ.
  change (2 ^ 44) with 17592186044416 in HX.
  rewrite !RoundToDouble_small by (change (2 ^ 53) with 9007199254740992; lia).
  split; [lia|reflexivity].
Qed.

(** Cylinders, cubes and camera lie in the slab from 1000 before to 500
    after the scene centre along X. *)
Lemma Groups_in_slab (Host : EditorHost) (Panel : FStoryboardPanel)
    (Random : RandomStream) (Characters Cubes Cameras : list AActor) :
  RandRangeContract RandRange -> Int32 (Index Panel) ->
  Forall (fun Actor => exists i, 0 <= i < NumCharacters Panel /\
                                 Actor = Cylinder (CharLocation Panel i)) Characters ->
  Forall (fun Actor => exists Offset,
            In Offset (fst (Draw (Objects Panel) Random)) /\
            Actor = Cube (ObjectLocation Panel (fst Offset) (snd Offset))) Cubes ->
  (Cameras = [] \/
   Cameras = [CameraOn Host (CameraLocation Panel) (CameraRotation Panel)
                       SceneFocalLength]) ->
  Forall (fun Actor =>
            IsPointLight Actor = false /\
            X (SceneCenter Panel) - 1000 <= X (Location Actor)
              <= X (SceneCenter Panel) + 500 /\
            0 <= Z_ (Location Actor) <= 160)
         (Characters ++ Cubes ++ Cameras).
Proof.
  intros HC HI FC FO HCam. repeat (apply Forall_app; split).
  - eapply Forall_impl; [|exact FC]. intros A (i & _ & ->).
    destruct (CharLocation_X Panel i HI) as (EX & EZ).
    cbn [Cylinder Location]. rewrite EX, EZ. repeat split; lia.
  - pose proof (DrawObjectOffsets_in_range RandomStream RandRange LeftToRight
                  (Objects Panel) Random HC) as HR.
    rewrite Forall_forall in HR.
    eapply Forall_impl; [|exact FO]. intros A (o & Ho & ->).
    destruct (HR o Ho) as (Hx & Hy).
    cbn [Cube Location]. rewrite ObjectLocation_exact by assumption.
    cbn [X Z_]. repeat split; lia.
  - destruct HCam as [->| ->]; constructor; [|constructor].
    pose proof (CameraDistance_values (ShotType Panel)) as HD. simpl in HD.
    cbn [CameraOn Location]. rewrite CameraLocation_exact by assumption.
    cbn [X Z_]. repeat split; lia.
Qed.

(** X4.  Apart from the light, every actor added for a panel lies between 1000
    before and 500 after the scene centre along X, and between the ground
    and the camera height 160. *)
Theorem Scene_extent (Host : EditorHost) (Panel : FStoryboardPanel)
    (World : UWorld) (Random : RandomStream) :
  RandRangeContract RandRange -> Int32 (Index Panel) ->
  exists Added,
    fst (CreateScene Host Panel (World, Random)) = (World ++ Added)%list /\
    forall Actor, In Actor Added -> IsPointLight Actor = false ->
      X (SceneCenter Panel) - 1000 <= X (Location Actor)
        <= X (SceneCenter Panel) + 500 /\
      0 <= Z_ (Location Actor) <= 160.
Proof.
  intros HC HI.
  destruct (CreateSceneFromPanel_groups Host Panel World Random)
    as (Characters & Cubes & Cameras & Lights & E & _ & _ & FC & _ & FO
        & HCam & HL & _).
  exists (Characters ++ Cubes ++ Cameras ++ Lights)%list. split; [exact E|].
  pose proof (Groups_in_slab Host Panel Random _ _ _ HC HI FC FO HCam) as S.
  rewrite Forall_forall in S.
  intros A HA NotLight. rewrite !app_assoc in HA. apply in_app_or in HA.
  destruct HA as [HA|HA].
  - rewrite <- !app_assoc in HA. now apply S.
  - destruct HL as [->| ->]; [destruct HA|].
    destruct HA as [<-|[]]. discriminate NotLight.
Qed.

End CensusFacts.

(** X5.  Two panels whose indices differ, both within [MaxExactIndex]: the
    shapes and camera of the one with the smaller index all lie at least
    500 before those of the other along X, whatever the hosts, the worlds
    and the draws. *)
Theorem Scenes_apart (RandomStream : Type)
    (RandRange : Z -> Z -> RandomStream -> Z * RandomStream) (LeftToRight : bool)
    (HostP HostQ : EditorHost) (P Q : FStoryboardPanel)
    (WorldP WorldQ : UWorld) (RandomP RandomQ : RandomStream) :
  RandRangeContract RandRange ->
  - MaxExactIndex <= Index P <= MaxExactIndex ->
  - MaxExactIndex <= Index Q <= MaxExactIndex ->
  Index P < Index Q ->
  exists AddedP AddedQ,
    fst (CreateSceneFromPanel RandomStream RandRange LeftToRight HostP P
           (WorldP, RandomP)) = (WorldP ++ AddedP)%list /\
    fst (CreateSceneFromPanel RandomStream RandRange LeftToRight HostQ Q
           (WorldQ, RandomQ)) = (WorldQ ++ AddedQ)%list /\
    forall A B, In A AddedP -> In B AddedQ ->
      IsPointLight A = false -> IsPointLight B = false ->
      X (Location A) + 500 <= X (Location B).
Proof.
  intros HC HP HQ Lt.
  assert (IP : Int32 (Index P))
    by (unfold Int32, MaxExactIndex in *; change (2 ^ 31) with 2147483648; lia).
  assert (IQ : Int32 (Index Q))
    by (unfold Int32, MaxExactIndex in *; change (2 ^ 31) with 2147483648; lia).
  destruct (CreateSceneFromPanel_groups RandomStream RandRange LeftToRight HostP P
              WorldP RandomP)
    as (C1 & O1 & M1 & L1 & E1 & _ & _ & FC1 & _ & FO1 & HM1 & HL1 & _).
  destruct (CreateSceneFromPanel_groups RandomStream RandRange LeftToRight HostQ Q
              WorldQ RandomQ)
    as (C2 & O2 & M2 & L2 & E2 & _ & _ & FC2 & _ & FO2 & HM2 & HL2 & _).
  exists (C1 ++ O1 ++ M1 ++ L1)%list, (C2 ++ O2 ++ M2 ++ L2)%list.
  split; [exact E1|]. split; [exact E2|].
  pose proof (Groups_in_slab RandomStream RandRange LeftToRight HostP P RandomP
                _ _ _ HC IP FC1 FO1 HM1) as S1.
  pose proof (Groups_in_slab RandomStream RandRange LeftToRight HostQ Q RandomQ
                _ _ _ HC IQ FC2 FO2 HM2) as S2.
  rewrite Forall_forall in S1, S2.
  assert (Shapes : forall (Shapes Lights : list AActor) (A : AActor),
            (Lights = [] \/ exists I C, Lights = [KeyLight I C]) ->
            In A (Shapes ++ Lights) -> IsPointLight A = false -> In A Shapes).
  { intros S L A HL HA NotLight. apply in_app_or in HA.
    destruct HA as [HA|HA]; [exact HA|].
    destruct HL as [->|(I & C & ->)]; [destruct HA|].
    destruct HA as [<-|[]]. discriminate NotLight. }
  intros A B HA HB NA NB.
  rewrite !app_assoc in HA, HB.
  apply Shapes in HA; [|destruct HL1 as [->| ->]; [now left|right; eauto]|exact NA].
  apply Shapes in HB; [|destruct HL2 as [->| ->]; [now left|right; eauto]|exact NB].
  rewrite <- !app_assoc in HA, HB.
  destruct (S1 A HA) as (_ & XA & _). destruct (S2 B HB) as (_ & XB & _).
  rewrite (SceneCenter_exact P HP) in XA. rewrite (SceneCenter_exact Q HQ) in XB.
  cbn [X] in XA, XB. lia.
Qed.

(** X5 on the generator that draws 500, 0, -500, 0: panel 1 with one crate and
    a close shot, panel 2 with one crate and a wide shot. *)
Lemma Scenes_apart_witness :
  exists AddedP AddedQ : list AActor,
    AddedP = [Cube (MakeVector 2500 0 0);
              Camera (MakeVector 1800 0 160) (Rotation (MakeVector 200 0 (-160)))
                     (FloatOfZ 50);
              KeyLight (FloatOfZ 3000) White] /\
    AddedQ = [Cube (MakeVector 3500 0 0);
              Camera (MakeVector 3000 0 160) (Rotation (MakeVector 1000 0 (-160)))
                     (FloatOfZ 50);
              KeyLight (FloatOfZ 3000) White] /\
    forall A B, In A AddedP -> In B AddedQ ->
      IsPointLight A = false -> IsPointLight B = false ->
      X (Location A) + 500 <= X (Location B).
Proof.
  pose (P := MakePanel "" 1 "close" 0 ["crate"] "" "").
  pose (Q := MakePanel "" 2 "wide" 0 ["crate"] "" "").
  assert (HP : - MaxExactIndex <= Index P <= MaxExactIndex)
    by (unfold MaxExactIndex; simpl; lia).
  assert (HQ : - MaxExactIndex <= Index Q <= MaxExactIndex)
    by (unfold MaxExactIndex; simpl; lia).
  assert (Lt : Index P < Index Q) by (simpl; lia).
  destruct (Scenes_apart Tape TapeRandRange true CooperativeHost CooperativeHost P Q
              [] [] [500; 0] [-500; 0] TapeRandRange_contract HP HQ Lt)
    as (AddedP & AddedQ & EP & EQ & Apart).
  change ([] ++ AddedP)%list with AddedP in EP.
  change ([] ++ AddedQ)%list with AddedQ in EQ.
  exists AddedP, AddedQ. split; [|split; [|exact Apart]].
  - rewrite <- EP. reflexivity.
  - rewrite <- EQ. reflexivity.
Defined.

(** X4 at panel 2 with one character and one crate, on the generator that draws
    700 and -30: everything but the light lies between X = 3000 and
    X = 4500. *)
Lemma Scene_extent_witness :
  exists Added : list AActor,
    Added = [Cylinder (MakeVector 4000 0 0); Cube (MakeVector 4500 (-30) 0);
             Camera (MakeVector 3500 0 160) (Rotation (MakeVector 500 0 (-160)))
                    (FloatOfZ 50);
             KeyLight (FloatOfZ 3000) White] /\
    forall Actor, In Actor Added -> IsPointLight Actor = false ->
      4000 - 1000 <= X (Location Actor) <= 4000 + 500 /\
      0 <= Z_ (Location Actor) <= 160.
Proof.
  pose (Panel := MakePanel "" 2 "" 1 ["crate"] "" "").
  assert (HI : Int32 (Index Panel)) by (unfold Int32; simpl; lia).
  destruct (Scene_extent Tape TapeRandRange true CooperativeHost Panel [] [700; -30]
              TapeRandRange_contract HI) as (Added & E & Box).
  change ([] ++ Added)%list with Added in E.
  exists Added. split; [rewrite <- E; reflexivity|exact Box].
Defined.

(** ** What [CreateSceneFromPanel] reads of the panel *)

Lemma FString_eq_compared (A B : FString) (Literal : string) :
  AsCompared A = AsCompared B ->
  FString_eq A Literal = FString_eq B Literal.
Proof.
  intros H. rewrite !FString_eq_ignores_case. unfold EqualsIgnoreCase.
  unfold AsCompared in H. now rewrite H.
Qed.

Lemma CameraDistance_compared (A B : FString) :
  AsCompared A = AsCompared B -> CameraDistance A = CameraDistance B.
Proof.
  intros H. unfold CameraDistance. now rewrite !(FString_eq_compared A B _ H).
Qed.

Lemma ResolveLighting_compared (MoodA MoodB TimeA TimeB : FString) :
  AsCompared MoodA = AsCompared MoodB -> AsCompared TimeA = AsCompared TimeB ->
  ResolveLighting MoodA TimeA = ResolveLighting MoodB TimeB.
Proof.
  intros HM HT. unfold ResolveLighting, TimeOfDayLight, ApplyMood.
  now rewrite !(FString_eq_compared MoodA MoodB _ HM),
              !(FString_eq_compared TimeA TimeB _ HT).
Qed.

Lemma fold_left_pointwise {A B : Type} (f g : A -> B -> A) (l : list B) (a : A) :
  (forall x y, In y l -> f x y = g x y) -> fold_left f l a = fold_left g l a.
Proof.
  revert a. induction l as [|y l IH]; intros a H; [reflexivity|].
  cbn [fold_left]. rewrite (H a y) by now left.
  apply IH. intros x z Hz. apply H. now right.
Qed.

Section ReadingFacts.

Variable RandomStream : Type.
Variable RandRange : Z -> Z -> RandomStream -> Z * RandomStream.
Variable LeftToRight : bool.

Local Abbreviation CreateScene :=
  (CreateSceneFromPanel RandomStream RandRange LeftToRight).
Local Abbreviation PlaceOne := (PlaceObject RandomStream RandRange LeftToRight).

(** The object loop reads the number of entries, not the entries. *)
Lemma PlaceObjects_by_count (Host : EditorHost) (P Q : FStoryboardPanel)
    (ObjectsP ObjectsQ : list FString) (State : UWorld * RandomStream) :
  SceneCenter P = SceneCenter Q ->
  List.length ObjectsP = List.length ObjectsQ ->
  fold_left (PlaceOne Host P) ObjectsP State = fold_left (PlaceOne Host Q) ObjectsQ State.
Proof.
  intros HC. revert ObjectsQ State.
  induction ObjectsP as [|O Rest IH]; intros [|O' Rest'] State HL;
    try discriminate HL; [reflexivity|].
  cbn [fold_left]. injection HL as HL.
  replace (PlaceOne Host P State O) with (PlaceOne Host Q State O');
    [now apply IH|].
  unfold PlaceObject, ObjectLocation. now rewrite HC.
Qed.

(** X6.  Of the panel, [CreateSceneFromPanel] reads the index, the character
    count as far as it is positive, the number of objects, and the three
    descriptors as a comparison sees them.  Two panels that agree on these
    give the same world and leave the generator in the same state; the
    image path, the names of the objects and the case of the descriptors
    change nothing. *)
Theorem CreateSceneFromPanel_reads (Host : EditorHost) (P Q : FStoryboardPanel)
    (State : UWorld * RandomStream) :
  Index P = Index Q ->
  Z.max 0 (NumCharacters P) = Z.max 0 (NumCharacters Q) ->
  List.length (Objects P) = List.length (Objects Q) ->
  AsCompared (ShotType P) = AsCompared (ShotType Q) ->
  AsCompared (Mood P) = AsCompared (Mood Q) ->
  AsCompared (TimeOfDay P) = AsCompared (TimeOfDay Q) ->
  CreateScene Host P State = CreateScene Host Q State.
Proof.
  intros HI HN HO HS HM HT.
  assert (Center : SceneCenter P = SceneCenter Q)
    by (unfold SceneCenter; now rewrite HI).
  assert (Cam : CameraLocation P = CameraLocation Q)
    by (unfold CameraLocation;
        now rewrite Center, (CameraDistance_compared _ _ HS)).
  assert (Rot : CameraRotation P = CameraRotation Q)
    by (unfold CameraRotation; now rewrite Center, Cam).
  assert (Light : forall W, SetupLighting Host (Mood P) (TimeOfDay P) W =
                            SetupLighting Host (Mood Q) (TimeOfDay Q) W)
    by (intros W; unfold SetupLighting;
        now rewrite (ResolveLighting_compared _ _ _ _ HM HT)).
  assert (Chars : forall W,
            fold_left (PlaceCharacter Host P) (LoopIndices (NumCharacters P)) W =
            fold_left (PlaceCharacter Host Q) (LoopIndices (NumCharacters Q)) W).
  { intros W.
    assert (Loop : LoopIndices (NumCharacters P) = LoopIndices (NumCharacters Q)).
    { unfold LoopIndices. do 2 f_equal. lia. }
    rewrite <- Loop. apply fold_left_pointwise. intros W' i Hi.
    apply LoopIndices_In in Hi.
    assert (Same : NumCharacters P = NumCharacters Q) by lia.
    unfold PlaceCharacter, CharLocation. now rewrite Center, Same. }
  unfold CreateSceneFromPanel. destruct (HasWorld Host); [|reflexivity]. cbn [negb].
  destruct State as [World Random]. rewrite Chars.
  rewrite (PlaceObjects_by_count Host P Q (Objects P) (Objects Q) _ Center HO).
  destruct (fold_left _ (Objects Q) _) as [World2 Random2].
  rewrite Cam, Rot.
  destruct (CreateCamera _ _ _ _ World2) as [Actor World3]. now rewrite Light.
Qed.

End ReadingFacts.

(** X6 at a panel and the same panel with another image path, other object
    names and the descriptors in capitals. *)
Lemma CreateSceneFromPanel_reads_witness :
  CreateSceneFromPanel Tape TapeRandRange true CooperativeHost
    (MakePanel "a.png" 1 "close" 2 ["crate"] "dark" "night") ([], [40; -40]) =
  CreateSceneFromPanel Tape TapeRandRange true CooperativeHost
    (MakePanel "b.png" 1 "CLOSE" 2 ["lamp"] "Dark" "NIGHT") ([], [40; -40]).
Proof.
  apply (CreateSceneFromPanel_reads Tape TapeRandRange true CooperativeHost
           (MakePanel "a.png" 1 "close" 2 ["crate"] "dark" "night")
           (MakePanel "b.png" 1 "CLOSE" 2 ["lamp"] "Dark" "NIGHT"));
    reflexivity.
Defined.

(** ** What the camera has before it *)

(** X7.  Every character stands ahead of the camera, on the side it looks to.
    So does every object when the shot is not a close one.  In a close shot
    the camera is 200 before the scene centre and an object drawn more than
    327 before the centre lies behind it. *)
Theorem Shapes_ahead_of_camera (RandomStream : Type)
    (RandRange : Z -> Z -> RandomStream -> Z * RandomStream) (LeftToRight : bool)
    (Host : EditorHost) (Panel : FStoryboardPanel)
    (World : UWorld) (Random : RandomStream) :
  RandRangeContract RandRange -> Int32 (Index Panel) ->
  exists Added,
    fst (CreateSceneFromPanel RandomStream RandRange LeftToRight Host Panel
           (World, Random)) = (World ++ Added)%list /\
    forall Camera Direction,
      In Camera Added -> ActorRotation Camera = Rotation Direction ->
      forall Actor, In Actor Added ->
        (IsCylinder Actor = true ->
           Ahead (Location Camera) Direction (Location Actor)) /\
        (IsCube Actor = true -> CameraDistance (ShotType Panel) <> 200 ->
           Ahead (Location Camera) Direction (Location Actor)) /\
        (IsCube Actor = true -> CameraDistance (ShotType Panel) = 200 ->
           (Ahead (Location Camera) Direction (Location Actor) <->
            X (SceneCenter Panel) - 327 <= X (Location Actor))).
Proof.
  intros HC HI.
  destruct (CreateSceneFromPanel_groups RandomStream RandRange LeftToRight Host Panel
              World Random)
    as (Characters & Cubes & Cameras & Lights & E & _ & _ & FC & _ & FO
        & HCam & HL & _).
  exists (Characters ++ Cubes ++ Cameras ++ Lights)%list. split; [exact E|].
  rewrite Forall_forall in FC, FO.
  pose proof (DrawObjectOffsets_in_range RandomStream RandRange LeftToRight
                (Objects Panel) Random HC) as HR.
  rewrite Forall_forall in HR.
  pose proof (CameraDistance_values (ShotType Panel)) as HD. simpl in HD.
  intros Camera Direction HCamera HRot.
  assert (Eye : Location Camera =
                  MakeVector (X (SceneCenter Panel) - CameraDistance (ShotType Panel))
                             0 160 /\
                Direction = MakeVector (CameraDistance (ShotType Panel)) 0 (-160)).
  { rewrite !in_app_iff in HCamera. destruct HCamera as [H|[H|[H|H]]].
    - destruct (FC _ H) as (i & _ & ->). discriminate HRot.
    - destruct (FO _ H) as (o & _ & ->). discriminate HRot.
    - destruct HCam as [->| ->]; [destruct H|]. destruct H as [<-|[]].
      cbn [CameraOn Location ActorRotation] in *.
      rewrite CameraRotation_exact in HRot by assumption.
      split; [now apply CameraLocation_exact|]. now injection HRot.
    - destruct HL as [->| ->]; [destruct H|]. destruct H as [<-|[]].
      discriminate HRot. }
  destruct Eye as (-> & ->).
  intros Actor HA. rewrite !in_app_iff in HA. destruct HA as [H|[H|[H|H]]].
  - destruct (FC _ H) as (i & _ & ->).
    destruct (CharLocation_X Panel i HI) as (EX & EZ).
    split; [|split; intros K; discriminate K]. intros _.
    unfold Ahead, Dot. cbn [Cylinder Location X Y Z_]. rewrite EX, EZ.
    destruct HD as [<-|[<-|[<-|[]]]]; lia.
  - destruct (FO _ H) as (o & Ho & ->). destruct (HR o Ho) as (Hx & Hy).
    split; [intros K; discriminate K|].
    unfold Ahead, Dot. cbn [Cube Location]. rewrite ObjectLocation_exact by assumption.
    cbn [X Y Z_].
    split; intros _ D.
    + destruct HD as [K|[K|[K|[]]]]; rewrite <- K in *; lia.
    + rewrite D. lia.
  - destruct HCam as [->| ->]; [destruct H|]. destruct H as [<-|[]].
    split; [|split]; intros K; discriminate K.
  - destruct HL as [->| ->]; [destruct H|]. destruct H as [<-|[]].
    split; [|split]; intros K; discriminate K.
Qed.

(** X7 at a close shot of one crate drawn 400 before the scene centre of panel 0:
    the camera stands at X = -200 and the crate, at X = -400, is not ahead
    of it. *)
Lemma Shapes_ahead_of_camera_witness :
  let Crate := Cube (MakeVector (-400) 0 0) in
  let Eye := MakeVector (-200) 0 160 in
  let Direction := MakeVector 200 0 (-160) in
  fst (CreateSceneFromPanel Tape TapeRandRange true CooperativeHost
         (MakePanel "" 0 "close" 0 ["crate"] "" "") ([], [-400; 0])) =
    [Crate; Camera Eye (Rotation Direction) (FloatOfZ 50);
     KeyLight (FloatOfZ 3000) White] /\
  ~ Ahead Eye Direction (Location Crate).
Proof.
  pose (Panel := MakePanel "" 0 "close" 0 ["crate"] "" "").
  assert (HI : Int32 (Index Panel)) by (unfold Int32; simpl; lia).
  destruct (Shapes_ahead_of_camera Tape TapeRandRange true CooperativeHost Panel
              [] [-400; 0] TapeRandRange_contract HI) as (Added & E & Sides).
  change ([] ++ Added)%list with Added in E.
  assert (EA : Added = [Cube (MakeVector (-400) 0 0);
                        Camera (MakeVector (-200) 0 160)
                               (Rotation (MakeVector 200 0 (-160))) (FloatOfZ 50);
                        KeyLight (FloatOfZ 3000) White])
    by (rewrite <- E; reflexivity).
  cbv zeta. split; [exact (eq_trans E EA)|].
  destruct (Sides (Camera (MakeVector (-200) 0 160)
                          (Rotation (MakeVector 200 0 (-160))) (FloatOfZ 50))
                  (MakeVector 200 0 (-160))
                  ltac:(rewrite EA; simpl; auto) eq_refl
                  (Cube (MakeVector (-400) 0 0))
                  ltac:(rewrite EA; simpl; auto)) as (_ & _ & Close).
  intros A. apply (Close eq_refl eq_refl) in A. simpl in A. lia.
Defined.

(** ** Where the key light is, and how bright *)



(** X9.  The intensity set on the key light is a whole number, one of 500, 1000,
    1500, 2000, 3000 and 4500, whatever the two strings are: never zero,
    negative or not a number. *)
Theorem KeyLight_intensity_values (Host : EditorHost) (Mood TimeOfDay : FString)
    (World : UWorld) :
  exists Intensity,
    In Intensity [500; 1000; 1500; 2000; 3000; 4500] /\
    (SetupLighting Host Mood TimeOfDay World = World \/
     SetupLighting Host Mood TimeOfDay World =
       (World ++ [KeyLight (FloatOfZ Intensity)
                           (fst (ResolveLighting Mood TimeOfDay))])%list).
Proof.
  pose proof (BaseTable_values EqualsIgnoreCase TimeOfDay) as HB.
  pose proof (MultiplierTable_values EqualsIgnoreCase Mood) as HM.
  exists (BaseTable EqualsIgnoreCase TimeOfDay * MultiplierTable EqualsIgnoreCase Mood * 100).
  split.
  - simpl in HB, HM.
    destruct HB as [<-|[<-|[<-|[]]]]; destruct HM as [<-|[<-|[<-|[]]]]; simpl; auto 10.
  - destruct (SetupLighting_cases Host Mood TimeOfDay) as [E|E]; [left; apply E|].
    right. rewrite E, ResolveLighting_intensity.
    now destruct (KeyLight_scaling _ _ HB HM) as [-> _].
Qed.

(* ===================================================================== *)
(** * Sequences of different panels                                       *)
(* ===================================================================== *)

(** The decimal digits of an integer read back as that integer. *)
Lemma Printf_d_parses (z : Z) :
  NilZero.int_of_string (Printf_d z) = Some (Z.to_int z).
Proof.
  unfold Printf_d. apply NilZero.isi.
  - destruct z as [|p|p]; simpl; try discriminate.
    intros [= H]. now apply (DecimalPos.Unsigned.to_uint_nonnil p).
  - destruct z as [|p|p]; simpl; try discriminate.
    intros [= H]. now apply (DecimalPos.Unsigned.to_uint_nonnil p).
Qed.

Lemma Printf_d_inj (a b : Z) : Printf_d a = Printf_d b -> a = b.
Proof.
  intros H. apply DecimalZ.to_int_inj.
  pose proof (Printf_d_parses a) as Ha. rewrite H, Printf_d_parses in Ha.
  now injection Ha.
Qed.

(** Only zero is written with a leading zero. *)
Lemma Printf_d_leading_zero (z : Z) (s : string) :
  Printf_d z = String "0" s -> s = "".
Proof.
  intros H. pose proof (Printf_d_parses z) as P. rewrite H in P.
  cbn [NilZero.int_of_string] in P.
  change (Ascii.eqb "0" "-") with false in P. cbv iota in P.
  cbn [NilZero.uint_of_string NilEmpty.uint_of_string] in P.
  destruct (NilEmpty.uint_of_string s) as [u|] eqn:Eu; [|discriminate P].
  cbn in P. injection P as P.
  assert (N : Decimal.norm (Z.to_int z) = Z.to_int z)
    by (rewrite <- DecimalZ.to_of, DecimalZ.of_to; reflexivity).
  rewrite <- P in N. cbn [Decimal.norm] in N. injection N as N.
  rewrite DecimalFacts.unorm_D0 in N. unfold Decimal.unorm in N.
  destruct (Decimal.nzhead u) eqn:En; try discriminate N.
  - injection N as <-. unfold Printf_d in H. rewrite <- P in H. cbn in H.
    now injection H.
  - exfalso. apply (DecimalFacts.nzhead_nonzero u u0). congruence.
Qed.

Lemma Printf_02d_inj (a b : Z) : Printf_02d a = Printf_02d b -> a = b.
Proof.
  unfold Printf_02d. intros H.
  pose proof (Printf_d_not_empty a) as Na. pose proof (Printf_d_not_empty b) as Nb.
  destruct (Nat.ltb_spec (String.length (Printf_d a)) 2) as [La|La];
    destruct (Nat.ltb_spec (String.length (Printf_d b)) 2) as [Lb|Lb].
  - apply Printf_d_inj. now injection H.
  - symmetry in H. apply Printf_d_leading_zero in H.
    rewrite H in Na. simpl in Na. lia.
  - apply Printf_d_leading_zero in H.
    rewrite H in Nb. simpl in Nb. lia.
  - now apply Printf_d_inj.
Qed.

Lemma append_inj_r (p s t : string) : (p ++ s = p ++ t -> s = t)%string.
Proof. induction p as [|c p IH]; simpl; [trivial|]. intros [= H]. now apply IH. Qed.

Lemma append_inj_l (s t q : string) :
  String.length s = String.length t -> (s ++ q = t ++ q -> s = t)%string.
Proof.
  revert t. induction s as [|c s IH]; intros [|d t] L H; simpl in *; try discriminate.
  - reflexivity.
  - injection H as -> H. f_equal. apply IH; [lia|exact H].
Qed.

Lemma length_append (s t : string) :
  String.length (s ++ t) = (String.length s + String.length t)%nat.
Proof. induction s as [|c s IH]; simpl; [reflexivity|now rewrite IH]. Qed.

(** X10.  Two panels get the same sequence name, or the same package, exactly
    when they have the same index: sequences of different panels never land
    on one asset, and a panel created again lands on its own. *)
Theorem SequenceName_inj (P Q : FStoryboardPanel) :
  (SequenceName P = SequenceName Q <-> Index P = Index Q) /\
  (PackagePath P = PackagePath Q <-> Index P = Index Q).
Proof.
  assert (N : SequenceName P = SequenceName Q <-> Index P = Index Q).
  { unfold SequenceName, FString_append, TEXT. split; [|now intros ->].
    intros H. apply append_inj_r in H. apply Printf_02d_inj.
    apply (append_inj_l _ _ "_Sequence"); [|exact H].
    apply (f_equal String.length) in H. rewrite !length_append in H. lia. }
  split; [exact N|]. rewrite <- N. unfold PackagePath, FString_append, TEXT.
  split; [apply append_inj_r|now intros ->].
Qed.

(* ===================================================================== *)
(** * The asset search                                                    *)
(* ===================================================================== *)

Section SearchFacts.

Variable Contains : FString -> FString -> bool.

Local Abbreviation Find := (FindAssetsMatching Contains).
Local Abbreviation Matches :=
  (fun SearchTerm Asset => Contains (AssetName Asset) SearchTerm).

(** The loop collects, behind what it already has, the paths of the
    matching assets in the order it meets them. *)
Lemma Visit_fold (SearchTerm : FString) (AssetData : list FAssetData)
    (Results : list FString) :
  fold_left (Visit Contains SearchTerm) AssetData Results =
    (Results ++ map SoftObjectPath (filter (Matches SearchTerm) AssetData))%list.
Proof.
  revert Results. induction AssetData as [|Asset Rest IH]; intros Results.
  - simpl. now rewrite app_nil_r.
  - cbn [fold_left filter]. rewrite IH. unfold Visit.
    destruct (Contains (AssetName Asset) SearchTerm); [|reflexivity].
    cbn [map]. now rewrite <- app_assoc.
Qed.

Lemma FindAssetsMatching_filter (AssetData : list FAssetData) (SearchTerm : FString) :
  Find AssetData SearchTerm =
    map SoftObjectPath (filter (Matches SearchTerm) AssetData).
Proof. unfold FindAssetsMatching. now rewrite Visit_fold. Qed.

(** X11.  A path is returned exactly when it is the path of a registered asset
    whose name contains the search term. *)
Theorem FindAssetsMatching_exact (AssetData : list FAssetData)
    (SearchTerm Path : FString) :
  In Path (Find AssetData SearchTerm) <->
  exists Asset, In Asset AssetData /\
                Contains (AssetName Asset) SearchTerm = true /\
                SoftObjectPath Asset = Path.
Proof.
  rewrite FindAssetsMatching_filter, in_map_iff. split.
  - intros (Asset & E & H). apply filter_In in H. destruct H as (H & M).
    exists Asset. now repeat split.
  - intros (Asset & H & M & E). exists Asset. split; [exact E|].
    apply filter_In. now split.
Qed.

(** X12.  The results keep the order of the registry and hold one entry per
    matching asset, repeated paths included: searching two registries one
    after the other gives the two result lists one after the other, there
    are never more results than assets, and as many exactly when every name
    matches. *)
Theorem FindAssetsMatching_order (First Second : list FAssetData)
    (SearchTerm : FString) :
  Find (First ++ Second) SearchTerm =
    (Find First SearchTerm ++ Find Second SearchTerm)%list /\
  (List.length (Find First SearchTerm) <= List.length First)%nat /\
  (List.length (Find First SearchTerm) = List.length First <->
   Forall (fun Asset => Contains (AssetName Asset) SearchTerm = true) First).
Proof.
  rewrite !FindAssetsMatching_filter. split; [|split].
  - now rewrite filter_app, map_app.
  - rewrite length_map. apply filter_length_le.
  - rewrite length_map. split.
    + intros H. apply Forall_forall. intros Asset HA.
      induction First as [|A Rest IH]; [destruct HA|].
      cbn [filter] in H. pose proof (filter_length_le (Matches SearchTerm) Rest) as L.
      destruct (Contains (AssetName A) SearchTerm) eqn:M.
      * destruct HA as [<-|HA]; [exact M|]. apply IH; [|exact HA].
        simpl in H. lia.
      * simpl in H. lia.
    + intros F. induction F as [|A Rest M _ IH]; [reflexivity|].
      cbn [filter]. rewrite M. simpl. now rewrite IH.
Qed.

End SearchFacts.

(* ===================================================================== *)
(** * The Slate style of the plugin                                       *)
(* ===================================================================== *)

Lemma UnRegisterSlateStyle_fresh (Style : FSlateStyleSet)
    (Repository : list FSlateStyleSet) :
  FindSlateStyle (StyleSetName Style) Repository = None ->
  UnRegisterSlateStyle Style (Repository ++ [Style]) = Repository.
Proof.
  unfold FindSlateStyle, UnRegisterSlateStyle. intros H.
  rewrite filter_app.
  assert (Self : FName_eq (StyleSetName Style) (StyleSetName Style) = true)
    by apply String.eqb_refl.
  cbn [filter]. rewrite Self. cbn [negb]. rewrite app_nil_r.
  induction Repository as [|Other Rest IH]; [reflexivity|].
  cbn [find filter] in *.
  destruct (FName_eq (StyleSetName Other) (StyleSetName Style)); [discriminate H|].
  cbn [negb]. now rewrite IH.
Qed.

Lemma FindSlateStyle_registered (Style : FSlateStyleSet)
    (Repository : list FSlateStyleSet) :
  FindSlateStyle (StyleSetName Style) Repository = None ->
  FindSlateStyle (StyleSetName Style) (Repository ++ [Style]) = Some Style.
Proof.
  unfold FindSlateStyle. intros H.
  induction Repository as [|Other Rest IH]; cbn [find app] in *.
  - unfold FName_eq, EqualsIgnoreCase. now rewrite String.eqb_refl.
  - destruct (FName_eq (StyleSetName Other) (StyleSetName Style));
      [discriminate H|now apply IH].
Qed.

Lemma FindSlateStyle_unregistered (Style : FSlateStyleSet)
    (Repository : list FSlateStyleSet) :
  FindSlateStyle (StyleSetName Style) (UnRegisterSlateStyle Style Repository) = None.
Proof.
  unfold FindSlateStyle, UnRegisterSlateStyle.
  induction Repository as [|Other Rest IH]; [reflexivity|].
  cbn [filter].
  destruct (FName_eq (StyleSetName Other) (StyleSetName Style)) eqn:E; cbn [negb].
  - exact IH.
  - cbn [find]. now rewrite E.
Qed.

(** X13.  [Initialize] is guarded: once it has gone through, a further call
    changes nothing, on whatever host; and when it does not go through the
    first time there is no further call. *)
Theorem Initialize_twice (Host Host' : SlateHost) (S : Slate) :
  Then (Initialize Host S) (Initialize Host') = Initialize Host S /\
  (forall S', Initialize Host S = Some S' ->
     StyleInstance S' <> None /\ Initialize Host' S' = Some S').
Proof.
  assert (Valid : forall S', Initialize Host S = Some S' -> StyleInstance S' <> None).
  { unfold Initialize. intros S'. destruct (StyleInstance S) eqn:E.
    - intros [= <-]. now rewrite E.
    - destruct (Create Host) as [Style|]; [|discriminate]. cbn [Then].
      destruct (RegisterSlateStyle Style _); [|discriminate]. cbn [Then].
      now intros [= <-]. }
  assert (Again : forall S', StyleInstance S' <> None -> Initialize Host' S' = Some S').
  { intros S' H. unfold Initialize. now destruct (StyleInstance S'). }
  split.
  - destruct (Initialize Host S) as [S'|] eqn:E; [|reflexivity].
    cbn [Then]. apply Again. now apply Valid.
  - intros S' E. split; [now apply Valid|]. apply Again. now apply Valid.
Qed.

(** X14.  [Shutdown] is not guarded: it reads through [StyleInstance] first.  It
    fails exactly when the instance is empty, so before any [Initialize],
    and always when it is called a second time. *)
Theorem Shutdown_unguarded (S : Slate) :
  (Shutdown S = None <-> StyleInstance S = None) /\
  Then (Shutdown S) Shutdown = None /\
  (forall S', Shutdown S = Some S' ->
     StyleInstance S' = None /\ TextureReloads S' = TextureReloads S /\
     forall Style, StyleInstance S = Some Style ->
       FindSlateStyle (StyleSetName Style) (SlateStyleRepository S') = None).
Proof.
  unfold Shutdown. destruct (StyleInstance S) as [Style|] eqn:E.
  - split; [split; discriminate|]. split; [reflexivity|].
    intros S' [= <-]. cbn. repeat split. intros Style' [= <-].
    apply FindSlateStyle_unregistered.
  - split; [now split|]. split; [reflexivity|]. discriminate.
Qed.

(** X15.  From a state without the instance and without a style of the plugin's
    name, where the plugin is found: [Initialize] registers the style under
    [GetStyleSetName], [Get] returns that style, which holds the icon of
    the toolbar button, and [Shutdown] then gives back the state there was
    before. *)
Theorem Initialize_Shutdown_round_trip (Host : SlateHost) (S : Slate)
    (BaseDir : FString) :
  StyleInstance S = None ->
  FindSlateStyle GetStyleSetName (SlateStyleRepository S) = None ->
  FindPlugin Host (TEXT "StoryboardTo3D") = Some BaseDir ->
  exists S' Style,
    Initialize Host S = Some S' /\
    Get S' = Some Style /\
    StyleSetName Style = GetStyleSetName /\
    FindSlateStyle GetStyleSetName (SlateStyleRepository S') = Some Style /\
    In (TEXT "StoryboardTo3D.OpenPluginWindow",
        MakeBrush (BaseDir, TEXT "Resources") (TEXT "PlaceholderButtonIcon")
                  (TEXT ".svg") (20, 20))
       (BrushResources Style) /\
    Shutdown S' = Some S.
Proof.
  intros HI HR HP. unfold Initialize, Create. rewrite HI, HP. cbn [Then].
  set (Style := MakeStyleSet _ _ _).
  change GetStyleSetName with (StyleSetName Style) in HR |- *.
  unfold RegisterSlateStyle. rewrite HR. cbn [Then].
  eexists. exists Style. split; [reflexivity|]. cbn [Get StyleInstance SlateStyleRepository].
  split; [reflexivity|]. split; [reflexivity|].
  split; [now apply FindSlateStyle_registered|]. split; [now left|].
  unfold Shutdown. cbn [StyleInstance SlateStyleRepository TextureReloads].
  rewrite UnRegisterSlateStyle_fresh by assumption.
  destruct S as [I R T]. cbn in *. now subst I.
Qed.

(** X15 on an empty registry, the plugin found under one directory. *)
Lemma Initialize_Shutdown_round_trip_witness :
  Then (Initialize (HostAt "C:/Plugins/StoryboardTo3D") (MakeSlate None [] 0)) Shutdown =
    Some (MakeSlate None [] 0).
Proof.
  destruct (Initialize_Shutdown_round_trip (HostAt "C:/Plugins/StoryboardTo3D")
              (MakeSlate None [] 0) "C:/Plugins/StoryboardTo3D"
              eq_refl eq_refl eq_refl) as (S' & Style & EI & _ & _ & _ & _ & ES).
  rewrite EI. exact ES.
Defined.
